(** * Lorenz_system.ipynb: the Lorenz integration and regression notebook

    A shallow embedding of the notebook's numerical pipeline: the vector
    field [lorenz], the shifted data frame of one-step-ahead samples, the
    seeded train/test split, the standard scaler, the polynomial regression
    pipeline that is refitted for the three targets, and the RMSE report.

    Arithmetic is written once, over a class [Num] of float64-like
    operations.  Two instances are given: [binary64], the IEEE 754 double
    precision numbers of [SpecFloat] (what NumPy computes with), and
    [exactR], the real numbers (what the formulas mean without rounding). *)

From Stdlib Require Import ZArith List Bool Lia String.
From Stdlib Require Import Reals Lra Epsilon.
From Stdlib Require Import Floats.SpecFloat.
From stdpp Require Import base option list gmap.
Import ListNotations.

Local Open Scope nat_scope.

(** ** Exceptions and results *)

(** The Python exceptions the modelled calls can raise. *)
Inductive error : Type :=
  | ValueError      (* bad shape, wrong number of values to unpack, empty input *)
  | KeyError        (* a column label that the frame does not have *)
  | IndexError      (* a positional index out of range *)
  | TypeError       (* a method called on an object of another class *)
  | NotFittedError. (* transform / predict before fit *)

Inductive result (A : Type) : Type :=
  | Ok (a : A)
  | Raise (e : error).

Arguments Ok {A} a.
Arguments Raise {A} e.

Definition bind {A B : Type} (r : result A) (k : A -> result B) : result B :=
  match r with
  | Ok a => k a
  | Raise e => Raise e
  end.

Declare Scope result_scope.
Delimit Scope result_scope with result.
Notation "'let*' x ':=' r 'in' k" := (bind r (fun x => k))
  (at level 10, x pattern, r at level 100, k at level 200) : result_scope.

(** ** Float64-like arithmetic *)

Class Num (F : Type) : Type := {
  fzero : F;
  fone : F;
  fadd : F -> F -> F;
  fsub : F -> F -> F;
  fmul : F -> F -> F;
  fdiv : F -> F -> F;
  fsqrt : F -> F;
  fof_nat : nat -> F;       (* int -> float conversion *)
  fleb : F -> F -> bool;    (* <= *)
  feps : F                  (* np.finfo(np.float64).eps *)
}.

Declare Scope num_scope.
Delimit Scope num_scope with num.
Infix "[+]" := fadd (at level 50, left associativity) : num_scope.
Infix "[-]" := fsub (at level 50, left associativity) : num_scope.
Infix "[*]" := fmul (at level 40, left associativity) : num_scope.
Infix "[/]" := fdiv (at level 40, left associativity) : num_scope.

(** *** IEEE 754 binary64 *)

Module B64.

Definition prec : Z := 53.
Definition emax : Z := 1024.

Definition t : Type := spec_float.

Definition add : t -> t -> t := SFadd prec emax.
Definition sub : t -> t -> t := SFsub prec emax.
Definition mul : t -> t -> t := SFmul prec emax.
Definition div : t -> t -> t := SFdiv prec emax.
Definition sqrt : t -> t := SFsqrt prec emax.
Definition eqb : t -> t -> bool := SFeqb.
Definition leb : t -> t -> bool := SFleb.

Definition of_Z (n : Z) : t := binary_normalize prec emax n 0 false.
Definition of_nat (n : nat) : t := of_Z (Z.of_nat n).

(** [m * 2^e], rounded to nearest even (used to write decimal literals
    such as [2.2] through their exact binary expansion). *)
Definition make (m e : Z) : t := binary_normalize prec emax m e false.

Definition pzero : t := S754_zero false.
Definition nan : t := S754_nan.
Definition eps : t := Eval cbv in make 1 (-52).

Definition is_nan (x : t) : bool :=
  match x with S754_nan => true | _ => false end.

(** Neither an infinity nor a NaN. *)
Definition is_finite (x : t) : bool :=
  match x with
  | S754_zero _ | S754_finite _ _ _ => true
  | S754_infinity _ | S754_nan => false
  end.

Definition is_zero (x : t) : bool :=
  match x with S754_zero _ => true | _ => false end.

End B64.

#[export] Instance binary64 : Num B64.t := {
  fzero := B64.pzero;
  fone := B64.of_Z 1;
  fadd := B64.add;
  fsub := B64.sub;
  fmul := B64.mul;
  fdiv := B64.div;
  fsqrt := B64.sqrt;
  fof_nat := B64.of_nat;
  fleb := B64.leb;
  feps := B64.eps
}.

(** *** Exact real arithmetic *)

Definition Rleb (a b : R) : bool := if Rle_dec a b then true else false.

(** The machine epsilon of binary64, [2^-52], as a real number. *)
Definition Reps : R := (/ 2 ^ 52)%R.
Arguments Reps : simpl never.

#[export] Instance exactR : Num R := {
  fzero := 0%R;
  fone := 1%R;
  fadd := Rplus;
  fsub := Rminus;
  fmul := Rmult;
  fdiv := Rdiv;
  fsqrt := sqrt;
  fof_nat := INR;
  fleb := Rleb;
  feps := Reps
}.

(** *** Missing values

    pandas marks a missing float with NaN.  The reals have no such value,
    so only [binary64] is an instance. *)

Class Missing (F : Type) : Type := {
  fnan : F;
  fisnan : F -> bool;
  fisnan_nan : fisnan fnan = true
}.

#[export] Instance binary64_missing : Missing B64.t := {
  fnan := B64.nan;
  fisnan := B64.is_nan;
  fisnan_nan := eq_refl
}.

(** ** The vector field (cell 4)

<<
def lorenz(w, t, sigma, rho, beta):
    x, y, z = w
    dwdt = [sigma * (y - x), x * (rho - z) - y, x * y - beta * z]
    return dwdt
>>
    The unpacking [x, y, z = w] raises [ValueError] unless [w] has exactly
    three entries; [t] is not used. *)

Section VectorField.
Context {F : Type} `{Num F}.
Local Open Scope num_scope.

Definition lorenz (w : list F) (t sigma rho beta : F) : result (list F) :=
  match w with
  | [x; y; z] =>
      Ok [sigma [*] (y [-] x); x [*] (rho [-] z) [-] y; x [*] y [-] beta [*] z]
  | _ => Raise ValueError
  end.

End VectorField.


(** ** Time grid and integration (cells 5 and 6)

<<
w0 = [1.0, 0.0, 0.0]
t = np.linspace(0, 30, 3001)
sigma = 10
rho = 28
beta = 2.2
sol = odeint(lorenz, w0, t, args=(sigma, rho, beta))
>>  *)

(** [scipy.integrate.odeint] (LSODA) is used as a black box: a function
    of the right-hand side, the initial state and the time grid that
    returns one state per grid point or fails. *)
Class Integrator (F : Type) : Type := {
  odeint : (list F -> F -> result (list F)) -> list F -> list F ->
           result (list (list F))
}.

Section Integration.
Context {F : Type} `{Num F} `{Integrator F}.
Local Open Scope num_scope.

(** [a == b] on floats: false when either side is NaN. *)
Definition feqb (a b : F) : bool := fleb a b && fleb b a.

(** [np.linspace(start, stop, num)] with the default [endpoint=True]:
    [i * step + start] for [step = delta / div], with
    [delta = stop - start] and [div = num - 1], the last sample being
    set to [stop] itself.  When the step is zero (a [delta] so small
    that the division underflows) NumPy divides first, [i / div * delta];
    for a single sample there is no step and the sample is
    [0 * delta + start]. *)
Definition linspace (start stop : F) (num : nat) : list F :=
  match num with
  | 0 => []
  | S div =>
      let delta := stop [-] start in
      match div with
      | 0 => [fzero [*] delta [+] start]
      | _ =>
          let step := delta [/] fof_nat div in
          let y := fun i =>
            if feqb step fzero then fof_nat i [/] fof_nat div [*] delta
            else fof_nat i [*] step in
          map (fun i => y i [+] start) (seq 0 div) ++ [stop]
      end
  end.

Definition w0 : list F := [fone; fzero; fzero].
Definition t_grid : list F := linspace fzero (fof_nat 30) 3001.
Definition sigma : F := fof_nat 10.
Definition rho : F := fof_nat 28.
(** The literal [2.2] is the double nearest to 22/10, which is what the
    correctly rounded division of the two exact integers gives. *)
Definition beta : F := fof_nat 22 [/] fof_nat 10.

Definition solve : result (list (list F)) :=
  odeint (fun w t => lorenz w t sigma rho beta) w0 t_grid.

End Integration.

(** ** The data frame of one-step-ahead samples (cell 26)

<<
df = pd.DataFrame(sol, columns=['x', 'y', 'z'])
df['t'] = t
df = df[['t','x', 'y', 'z']]
df['x_future'] = df['x'].shift(-1)
df['y_future'] = df['y'].shift(-1)
df['z_future'] = df['z'].shift(-1)
df = df.dropna()
>>
    A frame is a labelled table: the column labels in order, and the rows,
    each with one cell per label. *)

Record frame (F : Type) : Type := Frame {
  columns : list string;
  rows : list (list F)
}.
Arguments Frame {F} columns rows.
Arguments columns {F} f.
Arguments rows {F} f.

Section DataFrame.
Context {F : Type} `{Missing F}.

(** Position of a label among the column labels. *)
Fixpoint index_of (label : string) (labels : list string) : option nat :=
  match labels with
  | [] => None
  | l :: ls => if String.eqb label l then Some 0
               else option_map S (index_of label ls)
  end.

(** [pd.DataFrame(data, columns=labels)] for a two-dimensional array:
    every row must have one entry per label. *)
Definition DataFrame (data : list (list F)) (labels : list string)
  : result (frame F) :=
  if forallb (fun r => length r =? length labels) data
  then Ok (Frame labels data)
  else Raise ValueError.

(** [df[label]]: one column as a series. *)
Definition get_column (df : frame F) (label : string) : result (list F) :=
  match index_of label (columns df) with
  | Some j => Ok (map (fun r => nth j r fnan) (rows df))
  | None => Raise KeyError
  end.

(** [df[label] = values]: replaces the column when the label exists,
    appends it as the last column otherwise; the lengths must agree. *)
Definition set_column (df : frame F) (label : string) (values : list F)
  : result (frame F) :=
  if length values =? length (rows df) then
    match index_of label (columns df) with
    | Some j =>
        Ok (Frame (columns df)
              (zip_with (fun r v => <[j := v]> r) (rows df) values))
    | None =>
        Ok (Frame (columns df ++ [label])
              (zip_with (fun r v => r ++ [v]) (rows df) values))
    end
  else Raise ValueError.

Fixpoint indices_of (labels all : list string) : result (list nat) :=
  match labels with
  | [] => Ok []
  | l :: ls =>
      match index_of l all with
      | Some j => let* js := indices_of ls all in Ok (j :: js)
      | None => Raise KeyError
      end
  end%result.

(** [df[[l1, ..., lk]]]: the listed columns, in the listed order. *)
Definition select (df : frame F) (labels : list string) : result (frame F) :=
  (let* js := indices_of labels (columns df) in
   Ok (Frame labels (map (fun r => map (fun j => nth j r fnan) js) (rows df))))%result.

(** [series.shift(-1)]: every value moves up one row and the last row
    gets NaN. *)
Definition shift_up (s : list F) : list F :=
  match s with
  | [] => []
  | _ :: s' => s' ++ [fnan]
  end.

(** [df.dropna()]: the rows without any missing cell. *)
Definition dropna (df : frame F) : frame F :=
  Frame (columns df)
    (List.filter (fun r => forallb (fun c => negb (fisnan c)) r) (rows df)).

Definition add_future (df : frame F) (label future : string)
  : result (frame F) :=
  (let* s := get_column df label in
   set_column df future (shift_up s))%result.

(** Cell 26. *)
Definition build_dataset (sol : list (list F)) (t : list F) : result (frame F) :=
  (let* df := DataFrame sol ["x"; "y"; "z"] in
   let* df := set_column df "t" t in
   let* df := select df ["t"; "x"; "y"; "z"] in
   let* df := add_future df "x" "x_future" in
   let* df := add_future df "y" "y_future" in
   let* df := add_future df "z" "z_future" in
   Ok (dropna df))%result%string.

(** Cell 30, first lines: [X = df[['x','y','z']]] and
    [Y = df[['x_future','y_future','z_future']]]. *)
Definition features (df : frame F) : result (frame F) :=
  select df ["x"; "y"; "z"]%string.

Definition targets (df : frame F) : result (frame F) :=
  select df ["x_future"; "y_future"; "z_future"]%string.

End DataFrame.

(** *** Rows of the data frame, for the statements about cell 26 *)

Section DatasetRows.
Context {F : Type} `{Missing F}.

Definition state_row (s : F * F * F) : list F :=
  let '(x, y, z) := s in [x; y; z].

Definition row4 (s : F * F * F) (ti : F) : list F :=
  let '(x, y, z) := s in [ti; x; y; z].

(** Appending the column [g] of the next row, NaN after the last row:
    what [df[future] = df[label].shift(-1)] does to the rows. *)
Definition with_next (g : list F -> F) (R : list (list F)) : list (list F) :=
  zip_with (fun r v => r ++ [v]) R (shift_up (map g R)).

Definition next_or_nan (g : list F -> F) (R : list (list F)) : F :=
  match R with
  | r :: _ => g r
  | [] => fnan
  end.

(** All seven columns, before [dropna]. *)
Fixpoint shifted_rows (traj : list (F * F * F)) (t : list F) : list (list F) :=
  match traj, t with
  | s :: traj', ti :: t' =>
      (row4 s ti ++ match traj' with
                    | s' :: _ => state_row s'
                    | [] => [fnan; fnan; fnan]
                    end) :: shifted_rows traj' t'
  | _, _ => []
  end.

(** The rows that have a successor, each with its successor's state. *)
Fixpoint sample_rows (traj : list (F * F * F)) (t : list F) : list (list F) :=
  match traj, t with
  | s :: traj', ti :: t' =>
      match traj' with
      | s' :: _ => (row4 s ti ++ state_row s') :: sample_rows traj' t'
      | [] => []
      end
  | _, _ => []
  end.

Definition no_nan (r : list F) : Prop := Forall (fun c => fisnan c = false) r.

Definition dataset_labels : list string :=
  ["t"; "x"; "y"; "z"; "x_future"; "y_future"; "z_future"]%string.

End DatasetRows.

(** ** scikit-learn estimators

    The estimators are modelled by what they compute, written over [Num]:
    column means and population variances, polynomial terms, and a
    least-squares solve that is left to a [Solver].  Input validation
    ([check_array]) is reduced to the shape conditions: scikit-learn also
    rejects NaN and infinite entries with a [ValueError], a check that is
    left out here.  The model is that of the estimators on finite data,
    and what is stated about the success or the errors of a call is
    stated over the reals, where the shape is all there is to check. *)

Class Solver (F : Type) : Type := {
  (** [scipy.linalg.lstsq(A, b)], first component. *)
  lstsq : list (list F) -> list F -> list F
}.

Section Estimators.
Context {F : Type} `{Num F} `{Solver F}.
Local Open Scope num_scope.
Local Open Scope result_scope.

(** A two-dimensional array with at least one sample and at least one
    feature; returns the number of features. *)
Definition check_array (X : list (list F)) : result nat :=
  match X with
  | [] => Raise ValueError
  | r :: _ =>
      if (0 <? length r) && forallb (fun r' => length r' =? length r) X
      then Ok (length r)
      else Raise ValueError
  end.

Definition column (j : nat) (X : list (list F)) : list F :=
  map (fun r => nth j r fzero) X.

Definition feature_columns (d : nat) (X : list (list F)) : list (list F) :=
  map (fun j => column j X) (seq 0 d).

(** Sums add from the right.  NumPy adds in another order (in blocks,
    pairwise for long arrays): over the reals the order is immaterial,
    in binary64 the last bits of a sum can differ. *)
Definition fsum (l : list F) : F := fold_right fadd fzero l.
Definition fsquare (x : F) : F := x [*] x.
Definition fmean (l : list F) : F := fsum l [/] fof_nat (length l).
(** Population variance (divisor [n]), as [np.var] and [StandardScaler]. *)
Definition fvar (l : list F) : F :=
  let m := fmean l in fmean (map (fun x => fsquare (x [-] m)) l).
Definition fstd (l : list F) : F := fsqrt (fvar l).
Definition dot (a b : list F) : F := fsum (zip_with fmul a b).

(** *** StandardScaler *)

Record scaler_params : Type := ScalerParams {
  mean_ : list F;
  var_ : list F;
  scale_ : list F;
  n_samples_seen_ : nat
}.

(** [_is_constant_feature]: a variance within the rounding error bound
    of the two-pass algorithm counts as zero. *)
Definition is_constant_feature (var mean : F) (n : nat) : bool :=
  fleb var (fof_nat n [*] feps [*] var
            [+] fsquare (fof_nat n [*] mean [*] feps)).

(** [_handle_zeros_in_scale(np.sqrt(var_), constant_mask)]. *)
Definition scale_of (n : nat) (var mean : F) : F :=
  if is_constant_feature var mean n then fone else fsqrt var.

(** [StandardScaler().fit(X)]; a refit starts from a reset estimator, so
    nothing of an earlier fit enters.  The statistics are those of data
    without NaN (scikit-learn's scaler skips NaN entries when fitting,
    which is not modelled). *)
Definition scaler_fit (X : list (list F)) : result scaler_params :=
  let* d := check_array X in
  let cols := feature_columns d X in
  let means := map fmean cols in
  let vars := map fvar cols in
  Ok {| mean_ := means;
        var_ := vars;
        scale_ := zip_with (scale_of (length X)) vars means;
        n_samples_seen_ := length X |}.

Definition scale_row (p : scaler_params) (r : list F) : list F :=
  zip_with fdiv (zip_with fsub r (mean_ p)) (scale_ p).

Definition unscale_row (p : scaler_params) (r : list F) : list F :=
  zip_with fadd (zip_with fmul r (scale_ p)) (mean_ p).

Definition scaler_transform (s : option scaler_params) (X : list (list F))
  : result (list (list F)) :=
  match s with
  | None => Raise NotFittedError
  | Some p =>
      let* d := check_array X in
      if d =? length (mean_ p) then Ok (map (scale_row p) X)
      else Raise ValueError
  end.

Definition scaler_inverse_transform (s : option scaler_params)
    (X : list (list F)) : result (list (list F)) :=
  match s with
  | None => Raise NotFittedError
  | Some p =>
      let* d := check_array X in
      if d =? length (mean_ p) then Ok (map (unscale_row p) X)
      else Raise ValueError
  end.

(** *** PolynomialFeatures *)

(** [itertools.combinations_with_replacement(items, k)]. *)
Fixpoint combinations_with_replacement (k : nat) (items : list nat)
  : list (list nat) :=
  match k with
  | 0 => [[]]
  | S k' =>
      (fix from (l : list nat) : list (list nat) :=
         match l with
         | [] => []
         | i :: rest =>
             map (cons i) (combinations_with_replacement k' l) ++ from rest
         end) items
  end.

(** Exponent combinations of total degree [0 .. degree], bias first. *)
Definition combinations (n_features degree : nat) : list (list nat) :=
  concat (map (fun k => combinations_with_replacement k (seq 0 n_features))
              (seq 0 (S degree))).

(** The product of the chosen features; the empty product is the bias. *)
Fixpoint monomial (r : list F) (combo : list nat) : F :=
  match combo with
  | [] => fone
  | [i] => nth i r fzero
  | i :: rest => nth i r fzero [*] monomial r rest
  end.

Definition poly_row (degree : nat) (r : list F) : list F :=
  map (monomial r) (combinations (length r) degree).

(** [fit] only records the number of input features. *)
Definition poly_fit (X : list (list F)) : result nat := check_array X.

Definition poly_transform (degree : nat) (n_features_in : option nat)
    (X : list (list F)) : result (list (list F)) :=
  match n_features_in with
  | None => Raise NotFittedError
  | Some n =>
      let* d := check_array X in
      if d =? n then Ok (map (poly_row degree) X) else Raise ValueError
  end.

(** *** LinearRegression (fit_intercept=True) *)

Record linreg_params : Type := LinregParams {
  coef_ : list F;
  intercept_ : F
}.

Definition center_rows (offset : list F) (X : list (list F)) : list (list F) :=
  map (fun r => zip_with fsub r offset) X.

(** [_preprocess_data] centres [X] and [y]; the coefficients solve the
    centred least-squares problem and the intercept restores the means. *)
Definition linreg_fit (X : list (list F)) (y : list F) : result linreg_params :=
  let* d := check_array X in
  if length y =? length X then
    let X_offset := map fmean (feature_columns d X) in
    let y_offset := fmean y in
    let coef := lstsq (center_rows X_offset X) (map (fun v => v [-] y_offset) y) in
    Ok {| coef_ := coef; intercept_ := y_offset [-] dot X_offset coef |}
  else Raise ValueError.

(** The centred least-squares problem that [linreg_fit] hands to the
    solver: the matrix and the right-hand side. *)
Definition centred_problem (X : list (list F)) (y : list F) (d : nat)
  : list (list F) * list F :=
  (center_rows (map fmean (feature_columns d X)) X,
   map (fun v => v [-] fmean y) y).

Definition linreg_predict (m : option linreg_params) (X : list (list F))
  : result (list F) :=
  match m with
  | None => Raise NotFittedError
  | Some p =>
      let* d := check_array X in
      if d =? length (coef_ p)
      then Ok (map (fun r => dot r (coef_ p) [+] intercept_ p) X)
      else Raise ValueError
  end.

(** *** Pipeline (cell 34)

<<
pipeline = Pipeline([
  ('poly_features', PolynomialFeatures(degree=degree)),
  ('scaler', StandardScaler()),
  ('model', LinearRegression())
  ])
>>  *)

Record pipeline_obj : Type := PipelineObj {
  poly_degree : nat;                      (* hyper-parameter *)
  poly_n_features_in : option nat;        (* fitted state of the steps *)
  pipe_scaler : option scaler_params;
  pipe_model : option linreg_params
}.

Definition Pipeline (degree : nat) : pipeline_obj :=
  {| poly_degree := degree; poly_n_features_in := None;
     pipe_scaler := None; pipe_model := None |}.

(** [pipeline.fit(X, y)]: each transformer is fitted on the output of
    the previous one and the regression on the last output. *)
Definition pipeline_fit (p : pipeline_obj) (X : list (list F)) (y : list F)
  : result pipeline_obj :=
  let* n_in := poly_fit X in
  let* XP := poly_transform (poly_degree p) (Some n_in) X in
  let* sc := scaler_fit XP in
  let* XS := scaler_transform (Some sc) XP in
  let* m := linreg_fit XS y in
  Ok {| poly_degree := poly_degree p; poly_n_features_in := Some n_in;
        pipe_scaler := Some sc; pipe_model := Some m |}.

Definition pipeline_predict (p : pipeline_obj) (X : list (list F))
  : result (list F) :=
  let* XP := poly_transform (poly_degree p) (poly_n_features_in p) X in
  let* XS := scaler_transform (pipe_scaler p) XP in
  linreg_predict (pipe_model p) XS.

(** *** Metrics (cells 34 to 36)

    [mean_squared_error(y_true, y_pred)] averages [(y_true - y_pred)**2]
    and the notebook takes [np.sqrt] of it.  Of its validation only the
    length checks are modelled (not the rejection of NaN and infinite
    entries). *)
Definition mean_squared_error (y_true y_pred : list F) : result F :=
  if (length y_true =? length y_pred) && (0 <? length y_true)
  then Ok (fmean (zip_with (fun a p => fsquare (a [-] p)) y_true y_pred))
  else Raise ValueError.

Definition rmse (y_true y_pred : list F) : result F :=
  let* mse := mean_squared_error y_true y_pred in Ok (fsqrt mse).

(** A law of the arithmetic behind the report: squaring forgets the
    order of a subtraction, so [(y_true - y_pred)**2] and
    [(y_pred - y_true)**2] are the same number.  It holds for the reals
    and, rounding included, for binary64. *)
Class SquareSym : Prop :=
  fsquare_sub_sym : forall a b : F, fsquare (a [-] b) = fsquare (b [-] a).

End Estimators.

Arguments SquareSym F {_}.

Arguments scaler_params F : clear implicits.
Arguments linreg_params F : clear implicits.
Arguments pipeline_obj F : clear implicits.

(** *** The exact least-squares solver

    [scipy.linalg.lstsq] returns a minimiser of the sum of squared
    residuals; when there are several (rank-deficient [A]) it returns the
    one of minimum norm, without raising.  Over the reals this solution is
    picked by Hilbert's epsilon. *)

Section ExactSolver.
Local Open Scope R_scope.

Definition n_cols (A : list (list R)) : nat :=
  match A with
  | [] => 0%nat
  | r :: _ => length r
  end.

(** Sum of squared residuals of [A w] against [b]. *)
Definition ssr (A : list (list R)) (b w : list R) : R :=
  fsum (zip_with (fun r bi => fsquare (dot r w - bi)) A b).

Definition is_least_squares (A : list (list R)) (b w : list R) : Prop :=
  length w = n_cols A
  /\ forall v, length v = n_cols A -> ssr A b w <= ssr A b v.

Definition is_min_norm_least_squares (A : list (list R)) (b w : list R) : Prop :=
  is_least_squares A b w
  /\ forall v, is_least_squares A b v -> dot w w <= dot v v.

Definition lstsqR (A : list (list R)) (b : list R) : list R :=
  epsilon (inhabits []) (is_min_norm_least_squares A b).

Definition zeros (d : nat) : list R := repeat 0 d.

(** Vectors and the matrix-vector product [A w], for a matrix given by
    its rows. *)
Definition vadd (a b : list R) : list R := zip_with Rplus a b.
Definition vsub (a b : list R) : list R := zip_with Rminus a b.
Definition vscale (t : R) (a : list R) : list R := map (Rmult t) a.
Definition mulv (A : list (list R)) (w : list R) : list R :=
  map (fun r => dot r w) A.
Definition first_column (A : list (list R)) : list R := map (hd 0) A.
Definition other_columns (A : list (list R)) : list (list R) := map (@tl R) A.

(** The columns of [A] are linearly dependent. *)
Definition rank_deficient (A : list (list R)) : Prop :=
  exists v, length v = n_cols A
            /\ Exists (fun c => c <> 0) v
            /\ Forall (fun r => dot r v = 0) A.

End ExactSolver.

#[export] Instance exact_solver : Solver R := { lstsq := lstsqR }.

(** *** Example data *)

(** A training matrix whose second feature is constant. *)
Definition X_const : list (list R) := [[1; 2; 5]; [3; 2; 7]]%R.

(** Two samples of the trajectory that starts, and so stays, at the
    origin. *)
Definition X_origin : list (list R) := [[0; 0; 0]; [0; 0; 0]]%R.

(** A training set of one sample: ten polynomial terms, one equation. *)
Definition X_single : list (list R) := [[1; 2; 3]]%R.
Definition y_single : list R := [5]%R.

(** ** The notebook as a program

    The estimators are Python objects that [fit] mutates, and [predict]
    returns a new array.  Objects live in a heap; the only other ambient
    state is NumPy's global random generator.  Execution stops at the
    first exception. *)

Class Rng : Type := {
  rng_state : Type;
  (** [np.random.RandomState(seed)]. *)
  RandomState : Z -> rng_state;
  (** [rng.permutation(n)]: the shuffled indices and the advanced state. *)
  permutation : rng_state -> nat -> list nat * rng_state
}.

Definition loc : Type := nat.

Section Notebook.
Context {F : Type} `{Num F} `{Missing F} `{Solver F} `{Integrator F} `{Rng}.

Inductive obj : Type :=
  | OArray (a : list F)
  | OScaler (s : option (scaler_params F))
  | OPipeline (p : pipeline_obj F).

Record world : Type := World {
  global_rng : rng_state;
  heap : gmap loc obj
}.

Definition M (A : Type) : Type := world -> result (A * world).

Definition ret {A : Type} (a : A) : M A := fun w => Ok (a, w).

Definition bindM {A B : Type} (m : M A) (k : A -> M B) : M B :=
  fun w => match m w with
           | Ok (a, w') => k a w'
           | Raise e => Raise e
           end.

Definition lift {A : Type} (r : result A) : M A :=
  fun w => match r with Ok a => Ok (a, w) | Raise e => Raise e end.

Definition raise {A : Type} (e : error) : M A := fun _ => Raise e.

Definition alloc (o : obj) : M loc :=
  fun w => let l := fresh (dom (heap w)) in
           Ok (l, World (global_rng w) (<[l := o]> (heap w))).

Definition load (l : loc) : M obj :=
  fun w => match heap w !! l with
           | Some o => Ok (o, w)
           | None => Raise TypeError
           end.

Definition store (l : loc) (o : obj) : M unit :=
  fun w => Ok (tt, World (global_rng w) (<[l := o]> (heap w))).

Definition load_array (l : loc) : M (list F) :=
  bindM (load l) (fun o =>
    match o with OArray a => ret a | _ => raise TypeError end).

End Notebook.

Arguments obj F : clear implicits.
Arguments world F {_}.
Arguments M F {_} A.

Declare Scope notebook_scope.
Delimit Scope notebook_scope with nb.
Notation "'let*' x ':=' m 'in' k" := (bindM m (fun x => k))
  (at level 10, x pattern, m at level 100, k at level 200) : notebook_scope.

Section Cells.
Context {F : Type} `{Num F} `{Missing F} `{Solver F} `{Integrator F} `{Rng}.
Local Open Scope notebook_scope.

(** *** Cell 30: split *)

(** [ceil(test_size * n)] for [test_size = p / q].  The notebook's
    [0.2] is the fraction 1/5. *)
Definition n_test_of (n : nat) (test_size : nat * nat) : nat :=
  let '(p, q) := test_size in (n * p + q - 1) / q.

(** [check_random_state] followed by [rng.permutation(n)]: an integer
    seed makes a private generator, [None] uses and advances the global
    one. *)
Definition draw_permutation (random_state : option Z) (n : nat)
  : M F (list nat) :=
  fun w =>
    match random_state with
    | Some seed => Ok (fst (permutation (RandomState seed) n), w)
    | None =>
        let '(perm, g) := permutation (global_rng w) n in
        Ok (perm, World g (heap w))
    end.

(** [_safe_indexing(a, idx)]. *)
Fixpoint safe_indexing {A : Type} (a : list A) (idx : list nat)
  : result (list A) :=
  match idx with
  | [] => Ok []
  | i :: idx' =>
      match a !! i with
      | Some x => (let* xs := safe_indexing a idx' in Ok (x :: xs))%result
      | None => Raise IndexError
      end
  end.

(** [train_test_split(X, Y, test_size=p/q, random_state=...)] with the
    default [shuffle=True]: the first [n_test] shuffled indices are the
    test rows, the next [n_train] the training rows. *)
Definition train_test_split {A B : Type} (X : list A) (Y : list B)
    (test_size : nat * nat) (random_state : option Z)
  : M F (list A * list A * list B * list B) :=
  let n := length X in
  let n_test := n_test_of n test_size in
  let n_train := n - n_test in
  if negb (length Y =? n) then raise ValueError
  else if negb ((0 <? fst test_size) && (fst test_size <? snd test_size))
  then raise ValueError
  else if n_train =? 0 then raise ValueError
  else
    let* perm := draw_permutation random_state n in
    let ind_test := take n_test perm in
    let ind_train := take n_train (drop n_test perm) in
    let* X_train := lift (safe_indexing X ind_train) in
    let* X_test := lift (safe_indexing X ind_test) in
    let* Y_train := lift (safe_indexing Y ind_train) in
    let* Y_test := lift (safe_indexing Y ind_test) in
    ret (X_train, X_test, Y_train, Y_test).

(** *** Cell 30: scaling

<<
scaler = StandardScaler()
X_train = scaler.fit_transform(X_train)
X_test = scaler.transform(X_test)
>>  *)

Definition StandardScaler : M F loc := alloc (OScaler None).

(** [scaler.fit_transform(X)] is [scaler.fit(X).transform(X)]. *)
Definition fit_transform_at (scaler : loc) (X : list (list F))
  : M F (list (list F)) :=
  let* o := load scaler in
  match o with
  | OScaler _ =>
      let* p := lift (scaler_fit X) in
      let* _ := store scaler (OScaler (Some p)) in
      lift (scaler_transform (Some p) X)
  | _ => raise TypeError
  end.

Definition transform_at (scaler : loc) (X : list (list F))
  : M F (list (list F)) :=
  let* o := load scaler in
  match o with
  | OScaler s => lift (scaler_transform s X)
  | _ => raise TypeError
  end.

Definition scale_cell (X_train X_test : list (list F))
  : M F (loc * list (list F) * list (list F)) :=
  let* scaler := StandardScaler in
  let* X_train := fit_transform_at scaler X_train in
  let* X_test := transform_at scaler X_test in
  ret (scaler, X_train, X_test).

(** *** Cells 34 to 36: fit, predict, report *)

Definition new_pipeline (degree : nat) : M F loc :=
  alloc (OPipeline (Pipeline degree)).

Definition pipeline_fit_at (pipeline : loc) (X : list (list F)) (y : list F)
  : M F unit :=
  let* o := load pipeline in
  match o with
  | OPipeline p =>
      let* p' := lift (pipeline_fit p X y) in store pipeline (OPipeline p')
  | _ => raise TypeError
  end.

(** The predictions are a new array. *)
Definition pipeline_predict_at (pipeline : loc) (X : list (list F))
  : M F loc :=
  let* o := load pipeline in
  match o with
  | OPipeline p =>
      let* y_hat := lift (pipeline_predict p X) in alloc (OArray y_hat)
  | _ => raise TypeError
  end.

(** [np.sqrt(mean_squared_error(y_true, y_hat))]. *)
Definition rmse_at (y_true : list F) (y_hat : loc) : M F F :=
  let* a := load_array y_hat in lift (rmse y_true a).

(** One of the cells 34, 35, 36, for the target column [target]:
<<
pipeline.fit(X_train, Y_train[target])
y_hat = pipeline.predict(X_test)
rmse = np.sqrt(mean_squared_error(Y_test[target], y_hat))
>>  *)
Definition regression_cell (pipeline : loc)
    (X_train X_test Y_train Y_test : frame F) (target : string)
  : M F (loc * F) :=
  let* y_train := lift (get_column Y_train target) in
  let* _ := pipeline_fit_at pipeline (rows X_train) y_train in
  let* y_hat := pipeline_predict_at pipeline (rows X_test) in
  let* y_test := lift (get_column Y_test target) in
  let* e := rmse_at y_test y_hat in
  ret (y_hat, e).

(** What the later cells see: the three prediction arrays as they are
    at the end, and the three errors. *)
Record regression_report : Type := RegressionReport {
  y_hat_for_x : list F;
  y_hat_for_y : list F;
  y_hat_for_z : list F;
  rmse_for_x : F;
  rmse_for_y : F;
  rmse_for_z : F
}.

Definition read_report (yx yy yz : loc) (ex ey ez : F) : M F regression_report :=
  let* ax := load_array yx in
  let* ay := load_array yy in
  let* az := load_array yz in
  ret (RegressionReport ax ay az ex ey ez).

(** Cells 34 to 36 as written: one pipeline object, refitted. *)
Definition regression_cells_on (pipeline : loc)
    (X_train X_test Y_train Y_test : frame F) : M F regression_report :=
  let* (yx, ex) := regression_cell pipeline X_train X_test Y_train Y_test "x_future"%string in
  let* (yy, ey) := regression_cell pipeline X_train X_test Y_train Y_test "y_future"%string in
  let* (yz, ez) := regression_cell pipeline X_train X_test Y_train Y_test "z_future"%string in
  read_report yx yy yz ex ey ez.

Definition regression_cells (degree : nat)
    (X_train X_test Y_train Y_test : frame F) : M F regression_report :=
  let* pipeline := new_pipeline degree in
  regression_cells_on pipeline X_train X_test Y_train Y_test.

(** The same cells with one pipeline object per target. *)
Definition regression_cells_independent (degree : nat)
    (X_train X_test Y_train Y_test : frame F) : M F regression_report :=
  let* px := new_pipeline degree in
  let* (yx, ex) := regression_cell px X_train X_test Y_train Y_test "x_future"%string in
  let* py := new_pipeline degree in
  let* (yy, ey) := regression_cell py X_train X_test Y_train Y_test "y_future"%string in
  let* pz := new_pipeline degree in
  let* (yz, ez) := regression_cell pz X_train X_test Y_train Y_test "z_future"%string in
  read_report yx yy yz ex ey ez.

(** *** Cells 34 to 36 without objects

    What one target's cell computes when its pipeline is constructed
    for it and fitted once. *)

Definition fit_predict (degree : nat) (X_train : list (list F))
    (y_train : list F) (X_test : list (list F)) : result (list F) :=
  (let* p := pipeline_fit (Pipeline degree) X_train y_train in
   pipeline_predict p X_test)%result.

(** The pipeline object after it was fitted for [target]. *)
Definition fitted_for (degree : nat) (X_train Y_train : frame F)
    (target : string) : result (pipeline_obj F) :=
  (let* y_train := get_column Y_train target in
   pipeline_fit (Pipeline degree) (rows X_train) y_train)%result.

Definition target_report (degree : nat)
    (X_train X_test Y_train Y_test : frame F) (target : string)
  : result (list F * F) :=
  (let* y_train := get_column Y_train target in
   let* y_hat := fit_predict degree (rows X_train) y_train (rows X_test) in
   let* y_test := get_column Y_test target in
   let* e := rmse y_test y_hat in
   Ok (y_hat, e))%result.

Definition regression_spec (degree : nat)
    (X_train X_test Y_train Y_test : frame F) : result regression_report :=
  (let* (ax, ex) := target_report degree X_train X_test Y_train Y_test "x_future"%string in
   let* (ay, ey) := target_report degree X_train X_test Y_train Y_test "y_future"%string in
   let* (az, ez) := target_report degree X_train X_test Y_train Y_test "z_future"%string in
   Ok (RegressionReport ax ay az ex ey ez))%result.

(** The world after a regression cell that fitted [p'] and predicted
    [y_hat], and the location of the new prediction array. *)
Definition cell_loc (w : world F) (pipeline : loc) (p' : pipeline_obj F) : loc :=
  fresh (dom (<[pipeline := OPipeline p']> (heap w))).

Definition cell_world (w : world F) (pipeline : loc) (p' : pipeline_obj F)
    (y_hat : list F) : world F :=
  World (global_rng w)
    (<[cell_loc w pipeline p' := OArray y_hat]>
       (<[pipeline := OPipeline p']> (heap w))).

(** *** The whole run *)

Record notebook_report : Type := NotebookReport {
  trajectory : list (list F);
  train_features : frame F;       (* X_train, scaled *)
  test_features : frame F;        (* X_test, scaled *)
  train_targets : frame F;        (* Y_train *)
  test_targets : frame F;         (* Y_test *)
  fitted_scaler : obj F;
  fitted_pipeline : obj F;
  regression : regression_report
}.

Definition feature_labels : list string := ["x"; "y"; "z"]%string.
Definition target_labels : list string :=
  ["x_future"; "y_future"; "z_future"]%string.

Definition notebook : M F notebook_report :=
  (* cells 5, 6 *)
  let* sol := lift solve in
  (* cell 26 *)
  let* df := lift (build_dataset sol t_grid) in
  (* cell 30 *)
  let* X := lift (features df) in
  let* Y := lift (targets df) in
  let* (X_train, X_test, Y_train, Y_test) :=
    train_test_split (rows X) (rows Y) (1, 5) (Some 42%Z) in
  let* (scaler, X_train, X_test) := scale_cell X_train X_test in
  (* cell 32 *)
  let* X_train := lift (DataFrame X_train feature_labels) in
  let* X_test := lift (DataFrame X_test feature_labels) in
  let* Y_train := lift (select (Frame (columns Y) Y_train) target_labels) in
  let* Y_test := lift (select (Frame (columns Y) Y_test) target_labels) in
  (* cells 34 to 36 *)
  let* pipeline := new_pipeline 2 in
  let* rep := regression_cells_on pipeline X_train X_test Y_train Y_test in
  let* sc := load scaler in
  let* pl := load pipeline in
  ret (NotebookReport sol X_train X_test Y_train Y_test sc pl rep).

(** *** The whole run without objects and without the global generator *)

Definition split_spec {A B : Type} (X : list A) (Y : list B)
    (test_size : nat * nat) (seed : Z)
  : result (list A * list A * list B * list B) :=
  let n := length X in
  let n_test := n_test_of n test_size in
  let n_train := n - n_test in
  if negb (length Y =? n) then Raise ValueError
  else if negb ((0 <? fst test_size) && (fst test_size <? snd test_size))
  then Raise ValueError
  else if n_train =? 0 then Raise ValueError
  else
    let perm := fst (permutation (RandomState seed) n) in
    let ind_test := take n_test perm in
    let ind_train := take n_train (drop n_test perm) in
    (let* X_train := safe_indexing X ind_train in
     let* X_test := safe_indexing X ind_test in
     let* Y_train := safe_indexing Y ind_train in
     let* Y_test := safe_indexing Y ind_test in
     Ok (X_train, X_test, Y_train, Y_test))%result.

Definition notebook_spec : result notebook_report :=
  (let* sol := solve in
   let* df := build_dataset sol t_grid in
   let* X := features df in
   let* Y := targets df in
   let* (X_train, X_test, Y_train, Y_test) :=
     split_spec (rows X) (rows Y) (1, 5) 42%Z in
   let* sc := scaler_fit X_train in
   let* X_train := scaler_transform (Some sc) X_train in
   let* X_test := scaler_transform (Some sc) X_test in
   let* X_train := DataFrame X_train feature_labels in
   let* X_test := DataFrame X_test feature_labels in
   let* Y_train := select (Frame (columns Y) Y_train) target_labels in
   let* Y_test := select (Frame (columns Y) Y_test) target_labels in
   let* rep := regression_spec 2 X_train X_test Y_train Y_test in
   let* pl := fitted_for 2 X_train Y_train "z_future"%string in
   Ok (NotebookReport sol X_train X_test Y_train Y_test
         (OScaler (Some sc)) (OPipeline pl) rep))%result.

End Cells.

(** The value of a run, without the final world. *)
Definition value {A W : Type} (r : result (A * W)) : result A :=
  match r with
  | Ok (a, _) => Ok a
  | Raise e => Raise e
  end.

(** ** Instances and data for examples *)

(** A small generator for examples: the state is a counter and a
    permutation is a rotation by it. *)
#[export] Instance example_rng : Rng := {
  rng_state := nat;
  RandomState := Z.to_nat;
  permutation := fun s n => (rotate s (seq 0 n), S s)
}.

(** A solver for examples: the zero vector, which is the minimum-norm
    least-squares solution whenever the right-hand side is zero. *)
#[export] Instance example_solver : Solver B64.t := {
  lstsq := fun A b => map (fun _ => B64.pzero) (hd [] A)
}.

Module Demo.

Definition f (n : Z) : B64.t := B64.of_Z n.

(** Three states and their time stamps. *)
Definition sol : list (list B64.t) :=
  [[f 1; f 2; f 3]; [f 4; f 5; f 6]; [f 7; f 8; f 9]].
Definition t : list B64.t := [f 0; f 1; f 2].

(** The empty world. *)
Definition w0 : world B64.t := World (0 : rng_state) ∅.

(** One feature: a training partition and two evaluation partitions. *)
Definition X_train : list (list B64.t) := [[f 1]; [f 3]].
Definition X_test1 : list (list B64.t) := [[f 2]].
Definition X_test2 : list (list B64.t) := [[f 5]].
Definition fitted : scaler_params B64.t :=
  {| mean_ := [f 2]; var_ := [f 1]; scale_ := [f 1]; n_samples_seen_ := 2 |}.
Definition w1 : world B64.t :=
  World (0 : rng_state) (<[0 := OScaler (Some fitted)]> ∅).

(** A world with one prediction array. *)
Definition w_pred : world B64.t :=
  World (0 : rng_state) (<[0 := OArray [f 1; f 2]]> ∅).

(** Frames for the regression cells: two training rows, one test row,
    constant targets. *)
Definition F_train : frame B64.t := Frame feature_labels [[f 1; f 2; f 3]; [f 2; f 1; f 0]].
Definition F_test : frame B64.t := Frame feature_labels [[f 0; f 1; f 1]].
Definition T_train : frame B64.t := Frame target_labels [[f 1; f 2; f 3]; [f 1; f 2; f 3]].
Definition T_test : frame B64.t := Frame target_labels [[f 1; f 2; f 4]].

(** A world with a new pipeline at 0 and an array at 1. *)
Definition w_pipe : world B64.t :=
  World (0 : rng_state)
    (<[1 := OArray [f 7]]> (<[0 := OPipeline (Pipeline 2)]> ∅)).

End Demo.

(** ** Well-formed frames *)

(** Every row of a frame has one cell per column label.  The frame
    constructors and operations keep it so. *)
Definition well_formed {F : Type} (df : frame F) : Prop :=
  Forall (fun r => length r = length (columns df)) (rows df).

(** ** Plots and animations (cells 8, 18, 37 and 38) *)

Section Reductions.
Context {F : Type} `{Num F}.

(** Comparisons with NaN are false, so [a != a] holds of NaN only and
    [a < b] is [a <= b] without [b <= a]. *)
Definition fisnan_self (a : F) : bool := negb (fleb a a).
Definition fltb (a b : F) : bool := fleb a b && negb (fleb b a).

(** [np.minimum] and [np.maximum]: the first argument when it is NaN or
    strictly the smaller (larger) one, the second otherwise, so that a
    NaN on either side is the result. *)
Definition minimum (a b : F) : F :=
  if fisnan_self a then a else if fltb a b then a else b.

Definition maximum (a b : F) : F :=
  if fisnan_self a then a else if fltb b a then a else b.

(** [np.isfinite(a)]: neither NaN nor an infinity.  [a - a] is NaN for
    exactly these. *)
Definition fisfinite (a : F) : bool := negb (fisnan_self (fsub a a)).

(** [np.min(a)] and [np.max(a)]: a reduction of the array; an empty array
    has no minimum. *)
Definition np_min (a : list F) : result F :=
  match a with
  | [] => Raise ValueError
  | x :: a' => Ok (fold_left minimum a' x)
  end.

Definition np_max (a : list F) : result F :=
  match a with
  | [] => Raise ValueError
  | x :: a' => Ok (fold_left maximum a' x)
  end.

(** [ax.set_xlim(lo, hi)] and [ax.set_ylim(lo, hi)] raise [ValueError]
    for a limit that is NaN or infinite; otherwise the limits are the
    ones passed. *)
Definition set_lim (lo hi : F) : result (F * F) :=
  if fisfinite lo && fisfinite hi then Ok (lo, hi) else Raise ValueError.

End Reductions.

(** A line of a plot: the data it draws.  [line.set_data(x, y)]
    replaces both coordinates. *)
Record line2d (F : Type) : Type := Line2D {
  xdata : list F;
  ydata : list F
}.
Arguments Line2D {F} xdata ydata.
Arguments xdata {F} l.
Arguments ydata {F} l.

Definition set_data {F : Type} (line : line2d F) (x y : list F) : line2d F :=
  {| xdata := x; ydata := y |}.

(** [a[-k:]]: the last [k] entries, all of them when there are fewer
    ([-0] is [0], so [a[-0:]] is the whole array). *)
Definition last_entries {A : Type} (k : nat) (a : list A) : list A :=
  match k with
  | 0 => a
  | _ => drop (length a - k) a
  end.

(** [FuncAnimation(fig, update, frames=n, init_func=init)]: the artists
    after [init()] and then after [update(frame)] for every [frame] of
    [range(n)], in the order in which they are drawn. *)
Fixpoint play {S : Type} (update : nat -> S -> S) (frames : list nat) (s : S)
  : list S :=
  match frames with
  | [] => []
  | frame :: frames' =>
      let s' := update frame s in s' :: play update frames' s'
  end.

Definition FuncAnimation {S : Type} (update : nat -> S -> S) (frames : nat)
    (init_func : S -> S) (s : S) : list S :=
  let s0 := init_func s in s0 :: play update (seq 0 frames) s0.

(** *** Cell 18: the trajectory in the zx plane

<<
ax.set_xlim(np.min(x), np.max(x))
ax.set_ylim(np.min(z), np.max(z))
line, = ax.plot([], [], lw=2)
def init():
    line.set_data([], [])
    return line,
def update(frame):
    line.set_data(x[:frame], z[:frame])
    return line,
ani = FuncAnimation(fig, update, frames=len(t), init_func=init, blit=True, interval=20)
>>  *)

Module Cell18.
Section Animation.
Context {F : Type} `{Num F}.
(** The globals of the cell: [x] and [z] of cell 8, and the time grid. *)
Variables (x z t : list F).

Definition xlim : result (F * F) :=
  (let* lo := np_min x in let* hi := np_max x in set_lim lo hi)%result.

Definition ylim : result (F * F) :=
  (let* lo := np_min z in let* hi := np_max z in set_lim lo hi)%result.

Definition init (line : line2d F) : line2d F := set_data line [] [].

Definition update (frame : nat) (line : line2d F) : line2d F :=
  set_data line (take frame x) (take frame z).

Definition ani (line : line2d F) : list (line2d F) :=
  FuncAnimation update (length t) init line.

End Animation.
End Cell18.

(** *** Cells 37 and 38: the last 600 states against the predictions

<<
x_sliced = x[-600:]
z_sliced = z[-600:]
...
def init():
    line1.set_data([], [])
    line2.set_data([], [])
    return line1, line2
def update(frame):
    line1.set_data(x_sliced[:frame], z_sliced[:frame])
    line2.set_data(y_hat_for_x[:frame], y_hat_for_z[:frame])
    return line1, line2
ani = FuncAnimation(fig, update, frames=len(t), init_func=init, blit=True, interval=20)
>>  *)

Module Cell38.
Section Animation.
Context {F : Type}.
(** The globals of the cell: [x] and [z] of cell 8, the time grid, and
    the predictions of cells 34 and 36. *)
Variables (x z t y_hat_for_x y_hat_for_z : list F).

Definition x_sliced : list F := last_entries 600 x.
Definition z_sliced : list F := last_entries 600 z.

Definition init (lines : line2d F * line2d F) : line2d F * line2d F :=
  let '(line1, line2) := lines in
  (set_data line1 [] [], set_data line2 [] []).

Definition update (frame : nat) (lines : line2d F * line2d F)
  : line2d F * line2d F :=
  let '(line1, line2) := lines in
  (set_data line1 (take frame x_sliced) (take frame z_sliced),
   set_data line2 (take frame y_hat_for_x) (take frame y_hat_for_z)).

Definition ani (lines : line2d F * line2d F) : list (line2d F * line2d F) :=
  FuncAnimation update (length t) init lines.

End Animation.
End Cell38.

(** ** Data over the reals for examples *)

(** A world with one prediction array. *)
Definition w_pred_real : world R :=
  World (0 : rng_state) (<[0 := OArray [1; 2]%R]> ∅).
(** * Theorems *)

Module VectorFieldFacts.

Lemma sub_zero_zero (s1 s2 : bool) :
  exists s, B64.sub (S754_zero s1) (S754_zero s2) = S754_zero s.
Proof. destruct s1, s2; eexists; reflexivity. Qed.

Lemma mul_finite_zero (a : B64.t) (s : bool) :
  B64.is_finite a = true ->
  exists s', B64.mul a (S754_zero s) = S754_zero s'.
Proof. destruct a; intros Hf; try discriminate; eexists; reflexivity. Qed.

Lemma mul_zero_finite (a : B64.t) (s : bool) :
  B64.is_finite a = true ->
  exists s', B64.mul (S754_zero s) a = S754_zero s'.
Proof. destruct a; intros Hf; try discriminate; eexists; reflexivity. Qed.

Lemma sub_finite_zero (a : B64.t) (s : bool) :
  B64.is_finite a = true ->
  B64.is_finite (B64.sub a (S754_zero s)) = true.
Proof.
  destruct a as [sa| | |sa m e]; intros Hf; try discriminate.
  - destruct sa, s; reflexivity.
  - reflexivity.
Qed.

Lemma zero_eqb (s : bool) : B64.eqb (S754_zero s) B64.pzero = true.
Proof. reflexivity. Qed.

End VectorFieldFacts.

(** C1. On a state [x, y, z] the vector field never raises and returns
    the list [sigma*(y-x), x*(rho-z)-y, x*y-beta*z], computed in binary64;
    at the origin (zeros of either sign) and for finite parameters the
    three components are zeros, that is, they compare equal to [0.0]. *)
Theorem lorenz_vector_field :
  forall (x y z t sigma rho beta : B64.t),
    B64.is_finite sigma = true -> B64.is_finite rho = true ->
    B64.is_finite beta = true ->
    lorenz [x; y; z] t sigma rho beta
      = Ok [B64.mul sigma (B64.sub y x);
            B64.sub (B64.mul x (B64.sub rho z)) y;
            B64.sub (B64.mul x y) (B64.mul beta z)]
    /\ (B64.is_zero x = true -> B64.is_zero y = true -> B64.is_zero z = true ->
        exists dx dy dz,
          lorenz [x; y; z] t sigma rho beta = Ok [dx; dy; dz]
          /\ B64.eqb dx B64.pzero = true
          /\ B64.eqb dy B64.pzero = true
          /\ B64.eqb dz B64.pzero = true).
Proof.
  intros x y z t sigma rho beta Hs Hr Hb. split; [reflexivity|].
  intros Hx Hy Hz.
  destruct x as [sx| | |]; try discriminate.
  destruct y as [sy| | |]; try discriminate.
  destruct z as [sz| | |]; try discriminate.
  do 3 eexists. split; [reflexivity|].
  destruct (VectorFieldFacts.sub_zero_zero sy sx) as [s1 E1].
  destruct (VectorFieldFacts.mul_finite_zero sigma s1 Hs) as [s2 E2].
  pose proof (VectorFieldFacts.sub_finite_zero rho sz Hr) as Hrz.
  destruct (VectorFieldFacts.mul_zero_finite (B64.sub rho (S754_zero sz)) sx Hrz)
    as [s3 E3].
  destruct (VectorFieldFacts.sub_zero_zero s3 sy) as [s4 E4].
  destruct (VectorFieldFacts.mul_finite_zero beta sz Hb) as [s5 E5].
  destruct (VectorFieldFacts.sub_zero_zero (xorb sx sy) s5) as [s6 E6].
  cbn [fmul fsub binary64].
  rewrite E1, E2, E3, E4, E5.
  change (B64.mul (S754_zero sx) (S754_zero sy)) with (S754_zero (xorb sx sy)).
  rewrite E6.
  repeat split; apply VectorFieldFacts.zero_eqb.
Qed.

Lemma lorenz_vector_field_witness :
  lorenz [B64.pzero; B64.pzero; B64.pzero] B64.pzero sigma rho beta
    = Ok [B64.mul sigma (B64.sub B64.pzero B64.pzero);
          B64.sub (B64.mul B64.pzero (B64.sub rho B64.pzero)) B64.pzero;
          B64.sub (B64.mul B64.pzero B64.pzero) (B64.mul beta B64.pzero)]
  /\ (B64.is_zero B64.pzero = true -> B64.is_zero B64.pzero = true ->
      B64.is_zero B64.pzero = true ->
      exists dx dy dz,
        lorenz [B64.pzero; B64.pzero; B64.pzero] B64.pzero sigma rho beta
          = Ok [dx; dy; dz]
        /\ B64.eqb dx B64.pzero = true
        /\ B64.eqb dy B64.pzero = true
        /\ B64.eqb dz B64.pzero = true).
Proof.
  apply (lorenz_vector_field B64.pzero B64.pzero B64.pzero B64.pzero
           sigma rho beta); reflexivity.
Defined.

(** ** Binary64: squares of differences *)

Module B64Facts.

Lemma binary_round_aux_opp (s : bool) (m e : Z) (l : location) :
  binary_round_aux B64.prec B64.emax (negb s) m e l
  = SFopp (binary_round_aux B64.prec B64.emax s m e l).
Proof.
  unfold binary_round_aux.
  destruct (shr_fexp B64.prec B64.emax m e l) as [mrs' e'].
  destruct (shr_fexp B64.prec B64.emax _ e' loc_Exact) as [mrs'' e''].
  destruct (shr_m mrs''); try reflexivity.
  destruct (e'' <=? B64.emax - B64.prec)%Z; reflexivity.
Qed.

Lemma binary_round_opp (s : bool) (m : positive) (e : Z) :
  binary_round B64.prec B64.emax (negb s) m e
  = SFopp (binary_round B64.prec B64.emax s m e).
Proof.
  unfold binary_round.
  destruct (shl_align m e _) as [mz ez]. apply binary_round_aux_opp.
Qed.

Lemma binary_normalize_opp (d e : Z) :
  d <> 0%Z ->
  binary_normalize B64.prec B64.emax (- d) e false
  = SFopp (binary_normalize B64.prec B64.emax d e false).
Proof.
  destruct d as [|p|p]; intros Hd; [contradiction| |].
  - change (- Z.pos p)%Z with (Z.neg p). unfold binary_normalize.
    apply (binary_round_opp false).
  - change (- Z.neg p)%Z with (Z.pos p). unfold binary_normalize.
    change true with (negb false). rewrite binary_round_opp.
    destruct (binary_round B64.prec B64.emax false p e) as [[]|[]| |[] ? ?];
      reflexivity.
Qed.

Lemma mul_opp_opp (x : B64.t) : B64.mul (SFopp x) (SFopp x) = B64.mul x x.
Proof. destruct x as [[]|[]| |[] m e]; reflexivity. Qed.

(** [(a - b)**2] and [(b - a)**2] are the same double. *)
Lemma square_diff_sym (a b : B64.t) :
  B64.mul (B64.sub a b) (B64.sub a b) = B64.mul (B64.sub b a) (B64.sub b a).
Proof.
  destruct a as [sa|sa| |sa ma ea], b as [sb|sb| |sb mb eb];
    try (destruct sa, sb; reflexivity); try (destruct sa; reflexivity);
    try (destruct sb; reflexivity); try reflexivity.
  unfold B64.sub. cbn [SFsub]. rewrite (Z.min_comm eb ea).
  set (x := cond_Zopp sa _). set (y := cond_Zopp sb _).
  destruct (Z.eq_dec (x - y) 0)%Z as [E|NE].
  - replace (y - x)%Z with 0%Z by lia. rewrite E. reflexivity.
  - replace (y - x)%Z with (- (x - y))%Z by lia.
    rewrite binary_normalize_opp by exact NE. symmetry. apply mul_opp_opp.
Qed.

End B64Facts.

#[export] Instance binary64_square_sym : SquareSym B64.t.
Proof. intros a b. apply B64Facts.square_diff_sym. Qed.

#[export] Instance exactR_square_sym : SquareSym R.
Proof. intros a b. unfold fsquare. cbn. ring. Qed.

(** ** The data frame of one-step-ahead samples *)

Section DatasetFacts.
Context {F : Type} `{Missing F}.

Lemma with_next_cons (g : list F -> F) (r : list F) (R : list (list F)) :
  with_next g (r :: R) = (r ++ [next_or_nan g R]) :: with_next g R.
Proof.
  unfold with_next. cbn [map shift_up].
  destruct R as [|r' R]; [reflexivity|].
  cbn [map app zip_with next_or_nan shift_up]. reflexivity.
Qed.

Lemma triples_of_rows (sol : list (list F)) :
  Forall (fun r => length r = 3) sol ->
  exists traj : list (F * F * F), sol = map state_row traj.
Proof.
  induction 1 as [|r sol Hr _ [traj ->]].
  - exists []. reflexivity.
  - destruct r as [|x [|y [|z [|? ?]]]]; try discriminate.
    exists ((x, y, z) :: traj). reflexivity.
Qed.

Lemma forallb_state_rows (traj : list (F * F * F)) :
  forallb (fun r : list F => length r =? 3) (map state_row traj) = true.
Proof. induction traj as [|[[x y] z] traj IH]; [reflexivity|exact IH]. Qed.

(** The frame after [df = df[['t','x','y','z']]]. *)
Lemma frame_txyz (traj : list (F * F * F)) (t : list F) :
  length t = length traj ->
  (let* df := DataFrame (map state_row traj) ["x"; "y"; "z"]%string in
   let* df := set_column df "t" t in
   select df ["t"; "x"; "y"; "z"]%string)%result
  = Ok (Frame ["t"; "x"; "y"; "z"]%string (zip_with row4 traj t)).
Proof.
  intros Hlen. unfold DataFrame.
  change (length ["x"; "y"; "z"]%string) with 3.
  rewrite forallb_state_rows. cbn [bind].
  unfold set_column. cbn [rows columns].
  rewrite length_map, Hlen, Nat.eqb_refl. cbn.
  f_equal. f_equal. clear Hlen.
  revert t. induction traj as [|[[x y] z] traj IH]; intros [|ti t];
    try reflexivity.
  cbn. f_equal. apply IH.
Qed.

Lemma add_future_rows (cs : list string) (R : list (list F))
    (label future : string) (j : nat) :
  index_of label cs = Some j ->
  index_of future cs = None ->
  add_future (Frame cs R) label future
  = Ok (Frame (cs ++ [future]) (with_next (fun r => nth j r fnan) R)).
Proof.
  intros Hj Hnone. unfold add_future, get_column, set_column.
  cbn [columns rows]. rewrite Hj. cbn [bind].
  assert (Hlen : length (shift_up (map (fun r => nth j r fnan) R)) = length R).
  { destruct R as [|r R]; [reflexivity|].
    cbn [map shift_up]. rewrite length_app, length_map. cbn. lia. }
  rewrite Hlen, Nat.eqb_refl, Hnone. reflexivity.
Qed.

Lemma with_next_thrice (traj : list (F * F * F)) (t : list F) :
  length t = length traj ->
  with_next (fun r => nth 3 r fnan)
    (with_next (fun r => nth 2 r fnan)
       (with_next (fun r => nth 1 r fnan) (zip_with row4 traj t)))
  = shifted_rows traj t.
Proof.
  revert t. induction traj as [|[[x y] z] traj IH]; intros [|ti t] Hlen;
    try discriminate; [reflexivity|].
  cbn [zip_with]. rewrite !with_next_cons.
  cbn [shifted_rows]. rewrite <- IH by (cbn in Hlen; lia).
  f_equal.
  destruct traj as [|[[x' y'] z'] traj]; destruct t as [|ti' t];
    try discriminate; [reflexivity|].
  cbn [zip_with]. rewrite !with_next_cons. reflexivity.
Qed.

Lemma build_dataset_shifted (traj : list (F * F * F)) (t : list F) :
  length t = length traj ->
  build_dataset (map state_row traj) t
  = Ok (dropna (Frame dataset_labels (shifted_rows traj t))).
Proof.
  intros Hlen. unfold build_dataset.
  pose proof (frame_txyz traj t Hlen) as E.
  destruct (DataFrame (map state_row traj) ["x"; "y"; "z"]%string) as [df0|e];
    [|discriminate E].
  cbn [bind] in E |- *.
  destruct (set_column df0 "t" t) as [df1|e]; [|discriminate E].
  cbn [bind] in E |- *. rewrite E. cbn [bind].
  rewrite (add_future_rows _ _ "x" "x_future" 1) by reflexivity. cbn [bind app].
  rewrite (add_future_rows _ _ "y" "y_future" 2) by reflexivity. cbn [bind app].
  rewrite (add_future_rows _ _ "z" "z_future" 3) by reflexivity. cbn [bind app].
  rewrite with_next_thrice by exact Hlen. reflexivity.
Qed.

Lemma dropna_shifted (traj : list (F * F * F)) (t : list F) :
  length t = length traj ->
  Forall no_nan (map state_row traj) -> no_nan t ->
  List.filter (fun r => forallb (fun c => negb (fisnan c)) r) (shifted_rows traj t)
  = sample_rows traj t.
Proof.
  revert t. induction traj as [|[[x y] z] traj IH]; intros [|ti t] Hlen Hs Ht;
    try discriminate; [reflexivity|].
  cbn [map] in Hs. apply Forall_cons in Hs as [Hxyz Hs].
  apply Forall_cons in Ht as [Hti Ht].
  apply Forall_cons in Hxyz as [Hx Hyz].
  apply Forall_cons in Hyz as [Hy Hz]. apply Forall_cons in Hz as [Hz _].
  cbn [shifted_rows sample_rows]. cbn [List.filter].
  rewrite <- IH by (try assumption; cbn in Hlen; lia).
  destruct traj as [|[[x' y'] z'] traj].
  - cbn. rewrite Hti, Hx, Hy, Hz, fisnan_nan. reflexivity.
  - cbn [map] in Hs. apply Forall_cons in Hs as [Hxyz' _].
    apply Forall_cons in Hxyz' as [Hx' Hyz'].
    apply Forall_cons in Hyz' as [Hy' Hz']. apply Forall_cons in Hz' as [Hz' _].
    cbn [row4 state_row app forallb].
    rewrite Hti, Hx, Hy, Hz, Hx', Hy', Hz'. reflexivity.
Qed.

Lemma sample_rows_cons (s s' : F * F * F) (traj : list (F * F * F))
    (ti : F) (t : list F) :
  sample_rows (s :: s' :: traj) (ti :: t)
  = (row4 s ti ++ state_row s') :: sample_rows (s' :: traj) t.
Proof. reflexivity. Qed.

Lemma sample_rows_features (traj : list (F * F * F)) (t : list F) :
  length t = length traj ->
  map (fun r => map (fun j => nth j r fnan) [1; 2; 3]) (sample_rows traj t)
  = removelast (map state_row traj).
Proof.
  revert t. induction traj as [|[[x y] z] traj IH]; intros [|ti t] Hlen;
    try discriminate; [reflexivity|].
  destruct traj as [|s' traj]; [reflexivity|].
  rewrite sample_rows_cons, map_cons, IH by (cbn in Hlen |- *; lia).
  destruct s' as [[x' y'] z']. reflexivity.
Qed.

Lemma sample_rows_targets (traj : list (F * F * F)) (t : list F) :
  length t = length traj ->
  map (fun r => map (fun j => nth j r fnan) [4; 5; 6]) (sample_rows traj t)
  = tl (map state_row traj).
Proof.
  revert t. induction traj as [|[[x y] z] traj IH]; intros [|ti t] Hlen;
    try discriminate; [reflexivity|].
  destruct traj as [|s' traj]; [reflexivity|].
  rewrite sample_rows_cons, map_cons, IH by (cbn in Hlen |- *; lia).
  destruct s' as [[x' y'] z']. reflexivity.
Qed.

Lemma features_rows (R : list (list F)) :
  features (Frame dataset_labels R)
  = Ok (Frame feature_labels
          (map (fun r => map (fun j => nth j r fnan) [1; 2; 3]) R)).
Proof. reflexivity. Qed.

Lemma targets_rows (R : list (list F)) :
  targets (Frame dataset_labels R)
  = Ok (Frame target_labels
          (map (fun r => map (fun j => nth j r fnan) [4; 5; 6]) R)).
Proof. reflexivity. Qed.

Lemma lookup_removelast {A : Type} (l : list A) (i : nat) :
  i < length l - 1 -> removelast l !! i = l !! i.
Proof.
  revert i. induction l as [|a l IH]; intros i Hi; [cbn in Hi; lia|].
  destruct l as [|b l]; [cbn in Hi; lia|].
  change (removelast (a :: b :: l)) with (a :: removelast (b :: l)).
  destruct i as [|i]; [reflexivity|].
  cbn [lookup list_lookup]. apply IH. cbn in Hi |- *. lia.
Qed.

Lemma length_removelast {A : Type} (l : list A) :
  length (removelast l) = length l - 1.
Proof.
  induction l as [|a l IH]; [reflexivity|].
  destruct l as [|b l]; [reflexivity|].
  change (removelast (a :: b :: l)) with (a :: removelast (b :: l)).
  cbn [length] in IH |- *. lia.
Qed.

End DatasetFacts.

(** C2. For a trajectory of [n >= 1] states without NaN, sampled on a
    NaN-free grid of the same length, cell 26 builds a frame of [n - 1]
    rows; its features are the trajectory without the last state and its
    targets the trajectory without the first, so that row [i] pairs
    [state[i]] with [state[i+1]] and only the last state is dropped. *)
Theorem dataset_builder_rows :
  forall (F : Type) (MF : Missing F) (sol : list (list F)) (t : list F),
    Forall (fun r => length r = 3) sol ->
    length t = length sol ->
    1 <= length sol ->
    Forall no_nan sol -> no_nan t ->
    exists df X Y,
      build_dataset sol t = Ok df
      /\ features df = Ok X /\ targets df = Ok Y
      /\ length (rows df) = length sol - 1
      /\ rows X = removelast sol /\ rows Y = tl sol
      /\ length (rows X) = length sol - 1 /\ length (rows Y) = length sol - 1
      /\ (forall i, i < length sol - 1 ->
            rows X !! i = sol !! i /\ rows Y !! i = sol !! S i).
Proof.
  intros F MF sol t Hshape Hlen Hn Hsol Ht.
  destruct (triples_of_rows sol Hshape) as [traj ->].
  rewrite length_map in Hlen.
  rewrite build_dataset_shifted by exact Hlen.
  unfold dropna. cbn [rows columns].
  rewrite dropna_shifted by assumption.
  eexists. exists (Frame feature_labels (removelast (map state_row traj))).
  exists (Frame target_labels (tl (map state_row traj))).
  split; [reflexivity|].
  split. { rewrite features_rows, sample_rows_features by exact Hlen. reflexivity. }
  split. { rewrite targets_rows, sample_rows_targets by exact Hlen. reflexivity. }
  cbn [rows].
  split.
  { rewrite <- (length_removelast (map state_row traj)).
    rewrite <- (sample_rows_features traj t Hlen). rewrite length_map. reflexivity. }
  split; [reflexivity|]. split; [reflexivity|].
  split; [apply length_removelast|].
  split. { destruct (map state_row traj); cbn; lia. }
  intros i Hi. split.
  - apply lookup_removelast. exact Hi.
  - destruct (map state_row traj); reflexivity.
Qed.

Lemma dataset_builder_rows_witness :
  exists df X Y,
    build_dataset Demo.sol Demo.t = Ok df
    /\ features df = Ok X /\ targets df = Ok Y
    /\ length (rows df) = length Demo.sol - 1
    /\ rows X = removelast Demo.sol /\ rows Y = tl Demo.sol
    /\ length (rows X) = length Demo.sol - 1
    /\ length (rows Y) = length Demo.sol - 1
    /\ (forall i, i < length Demo.sol - 1 ->
          rows X !! i = Demo.sol !! i /\ rows Y !! i = Demo.sol !! S i).
Proof.
  apply (dataset_builder_rows B64.t binary64_missing Demo.sol Demo.t).
  - repeat constructor.
  - reflexivity.
  - cbn. lia.
  - repeat constructor.
  - repeat constructor.
Defined.

(** ** Matrices and the estimators' shape checks *)

Section MatrixFacts.
Context {F : Type} `{Num F}.

Lemma check_array_ok (X : list (list F)) (d : nat) :
  check_array X = Ok d ->
  X <> [] /\ 0 < d /\ Forall (fun r => length r = d) X.
Proof.
  unfold check_array. destruct X as [|r X]; [discriminate|].
  destruct (0 <? length r) eqn:Hpos; [|discriminate].
  destruct (forallb _ (r :: X)) eqn:Hall; [|discriminate].
  cbn [andb]. intros [= <-]. split; [discriminate|].
  split; [apply Nat.ltb_lt; exact Hpos|].
  apply Forall_forall. intros r' Hin.
  rewrite forallb_forall in Hall. apply Nat.eqb_eq, Hall.
  apply list_elem_of_In. exact Hin.
Qed.

Lemma check_array_intro (X : list (list F)) (d : nat) :
  X <> [] -> 0 < d -> Forall (fun r => length r = d) X ->
  check_array X = Ok d.
Proof.
  intros Hne Hd Hall. unfold check_array.
  destruct X as [|r X]; [contradiction|].
  pose proof (Forall_inv Hall) as Hr. cbn beta in Hr. rewrite Hr.
  replace (0 <? d) with true by (symmetry; apply Nat.ltb_lt; exact Hd).
  replace (forallb (fun r' : list F => length r' =? d) (r :: X)) with true;
    [reflexivity|].
  symmetry. apply forallb_forall. intros r' Hin. apply Nat.eqb_eq.
  rewrite Forall_forall in Hall. apply Hall, list_elem_of_In. exact Hin.
Qed.

Lemma check_array_map (g : list F -> list F) (X : list (list F)) (d d' : nat) :
  check_array X = Ok d -> 0 < d' ->
  (forall r, length r = d -> length (g r) = d') ->
  check_array (map g X) = Ok d'.
Proof.
  intros HX Hd' Hg. apply check_array_ok in HX as (Hne & _ & Hall).
  apply check_array_intro; [|exact Hd'|].
  - destruct X; [contradiction|discriminate].
  - apply Forall_map. eapply Forall_impl; [exact Hall|]. exact Hg.
Qed.

Lemma nth_zip_with (f : F -> F -> F) (a b : list F) (j : nat) (da db dc : F) :
  j < length a -> j < length b ->
  nth j (zip_with f a b) dc = f (nth j a da) (nth j b db).
Proof.
  revert b j. induction a as [|x a IH]; intros [|y b] j Ha Hb;
    try (cbn in Ha, Hb; lia).
  destruct j as [|j]; [reflexivity|].
  cbn [zip_with nth]. apply IH; cbn in Ha, Hb; lia.
Qed.

Lemma nth_map_seq (g : nat -> F) (d j : nat) (dflt : F) :
  j < d -> nth j (map g (seq 0 d)) dflt = g j.
Proof.
  intros Hj. rewrite (nth_indep _ dflt (g 0)) by (rewrite length_map, length_seq; exact Hj).
  rewrite map_nth. f_equal. rewrite seq_nth by exact Hj. reflexivity.
Qed.

Lemma length_feature_stats (g : list F -> F) (d : nat) (X : list (list F)) :
  length (map g (feature_columns d X)) = d.
Proof. unfold feature_columns. rewrite !length_map, length_seq. reflexivity. Qed.

Lemma scaler_fit_ok (X : list (list F)) (p : scaler_params F) :
  scaler_fit X = Ok p ->
  exists d, check_array X = Ok d
    /\ mean_ p = map fmean (feature_columns d X)
    /\ var_ p = map fvar (feature_columns d X)
    /\ scale_ p = zip_with (scale_of (length X)) (var_ p) (mean_ p)
    /\ length (mean_ p) = d /\ length (scale_ p) = d.
Proof.
  unfold scaler_fit. destruct (check_array X) as [d|e]; [|discriminate].
  cbn [bind]. intros [= <-]. exists d. cbn [mean_ var_ scale_].
  repeat split; try reflexivity.
  - apply length_feature_stats.
  - rewrite length_zip_with, !length_feature_stats. lia.
Qed.

Lemma scaler_transform_rows (p : scaler_params F) (X Xs : list (list F)) :
  scaler_transform (Some p) X = Ok Xs -> Xs = map (scale_row p) X.
Proof.
  unfold scaler_transform. destruct (check_array X) as [d|e]; [|discriminate].
  cbn [bind]. destruct (d =? length (mean_ p)); [|discriminate].
  intros [= <-]. reflexivity.
Qed.

Lemma length_scale_row (p : scaler_params F) (r : list F) (d : nat) :
  length (mean_ p) = d -> length (scale_ p) = d -> length r = d ->
  length (scale_row p r) = d.
Proof.
  intros Hm Hs Hr. unfold scale_row. rewrite !length_zip_with. lia.
Qed.

(** A column of the transformed matrix is the transformed column. *)
Lemma column_scaled (X : list (list F)) (p : scaler_params F) (d j : nat) :
  scaler_fit X = Ok p -> check_array X = Ok d -> j < d ->
  column j (map (scale_row p) X)
  = map (fun x => fdiv (fsub x (fmean (column j X)))
                    (scale_of (length X) (fvar (column j X)) (fmean (column j X))))
        (column j X).
Proof.
  intros Hfit Hd Hj.
  destruct (scaler_fit_ok _ _ Hfit) as (d' & Hd' & Hmean & Hvar & Hscale & Hlm & Hls).
  rewrite Hd in Hd'. injection Hd' as <-.
  apply check_array_ok in Hd as (_ & _ & Hall).
  set (mu := fmean (column j X)).
  set (s := scale_of (length X) (fvar (column j X)) mu).
  assert (Hnth : forall r, In r X ->
            nth j (scale_row p r) fzero = fdiv (fsub (nth j r fzero) mu) s).
  { intros r Hin. rewrite Forall_forall in Hall.
    pose proof (Hall r ltac:(apply list_elem_of_In; exact Hin)) as Hr.
    unfold scale_row.
    rewrite (nth_zip_with fdiv _ _ j fzero fzero) by (rewrite ?length_zip_with; lia).
    rewrite (nth_zip_with fsub _ _ j fzero fzero) by lia.
    rewrite Hscale.
    rewrite (nth_zip_with (scale_of (length X)) _ _ j fzero fzero)
      by (rewrite ?Hvar, ?Hmean, ?length_feature_stats; lia).
    rewrite Hvar, Hmean. unfold feature_columns. rewrite !map_map.
    rewrite !nth_map_seq by exact Hj. reflexivity. }
  unfold column. rewrite !map_map. apply map_ext_in. exact Hnth.
Qed.
End MatrixFacts.

(** ** Column statistics over the reals *)

Section RealFacts.
Local Open Scope R_scope.
Implicit Types l : list R.

Lemma fsum_cons (x : R) l : fsum (x :: l) = x + fsum l.
Proof. reflexivity. Qed.

Lemma fsum_map_minus l (c : R) :
  fsum (map (fun x => x - c) l) = fsum l - INR (length l) * c.
Proof.
  induction l as [|x l IH]; [cbn; lra|].
  rewrite map_cons, !fsum_cons, IH.
  change (length (x :: l)) with (S (length l)). rewrite S_INR. lra.
Qed.

Lemma fsum_map_div (f : R -> R) l (s : R) :
  fsum (map (fun x => f x / s) l) = fsum (map f l) / s.
Proof.
  induction l as [|x l IH]; [cbn; unfold Rdiv; lra|].
  rewrite !map_cons, !fsum_cons, IH. unfold Rdiv. lra.
Qed.

Lemma INR_length_pos l : l <> [] -> 0 < INR (length l).
Proof.
  destruct l as [|x l]; [contradiction|]. intros _.
  apply lt_0_INR. cbn. lia.
Qed.

Lemma fmean_R l : fmean l = fsum l / INR (length l).
Proof. reflexivity. Qed.

Lemma fsum_centered l : l <> [] -> fsum (map (fun x => x - fmean l) l) = 0.
Proof.
  intros Hl. rewrite fsum_map_minus, fmean_R.
  pose proof (INR_length_pos l Hl). field. lra.
Qed.

(** Mean of a standardised column. *)
Lemma fmean_scaled l (s : R) :
  l <> [] -> fmean (map (fun x => (x - fmean l) / s) l) = 0.
Proof.
  intros Hl. rewrite fmean_R, length_map.
  rewrite (fsum_map_div (fun x => x - fmean l)), fsum_centered by exact Hl.
  unfold Rdiv. lra.
Qed.

Lemma fvar_R l :
  fvar l = fsum (map (fun x => (x - fmean l) * (x - fmean l)) l) / INR (length l).
Proof. unfold fvar. rewrite fmean_R, length_map. reflexivity. Qed.

Lemma fsum_squares_nonneg (f : R -> R) l : 0 <= fsum (map (fun x => f x * f x) l).
Proof.
  induction l as [|x l IH]; [cbn; lra|].
  rewrite map_cons, fsum_cons. nra.
Qed.

Lemma fvar_nonneg l : 0 <= fvar l.
Proof.
  rewrite fvar_R. destruct l as [|x l].
  - cbn. unfold Rdiv. rewrite Rinv_0. lra.
  - apply Rmult_le_pos; [apply (fsum_squares_nonneg (fun x0 => x0 - fmean (x :: l)))|].
    apply Rlt_le, Rinv_0_lt_compat, INR_length_pos. discriminate.
Qed.

(** Variance of a standardised column. *)
Lemma fvar_scaled l (s : R) :
  l <> [] -> s <> 0 ->
  fvar (map (fun x => (x - fmean l) / s) l) = fvar l / (s * s).
Proof.
  intros Hl Hs. rewrite (fvar_R (map _ l)), fmean_scaled by exact Hl.
  rewrite map_map, length_map, fvar_R.
  pose proof (INR_length_pos l Hl) as Hn.
  assert (E : map (fun x => ((x - fmean l) / s - 0) * ((x - fmean l) / s - 0)) l
              = map (fun x => (x - fmean l) * (x - fmean l) / (s * s)) l).
  { apply map_ext. intros x. field. exact Hs. }
  rewrite E, (fsum_map_div (fun x => (x - fmean l) * (x - fmean l))).
  field. split; lra.
Qed.

Lemma fstd_scaled_unit l :
  l <> [] -> 0 < fvar l ->
  fstd (map (fun x => (x - fmean l) / sqrt (fvar l)) l) = 1.
Proof.
  intros Hl Hv. unfold fstd at 1.
  assert (Hs : sqrt (fvar l) <> 0).
  { pose proof (sqrt_lt_R0 _ Hv). lra. }
  rewrite fvar_scaled by assumption.
  rewrite sqrt_sqrt by lra.
  replace (fvar l / fvar l) with 1 by (field; lra). apply sqrt_1.
Qed.

Lemma fstd_centered l :
  l <> [] -> fstd (map (fun x => (x - fmean l) / 1) l) = fstd l.
Proof.
  intros Hl. unfold fstd. rewrite fvar_scaled by (try assumption; lra).
  f_equal. field.
Qed.
End RealFacts.

(** ** The standard scaler over the reals *)

Section ScalerFacts.
Local Open Scope R_scope.

Lemma feps_pos : 0 < feps.
Proof.
  change (@feps R exactR) with Reps. unfold Reps.
  apply Rinv_0_lt_compat. apply pow_lt. lra.
Qed.

Lemma is_constant_feature_false (n : nat) (l : list R) :
  is_constant_feature (fvar l) (fmean l) n = false -> 0 < fvar l.
Proof.
  unfold is_constant_feature. cbn [fleb exactR]. unfold Rleb.
  destruct (Rle_dec _ _) as [|Hn]; [discriminate|]. intros _.
  pose proof (fvar_nonneg l) as Hv. pose proof feps_pos as He.
  pose proof (pos_INR n) as Hn0.
  apply Rnot_le_lt in Hn.
  destruct Hv as [Hv|Hv]; [exact Hv|]. exfalso.
  rewrite <- Hv in Hn. unfold fsquare in Hn. cbn [fmul fadd fof_nat exactR] in Hn.
  nra.
Qed.

Lemma scale_of_nonzero (n : nat) (l : list R) :
  scale_of n (fvar l) (fmean l) <> 0.
Proof.
  unfold scale_of. destruct (is_constant_feature _ _ n) eqn:E.
  - cbn. lra.
  - apply is_constant_feature_false in E. pose proof (sqrt_lt_R0 _ E).
    cbn [fsqrt exactR]. lra.
Qed.

Lemma zip_with_map_same {A B C D : Type} (f : B -> C -> D) (g : A -> B)
    (h : A -> C) (l : list A) :
  zip_with f (map g l) (map h l) = map (fun x => f (g x) (h x)) l.
Proof. induction l as [|x l IH]; [reflexivity|]. cbn. f_equal. exact IH. Qed.

Lemma scale_nonzero (X : list (list R)) (p : scaler_params R) :
  scaler_fit X = Ok p -> Forall (fun s => s <> 0) (scale_ p).
Proof.
  intros Hfit.
  destruct (scaler_fit_ok _ _ Hfit) as (d & _ & Hmean & Hvar & Hscale & _).
  rewrite Hscale, Hvar, Hmean, zip_with_map_same.
  apply Forall_map, Forall_forall. intros c _. apply scale_of_nonzero.
Qed.

Lemma unscale_scale (r mu s : list R) :
  length mu = length r -> length s = length r ->
  Forall (fun c => c <> 0) s ->
  zip_with Rplus (zip_with Rmult (zip_with Rdiv (zip_with Rminus r mu) s) s) mu = r.
Proof.
  revert mu s. induction r as [|x r IH]; intros [|m mu] [|c s] Hm Hs Hnz;
    try discriminate; [reflexivity|].
  apply Forall_cons in Hnz as [Hc Hnz].
  cbn [zip_with]. f_equal.
  - field. exact Hc.
  - apply IH; [cbn in Hm; lia|cbn in Hs; lia|exact Hnz].
Qed.

Lemma inverse_transform_transform (X Xs : list (list R)) (p : scaler_params R) :
  scaler_fit X = Ok p ->
  scaler_transform (Some p) X = Ok Xs ->
  scaler_inverse_transform (Some p) Xs = Ok X.
Proof.
  intros Hfit Htr.
  destruct (scaler_fit_ok _ _ Hfit) as (d & Hd & _ & _ & _ & Hlm & Hls).
  apply scaler_transform_rows in Htr as ->.
  unfold scaler_inverse_transform.
  rewrite (check_array_map (scale_row p) X d d Hd).
  2:{ apply check_array_ok in Hd. tauto. }
  2:{ intros r Hr. apply length_scale_row; assumption. }
  cbn [bind]. rewrite Hlm, Nat.eqb_refl. f_equal.
  rewrite map_map. rewrite <- (map_id X) at 2.
  apply check_array_ok in Hd as (_ & _ & Hall).
  apply map_ext_in. intros r Hin.
  rewrite Forall_forall in Hall.
  pose proof (Hall r ltac:(apply list_elem_of_In; exact Hin)) as Hr.
  unfold unscale_row, scale_row. apply unscale_scale; try lia.
  eapply scale_nonzero. exact Hfit.
Qed.

End ScalerFacts.

(** C7 (amended). Over the reals, after the scaler is fitted on a
    training matrix: every scaled training column has mean 0; its standard
    deviation is 1 unless the scaler takes the column for constant, and
    then the column is only centred and keeps its standard deviation (0
    for a constant column); and [inverse_transform] gives the training
    matrix back. *)
Theorem standardized_training_columns :
  forall (X Xs : list (list R)) (p : scaler_params R) (d : nat),
    scaler_fit X = Ok p ->
    scaler_transform (Some p) X = Ok Xs ->
    check_array X = Ok d ->
    scaler_inverse_transform (Some p) Xs = Ok X
    /\ forall j, j < d ->
         fmean (column j Xs) = 0%R
         /\ (is_constant_feature (fvar (column j X)) (fmean (column j X)) (length X) = false ->
             fstd (column j Xs) = 1%R)
         /\ (is_constant_feature (fvar (column j X)) (fmean (column j X)) (length X) = true ->
             fstd (column j Xs) = fstd (column j X)).
Proof.
  intros X Xs p d Hfit Htr Hd.
  split; [eapply inverse_transform_transform; eassumption|].
  intros j Hj.
  apply scaler_transform_rows in Htr as ->.
  rewrite (column_scaled X p d j Hfit Hd Hj).
  assert (Hne : column j X <> []).
  { apply check_array_ok in Hd as (Hne & _). unfold column.
    destruct X; [contradiction|discriminate]. }
  split; [apply fmean_scaled; exact Hne|].
  unfold scale_of. split; intros E; rewrite E.
  - apply fstd_scaled_unit; [exact Hne|].
    eapply is_constant_feature_false. exact E.
  - apply fstd_centered. exact Hne.
Qed.

Lemma standardized_training_columns_witness :
  let p := {| mean_ := map fmean (feature_columns 3 X_const);
              var_ := map fvar (feature_columns 3 X_const);
              scale_ := zip_with (scale_of 2)
                          (map fvar (feature_columns 3 X_const))
                          (map fmean (feature_columns 3 X_const));
              n_samples_seen_ := 2 |} in
  let Xs := map (scale_row p) X_const in
  scaler_inverse_transform (Some p) Xs = Ok X_const
  /\ forall j, j < 3 ->
       fmean (column j Xs) = 0%R
       /\ (is_constant_feature (fvar (column j X_const)) (fmean (column j X_const))
             (length X_const) = false ->
           fstd (column j Xs) = 1%R)
       /\ (is_constant_feature (fvar (column j X_const)) (fmean (column j X_const))
             (length X_const) = true ->
           fstd (column j Xs) = fstd (column j X_const)).
Proof.
  intros p Xs.
  apply (standardized_training_columns X_const Xs p 3); reflexivity.
Defined.

Lemma fvar_two_equal (c : R) : fvar [c; c] = 0%R.
Proof.
  unfold fvar, fmean, fsum, fsquare. cbn [map fold_right length fadd fsub fmul fdiv fzero fof_nat exactR INR].
  field.
Qed.

Lemma constant_column_flagged (c : R) (n : nat) :
  is_constant_feature (fvar [c; c]) (fmean [c; c]) n = true.
Proof.
  rewrite fvar_two_equal. unfold is_constant_feature.
  cbn [fleb exactR]. unfold Rleb. destruct (Rle_dec _ _) as [|Hn]; [reflexivity|].
  exfalso. apply Hn. unfold fsquare. cbn [fmul fadd fof_nat exactR].
  pose proof feps_pos. pose proof (pos_INR n). nra.
Qed.

(** C7, as stated, fails: the features of a trajectory that rests at the
    origin are constant, and such a column is scaled to a column of
    standard deviation 0, not 1. *)
Lemma scaled_constant_column_counterexample :
  exists (p : scaler_params R) (Xs : list (list R)),
    scaler_fit X_origin = Ok p
    /\ scaler_transform (Some p) X_origin = Ok Xs
    /\ fstd (column 0 Xs) = 0%R
    /\ fstd (column 0 Xs) <> 1%R.
Proof.
  destruct (scaler_fit X_origin) as [p|e] eqn:Hfit; [|discriminate Hfit].
  destruct (scaler_transform (Some p) X_origin) as [Xs|e] eqn:Htr.
  2:{ exfalso. revert Htr. unfold scaler_transform.
      destruct (scaler_fit_ok _ _ Hfit) as (d & Hd & _ & _ & _ & Hlm & _).
      rewrite Hd. cbn [bind]. rewrite Hlm, Nat.eqb_refl. discriminate. }
  exists p, Xs. split; [reflexivity|]. split; [exact Htr|].
  assert (E : fstd (column 0 Xs) = 0%R).
  { apply scaler_transform_rows in Htr as ->.
    rewrite (column_scaled X_origin p 3 0 Hfit eq_refl) by lia.
    change (column 0 X_origin) with [0; 0]%R.
    unfold scale_of. rewrite constant_column_flagged.
    transitivity (fstd [0; 0]%R);
      [apply (fstd_centered [0; 0]%R); discriminate|].
    unfold fstd. rewrite fvar_two_equal. apply sqrt_0. }
  split; [exact E|]. rewrite E. lra.
Qed.

(** The same in binary64, as NumPy computes it: the scaled column of the
    resting trajectory has standard deviation [+0.0]. *)
Example scaled_constant_column_binary64 :
  (let* p := scaler_fit [[B64.pzero; B64.pzero; B64.pzero];
                         [B64.pzero; B64.pzero; B64.pzero]] in
   let* Xs := scaler_transform (Some p)
                [[B64.pzero; B64.pzero; B64.pzero];
                 [B64.pzero; B64.pzero; B64.pzero]] in
   Ok (fstd (column 0 Xs)))%result
  = Ok B64.pzero.
Proof. vm_compute. reflexivity. Qed.

(** ** Fitting the pipeline *)

Section FitFacts.
Context {F : Type} `{Num F} `{Solver F}.

Lemma length_combinations_pos (n degree : nat) : 0 < length (combinations n degree).
Proof.
  unfold combinations. cbn [seq map concat combinations_with_replacement].
  rewrite length_app. cbn. lia.
Qed.

Lemma length_poly_row (degree : nat) (r : list F) :
  length (poly_row degree r) = length (combinations (length r) degree).
Proof. unfold poly_row. apply length_map. Qed.

Lemma check_array_poly (degree : nat) (X : list (list F)) (d : nat) :
  check_array X = Ok d ->
  check_array (map (poly_row degree) X) = Ok (length (combinations d degree)).
Proof.
  intros Hd. eapply check_array_map; [exact Hd|apply length_combinations_pos|].
  intros r Hr. rewrite length_poly_row, Hr. reflexivity.
Qed.

Lemma scaler_fit_checked (X : list (list F)) (d : nat) :
  check_array X = Ok d ->
  exists sc, scaler_fit X = Ok sc /\ length (mean_ sc) = d /\ length (scale_ sc) = d.
Proof.
  intros Hd. unfold scaler_fit. rewrite Hd. cbn [bind]. eexists. split; [reflexivity|].
  cbn [mean_ scale_]. rewrite length_zip_with, !length_feature_stats. lia.
Qed.

(** [pipeline.fit] succeeds on every training set of consistent shape. *)
Lemma pipeline_fit_total (p0 : pipeline_obj F) (X : list (list F)) (y : list F)
    (d : nat) :
  check_array X = Ok d -> length y = length X ->
  exists sc m,
    pipeline_fit p0 X y
    = Ok (PipelineObj (poly_degree p0) (Some d) (Some sc) (Some m))
    /\ scaler_fit (map (poly_row (poly_degree p0)) X) = Ok sc
    /\ (let XS := map (scale_row sc) (map (poly_row (poly_degree p0)) X) in
        let d' := length (combinations d (poly_degree p0)) in
        check_array XS = Ok d'
        /\ linreg_fit XS y = Ok m
        /\ coef_ m = lstsq (fst (centred_problem XS y d')) (snd (centred_problem XS y d'))
        /\ intercept_ m = fsub (fmean y) (dot (map fmean (feature_columns d' XS)) (coef_ m))).
Proof.
  intros Hd Hy.
  set (XP := map (poly_row (poly_degree p0)) X).
  pose proof (check_array_poly (poly_degree p0) X d Hd) as HXP. fold XP in HXP.
  destruct (scaler_fit_checked XP _ HXP) as (sc & Hsc & Hlm & Hls).
  assert (HXS : check_array (map (scale_row sc) XP)
                = Ok (length (combinations d (poly_degree p0)))).
  { eapply check_array_map; [exact HXP|apply length_combinations_pos|].
    intros r Hr. apply length_scale_row; assumption. }
  assert (Hlen : (length y =? length (map (scale_row sc) XP)) = true).
  { subst XP. rewrite !length_map. apply Nat.eqb_eq. exact Hy. }
  destruct (linreg_fit (map (scale_row sc) XP) y) as [m|e] eqn:Hm.
  2:{ exfalso. revert Hm. unfold linreg_fit. rewrite HXS. cbn [bind].
      rewrite Hlen. discriminate. }
  exists sc, m.
  split.
  { unfold pipeline_fit, poly_fit, poly_transform. rewrite Hd. cbn [bind].
    rewrite Nat.eqb_refl. cbn [bind]. fold XP. rewrite Hsc. cbn [bind].
    unfold scaler_transform. rewrite HXP. cbn [bind].
    rewrite Hlm, Nat.eqb_refl. cbn [bind]. rewrite Hm. reflexivity. }
  split; [exact Hsc|].
  cbv zeta. split; [exact HXS|]. split; [exact Hm|].
  revert Hm. unfold linreg_fit. rewrite HXS. cbn [bind]. rewrite Hlen.
  intros [= <-]. split; reflexivity.
Qed.

End FitFacts.

Section ExactSolverFacts.
Local Open Scope R_scope.

Lemma dot_cons (x y : R) (a b : list R) : dot (x :: a) (y :: b) = x * y + dot a b.
Proof. reflexivity. Qed.

Lemma dot_zeros_l (d : nat) (v : list R) : dot (zeros d) v = 0.
Proof.
  revert v. induction d as [|d IH]; intros [|x v]; try reflexivity.
  change (zeros (S d)) with (0 :: zeros d). rewrite dot_cons, IH. lra.
Qed.

Lemma dot_self_nonneg (v : list R) : 0 <= dot v v.
Proof.
  induction v as [|x v IH]; [cbn; lra|]. rewrite dot_cons. nra.
Qed.

Lemma dot_self_zero (v : list R) : dot v v = 0 -> v = zeros (length v).
Proof.
  induction v as [|x v IH]; [reflexivity|].
  rewrite dot_cons. intros Hv. pose proof (dot_self_nonneg v).
  assert (x = 0) by nra. assert (dot v v = 0) by nra.
  subst x. cbn [length]. change (zeros (S (length v))) with (0 :: zeros (length v)).
  f_equal. apply IH. assumption.
Qed.

Lemma length_zeros (d : nat) : length (zeros d) = d.
Proof. apply repeat_length. Qed.

(** For a single all-zero row every vector has the same residual, so the
    minimum-norm least-squares solution is the zero vector. *)
Lemma zeros_min_norm (d : nat) (b : R) :
  is_min_norm_least_squares [zeros d] [b] (zeros d).
Proof.
  assert (Hssr : forall v, ssr [zeros d] [b] v = (0 - b) * (0 - b)).
  { intros v. unfold ssr. cbn [zip_with]. unfold fsum, fsquare.
    cbn [fold_right fadd fmul fsub fzero exactR]. rewrite dot_zeros_l. lra. }
  split; [split|].
  - reflexivity.
  - intros v _. rewrite !Hssr. lra.
  - intros v _. rewrite dot_zeros_l. apply dot_self_nonneg.
Qed.

Lemma lstsq_zero_row (d : nat) (b : R) : lstsqR [zeros d] [b] = zeros d.
Proof.
  unfold lstsqR.
  pose proof (epsilon_spec (inhabits []) (is_min_norm_least_squares [zeros d] [b])
                (ex_intro _ _ (zeros_min_norm d b))) as [[Hlen _] Hmin].
  set (w := epsilon _ _) in *.
  specialize (Hmin (zeros d) (proj1 (zeros_min_norm d b))).
  rewrite dot_zeros_l in Hmin. pose proof (dot_self_nonneg w).
  assert (Hw : dot w w = 0) by lra.
  apply dot_self_zero in Hw. rewrite Hw, Hlen. cbn. rewrite length_zeros. reflexivity.
Qed.

Lemma fmean_singleton (a : R) : fmean [a] = a.
Proof.
  unfold fmean, fsum. cbn [fold_right length fadd fdiv fzero fof_nat exactR INR]. field.
Qed.

Lemma feature_means_single (r : list R) :
  map fmean (feature_columns (length r) [r]) = r.
Proof.
  apply (nth_ext _ _ 0 0).
  - apply length_feature_stats.
  - intros j Hj. rewrite length_feature_stats in Hj.
    unfold feature_columns. rewrite map_map, nth_map_seq by exact Hj.
    unfold column. cbn [map]. apply fmean_singleton.
Qed.

Lemma zip_with_minus_self (r : list R) : zip_with Rminus r r = zeros (length r).
Proof.
  induction r as [|x r IH]; [reflexivity|].
  cbn [zip_with length]. change (zeros (S (length r))) with (0 :: zeros (length r)).
  f_equal; [lra|exact IH].
Qed.

Lemma zip_with_div_zeros (s : list R) :
  zip_with Rdiv (zeros (length s)) s = zeros (length s).
Proof.
  induction s as [|x s IH]; [reflexivity|].
  cbn [length]. change (zeros (S (length s))) with (0 :: zeros (length s)).
  cbn [zip_with]. f_equal; [unfold Rdiv; lra|exact IH].
Qed.

(** A single training row is scaled to zeros, whatever the scales. *)
Lemma scale_single_row (r : list R) (sc : scaler_params R) :
  scaler_fit [r] = Ok sc -> scale_row sc r = zeros (length r).
Proof.
  intros Hfit.
  destruct (scaler_fit_ok _ _ Hfit) as (d & Hd & Hmean & _ & _ & _ & Hls).
  assert (d = length r) as ->.
  { apply check_array_ok in Hd as (_ & _ & Hall). apply Forall_inv in Hall.
    symmetry. exact Hall. }
  unfold scale_row. rewrite Hmean, feature_means_single.
  change (zip_with fsub r r) with (zip_with Rminus r r).
  rewrite zip_with_minus_self, <- Hls. apply zip_with_div_zeros.
Qed.

Lemma centred_single_row (r : list R) (y : R) :
  centred_problem [r] [y] (length r) = ([zeros (length r)], [0]).
Proof.
  unfold centred_problem, center_rows. rewrite feature_means_single.
  cbn [map]. change (zip_with fsub r r) with (zip_with Rminus r r).
  rewrite zip_with_minus_self, fmean_singleton. f_equal. f_equal.
  cbn. lra.
Qed.

End ExactSolverFacts.

(** ** Vectors, column sums and the least-squares bound *)

Section VectorFacts.
Local Open Scope R_scope.
Implicit Types a b o w v : list R.

Lemma dot_nil_l v : dot [] v = 0.
Proof. reflexivity. Qed.

Lemma dot_nil_r a : dot a [] = 0.
Proof. destruct a; reflexivity. Qed.

Lemma dot_minus_l a o w :
  length a = length o -> dot (zip_with Rminus a o) w = dot a w - dot o w.
Proof.
  revert o w. induction a as [|x a IH]; intros [|y o] [|z w] Hlen;
    try discriminate; rewrite ?dot_nil_l, ?dot_nil_r; try lra.
  cbn [zip_with]. rewrite !dot_cons, IH by (cbn in Hlen; lia). lra.
Qed.

Lemma dot_plus_l a b w :
  length a = length b -> dot (zip_with Rplus a b) w = dot a w + dot b w.
Proof.
  revert b w. induction a as [|x a IH]; intros [|y b] [|z w] Hlen;
    try discriminate; rewrite ?dot_nil_l, ?dot_nil_r; try lra.
  cbn [zip_with]. rewrite !dot_cons, IH by (cbn in Hlen; lia). lra.
Qed.

Lemma dot_map_div_l (a w : list R) (n : R) :
  dot (map (fun x => x / n) a) w = dot a w / n.
Proof.
  revert w. induction a as [|x a IH]; intros [|z w];
    rewrite ?dot_nil_l, ?dot_nil_r; try (unfold Rdiv; lra).
  cbn [map]. rewrite !dot_cons, IH. unfold Rdiv. lra.
Qed.

Lemma fsum_zip_minus {A B : Type} (f : A -> R) (g : B -> R) (X : list A) (Y : list B) :
  length X = length Y ->
  fsum (zip_with (fun x y => f x - g y) X Y) = fsum (map f X) - fsum (map g Y).
Proof.
  revert Y. induction X as [|x X IH]; intros [|y Y] Hlen; try discriminate.
  - cbn. lra.
  - cbn [zip_with map]. rewrite !fsum_cons, IH by (cbn in Hlen; lia). lra.
Qed.

(** Shifting residuals of sum zero by a constant cannot lower the sum of
    their squares. *)
Lemma fsum_square_shift (u : list R) (k : R) :
  fsum (map (fun x => fsquare (x + k)) u)
  = fsum (map fsquare u) + 2 * k * fsum u + INR (length u) * (k * k).
Proof.
  induction u as [|x u IH]; [cbn; lra|].
  cbn [map]. rewrite !fsum_cons, IH.
  change (length (x :: u)) with (S (length u)). rewrite S_INR.
  unfold fsquare. cbn [fmul exactR]. lra.
Qed.

Lemma fsum_square_shift_le (u : list R) (k : R) :
  fsum u = 0 ->
  fsum (map fsquare u) <= fsum (map (fun x => fsquare (x + k)) u).
Proof.
  intros Hu. rewrite fsum_square_shift, Hu.
  pose proof (pos_INR (length u)). nra.
Qed.

Lemma map_nth_seq (r : list R) :
  map (fun j => nth j r 0) (seq 0 (length r)) = r.
Proof.
  apply (nth_ext _ _ 0 0).
  - rewrite length_map, length_seq. reflexivity.
  - intros j Hj. rewrite length_map, length_seq in Hj.
    apply (nth_map_seq (fun j => nth j r 0)). exact Hj.
Qed.

(** Column sums, row by row. *)
Lemma column_sums_cons (d : nat) (r : list R) (M : list (list R)) :
  length r = d ->
  map fsum (feature_columns d (r :: M))
  = zip_with Rplus r (map fsum (feature_columns d M)).
Proof.
  intros <-. unfold feature_columns. rewrite !map_map.
  transitivity (zip_with Rplus (map (fun j => nth j r 0) (seq 0 (length r)))
                  (map (fun j => fsum (column j M)) (seq 0 (length r))));
    [|rewrite map_nth_seq; reflexivity].
  rewrite zip_with_map_same. apply map_ext. intros j.
  unfold column. cbn [map]. reflexivity.
Qed.

Lemma column_sums_nil (d : nat) : map fsum (feature_columns d []) = zeros d.
Proof.
  unfold feature_columns. rewrite map_map. unfold column. cbn [map].
  unfold zeros. induction d as [|d IH]; [reflexivity|].
  rewrite seq_S, map_app, IH. cbn [map]. 
  change (@fsum R exactR []) with 0. clear IH.
  induction d as [|d IH]; [reflexivity|]. cbn [repeat app]. f_equal. exact IH.
Qed.

(** Exchanging the two sums: a dot product with the column sums is the
    sum of the rows' dot products. *)
Lemma dot_column_sums (d : nat) (M : list (list R)) (v : list R) :
  Forall (fun r => length r = d) M ->
  dot (map fsum (feature_columns d M)) v = fsum (map (fun r => dot r v) M).
Proof.
  induction 1 as [|r M Hr _ IH].
  - rewrite column_sums_nil, dot_zeros_l. reflexivity.
  - rewrite column_sums_cons by exact Hr.
    rewrite dot_plus_l by (rewrite length_feature_stats; exact Hr).
    rewrite IH. reflexivity.
Qed.

Lemma dot_column_means (d : nat) (M : list (list R)) (v : list R) :
  Forall (fun r => length r = d) M ->
  dot (map fmean (feature_columns d M)) v
  = fsum (map (fun r => dot r v) M) / INR (length M).
Proof.
  intros HM. rewrite <- (dot_column_sums d M v HM), <- dot_map_div_l.
  f_equal. unfold feature_columns. rewrite !map_map. apply map_ext.
  intros j. rewrite fmean_R. unfold column. rewrite length_map. reflexivity.
Qed.

End VectorFacts.

Section OLSFacts.
Local Open Scope R_scope.

Lemma zip_with_ext_in {A B C : Type} (f g : A -> B -> C) (X : list A) (Y : list B) :
  (forall x y, In x X -> f x y = g x y) -> zip_with f X Y = zip_with g X Y.
Proof.
  revert Y. induction X as [|x X IH]; intros [|y Y] Hfg; try reflexivity.
  cbn [zip_with]. f_equal.
  - apply Hfg. left. reflexivity.
  - apply IH. intros x' y' Hin. apply Hfg. right. exact Hin.
Qed.

Lemma map_zip_with {A B C D : Type} (g : C -> D) (f : A -> B -> C)
    (X : list A) (Y : list B) :
  map g (zip_with f X Y) = zip_with (fun x y => g (f x y)) X Y.
Proof.
  revert Y. induction X as [|x X IH]; intros [|y Y]; try reflexivity.
  cbn [zip_with map]. f_equal. apply IH.
Qed.

Lemma zip_with_map_l {A A' B C : Type} (f : A' -> B -> C) (h : A -> A')
    (X : list A) (Y : list B) :
  zip_with f (map h X) Y = zip_with (fun x y => f (h x) y) X Y.
Proof.
  revert Y. induction X as [|x X IH]; intros [|y Y]; try reflexivity.
  cbn [zip_with map]. f_equal. apply IH.
Qed.

Lemma zip_with_map_r {A B B' C : Type} (f : A -> B' -> C) (h : B -> B')
    (X : list A) (Y : list B) :
  zip_with f X (map h Y) = zip_with (fun x y => f x (h y)) X Y.
Proof.
  revert Y. induction X as [|x X IH]; intros [|y Y]; try reflexivity.
  cbn [zip_with map]. f_equal. apply IH.
Qed.

(** A row of polynomial terms, in terms of its scaled and centred row. *)
Lemma row_decomposition (r mu s o beta : list R) :
  length mu = length r -> length s = length r -> length o = length r ->
  length beta = length r -> Forall (fun c => c <> 0) s ->
  dot r beta
  = dot (zip_with Rminus (zip_with Rdiv (zip_with Rminus r mu) s) o)
        (zip_with Rmult beta s)
    + dot (zip_with Rplus (zip_with Rmult s o) mu) beta.
Proof.
  revert mu s o beta.
  induction r as [|x r IH]; intros [|m mu] [|c s] [|a o] [|b beta] Hm Hs Ho Hb Hnz;
    try discriminate; [cbn; lra|].
  apply Forall_cons in Hnz as [Hc Hnz].
  cbn [zip_with]. rewrite !dot_cons.
  rewrite (IH mu s o beta) by (try assumption; cbn in *; lia).
  field. exact Hc.
Qed.

End OLSFacts.

(** ** Least squares: existence of the minimum-norm solution *)

Section LinearAlgebra.
Local Open Scope R_scope.
Implicit Types a b w v : list R.
Implicit Types A : list (list R).

Lemma dot_comm a b : dot a b = dot b a.
Proof.
  revert b. induction a as [|x a IH]; intros [|y b];
    rewrite ?dot_nil_l, ?dot_nil_r; try reflexivity.
  rewrite !dot_cons, IH. lra.
Qed.

Lemma dot_vadd_l a b w :
  length a = length b -> dot (vadd a b) w = dot a w + dot b w.
Proof. apply dot_plus_l. Qed.

Lemma dot_vsub_l a b w :
  length a = length b -> dot (vsub a b) w = dot a w - dot b w.
Proof. apply dot_minus_l. Qed.

Lemma dot_vsub_r a b w :
  length a = length b -> dot w (vsub a b) = dot w a - dot w b.
Proof. intros Hl. rewrite dot_comm, dot_vsub_l, !(dot_comm w) by exact Hl. reflexivity. Qed.

Lemma dot_vadd_r a b w :
  length a = length b -> dot w (vadd a b) = dot w a + dot w b.
Proof. intros Hl. rewrite dot_comm, dot_vadd_l, !(dot_comm w) by exact Hl. reflexivity. Qed.

Lemma dot_vscale_l (t : R) a w : dot (vscale t a) w = t * dot a w.
Proof.
  revert w. induction a as [|x a IH]; intros [|y w];
    rewrite ?dot_nil_l, ?dot_nil_r; try (cbn; lra).
  cbn [vscale map]. rewrite !dot_cons. fold (vscale t a). rewrite IH. lra.
Qed.

Lemma dot_vscale_r (t : R) a w : dot w (vscale t a) = t * dot w a.
Proof. rewrite dot_comm, dot_vscale_l, dot_comm. reflexivity. Qed.

Lemma dot_zeros_r (d : nat) v : dot v (zeros d) = 0.
Proof. rewrite dot_comm. apply dot_zeros_l. Qed.

Lemma dot_null_l a w : dot a a = 0 -> dot a w = 0.
Proof. intros Ha. rewrite (dot_self_zero a Ha). apply dot_zeros_l. Qed.

Lemma length_vsub a b : length (vsub a b) = Nat.min (length a) (length b).
Proof. apply length_zip_with. Qed.

Lemma length_vscale (t : R) a : length (vscale t a) = length a.
Proof. apply length_map. Qed.

Lemma length_mulv A w : length (mulv A w) = length A.
Proof. apply length_map. Qed.

Lemma length_first_column A : length (first_column A) = length A.
Proof. apply length_map. Qed.

Lemma other_columns_length (d : nat) A :
  Forall (fun r => length r = S d) A ->
  Forall (fun r => length r = d) (other_columns A).
Proof.
  intros HA. apply Forall_map. eapply Forall_impl; [exact HA|].
  intros [|x r] Hr; cbn in Hr |- *; lia.
Qed.

(** Splitting off the first column. *)
Lemma mulv_cons (d : nat) A (t : R) v :
  Forall (fun r => length r = S d) A ->
  mulv A (t :: v) = vadd (vscale t (first_column A)) (mulv (other_columns A) v).
Proof.
  induction 1 as [|r A Hr _ IH]; [reflexivity|].
  destruct r as [|x r]; [discriminate|].
  cbn [mulv map first_column other_columns hd tl vscale vadd zip_with].
  f_equal; [rewrite dot_cons; lra|exact IH].
Qed.

Lemma mulv_vsub (d : nat) A w1 w2 :
  Forall (fun r => length r = d) A -> length w1 = d -> length w2 = d ->
  mulv A (vsub w1 w2) = vsub (mulv A w1) (mulv A w2).
Proof.
  intros HA H1 H2. induction HA as [|r A Hr _ IH]; [reflexivity|].
  cbn [mulv map vsub zip_with]. f_equal; [|exact IH].
  apply dot_vsub_r. lia.
Qed.

Lemma mulv_vscale A (t : R) w : mulv A (vscale t w) = vscale t (mulv A w).
Proof.
  induction A as [|r A IH]; [reflexivity|].
  cbn [mulv map vscale]. f_equal; [apply dot_vscale_r|exact IH].
Qed.

Lemma mulv_nil_cols A w :
  Forall (fun r => length r = 0%nat) A -> mulv A w = zeros (length A).
Proof.
  induction 1 as [|r A Hr _ IH]; [reflexivity|].
  destruct r; [|discriminate]. cbn [mulv map length].
  change (zeros (S (length A))) with (0 :: zeros (length A)).
  f_equal. exact IH.
Qed.

Lemma vadd_vscale_zero a b :
  length a = length b -> vadd (vscale 0 a) b = b.
Proof.
  revert b. induction a as [|x a IH]; intros [|y b] Hl; try discriminate;
    [reflexivity|].
  cbn [vscale map vadd zip_with]. f_equal; [lra|]. apply IH. cbn in Hl. lia.
Qed.

Lemma residual_combination (tau : R) a b l1 l2 :
  length l1 = length a -> length l2 = length a -> length b = length a ->
  vsub (vadd (vscale tau a) (vsub l1 (vscale tau l2))) b
  = vsub (vsub l1 b) (vscale tau (vsub l2 a)).
Proof.
  revert b l1 l2. induction a as [|x a IH]; intros [|y b] [|p l1] [|q l2] L1 L2 L3;
    try discriminate; [reflexivity|].
  cbn [vscale map vadd vsub zip_with]. f_equal; [lra|].
  apply IH; cbn in *; lia.
Qed.

(** The normal equations have a solution: some [A w - b] is orthogonal to
    the range of [A]. *)
Lemma normal_equations_solvable (d : nat) :
  forall A b,
    Forall (fun r => length r = d) A -> length b = length A ->
    exists w, length w = d
      /\ forall v, length v = d -> dot (mulv A v) (vsub (mulv A w) b) = 0.
Proof.
  induction d as [|d IH]; intros A b HA Hb.
  - exists []. split; [reflexivity|]. intros v _.
    rewrite (mulv_nil_cols A v HA). apply dot_zeros_l.
  - set (a := first_column A). set (A' := other_columns A).
    assert (HA' : Forall (fun r => length r = d) A')
      by (apply other_columns_length; exact HA).
    assert (HlA' : length A' = length A) by apply length_map.
    assert (Hla : length a = length A) by apply length_first_column.
    destruct (IH A' b HA' ltac:(lia)) as (wb & Hwb & Ob).
    destruct (IH A' a HA' ltac:(lia)) as (wa & Hwa & Oa).
    set (eb := vsub (mulv A' wb) b) in *.
    set (ea := vsub (mulv A' wa) a) in *.
    assert (Hleb : length eb = length A)
      by (unfold eb; rewrite length_vsub, length_mulv; lia).
    assert (Hlea : length ea = length A)
      by (unfold ea; rewrite length_vsub, length_mulv; lia).
    (* [a = A' wa - ea] *)
    assert (Ha_dot : forall e, length e = length A ->
               (forall v, length v = d -> dot (mulv A' v) e = 0) ->
               dot a e = - dot ea e).
    { intros e He Oe. unfold ea. rewrite dot_vsub_l by (rewrite length_mulv; lia).
      rewrite (Oe wa Hwa). lra. }
    destruct (Req_dec (dot ea ea) 0) as [Hz|Hnz].
    + (* the first column is in the range of the others *)
      exists (0 :: wb). split; [cbn; lia|].
      intros [|t v] Hv; [discriminate|].
      rewrite !(mulv_cons d A) by exact HA. fold a A'.
      rewrite (vadd_vscale_zero a (mulv A' wb)) by (rewrite length_mulv; lia).
      fold eb.
      rewrite dot_vadd_l by (rewrite length_vscale, length_mulv; lia).
      rewrite dot_vscale_l, (Ob v) by (cbn in Hv; lia).
      rewrite (Ha_dot eb Hleb Ob).
      rewrite (dot_null_l ea eb Hz). lra.
    + set (tau := dot eb ea / dot ea ea).
      (* residual [tau * (a - A' wa) - (b - A' wb)] = eb - tau * ea *)
      exists (tau :: vsub wb (vscale tau wa)). split.
      { cbn [length]. rewrite length_vsub, length_vscale. lia. }
      intros [|t v] Hv; [discriminate|].
      rewrite !(mulv_cons d A) by exact HA. fold a A'.
      rewrite (mulv_vsub d A') by (rewrite ?length_vscale; assumption).
      rewrite mulv_vscale.
      rewrite (residual_combination tau a b (mulv A' wb) (mulv A' wa))
        by (rewrite ?length_mulv; lia).
      fold eb ea.
      set (e := vsub eb (vscale tau ea)).
      assert (Hle : length e = length A)
        by (unfold e; rewrite length_vsub, length_vscale; lia).
      assert (Oe : forall v', length v' = d -> dot (mulv A' v') e = 0).
      { intros v' Hv'. unfold e.
        rewrite dot_vsub_r by (rewrite length_vscale; lia).
        rewrite dot_vscale_r, (Ob v' Hv'), (Oa v' Hv'). lra. }
      rewrite dot_vadd_l by (rewrite length_vscale, length_mulv; lia).
      rewrite dot_vscale_l, (Oe v) by (cbn in Hv; lia).
      rewrite (Ha_dot e Hle Oe).
      unfold e. rewrite dot_vsub_r by (rewrite length_vscale; lia).
      rewrite dot_vscale_r, (dot_comm ea eb).
      unfold tau. field. exact Hnz.
Qed.

Lemma ssr_dot A b w :
  ssr A b w = dot (vsub (mulv A w) b) (vsub (mulv A w) b).
Proof.
  unfold ssr. revert b. induction A as [|r A IH]; intros [|y b]; try reflexivity.
  cbn [mulv map vsub zip_with]. rewrite fsum_cons, dot_cons.
  fold (mulv A w) (vsub (mulv A w) b). rewrite <- IH. reflexivity.
Qed.

Lemma dot_vadd_self a b :
  length a = length b ->
  dot (vadd a b) (vadd a b) = dot a a + 2 * dot a b + dot b b.
Proof.
  intros Hl. rewrite dot_vadd_l, !dot_vadd_r by exact Hl.
  rewrite (dot_comm b a). lra.
Qed.

Lemma vadd_vsub_cancel a b c :
  length a = length b -> length c = length b ->
  vadd (vsub a b) (vsub b c) = vsub a c.
Proof.
  revert b c. induction a as [|x a IH]; intros [|y b] [|z c] H1 H2;
    try discriminate; [reflexivity|].
  cbn [vadd vsub zip_with]. f_equal; [lra|]. apply IH; cbn in *; lia.
Qed.

Lemma vadd_vsub_back a b : length a = length b -> vadd b (vsub a b) = a.
Proof.
  revert b. induction a as [|x a IH]; intros [|y b] H1; try discriminate;
    [reflexivity|].
  cbn [vadd vsub zip_with]. f_equal; [lra|]. apply IH; cbn in *; lia.
Qed.

Lemma vsub_zeros_eq a b :
  length a = length b -> vsub a b = zeros (length a) -> a = b.
Proof.
  revert b. induction a as [|x a IH]; intros [|y b] H1; try discriminate;
    [reflexivity|].
  cbn [vsub zip_with length]. change (zeros (S (length a))) with (0 :: zeros (length a)).
  intros [= Hxy Hrest]. f_equal; [lra|]. apply IH; [cbn in H1; lia|exact Hrest].
Qed.

(** Pythagoras for the residuals, around a solution of the normal
    equations. *)
Lemma ssr_around_solution (d : nat) A b w v :
  Forall (fun r => length r = d) A -> length b = length A ->
  length w = d -> length v = d ->
  (forall v', length v' = d -> dot (mulv A v') (vsub (mulv A w) b) = 0) ->
  ssr A b v
  = dot (mulv A (vsub v w)) (mulv A (vsub v w)) + ssr A b w.
Proof.
  intros HA Hb Hw Hv Orth. rewrite !ssr_dot.
  rewrite <- (vadd_vsub_cancel (mulv A v) (mulv A w) b)
    by (rewrite !length_mulv; lia).
  rewrite <- (mulv_vsub d A v w) by assumption.
  rewrite dot_vadd_self by (rewrite length_vsub, !length_mulv; lia).
  rewrite (Orth (vsub v w)) by (rewrite length_vsub; lia). lra.
Qed.

Lemma normal_equations_least_squares (d : nat) A b w :
  A <> [] -> Forall (fun r => length r = d) A -> length b = length A ->
  length w = d ->
  (forall v', length v' = d -> dot (mulv A v') (vsub (mulv A w) b) = 0) ->
  is_least_squares A b w.
Proof.
  intros Hne HA Hb Hw Orth.
  assert (Hn : n_cols A = d).
  { destruct A as [|r A]; [contradiction|]. apply Forall_inv in HA. exact HA. }
  split; [lia|]. intros v Hv. rewrite Hn in Hv.
  rewrite (ssr_around_solution d A b w v) by assumption.
  pose proof (dot_self_nonneg (mulv A (vsub v w))). lra.
Qed.

(** The adjoint identity: [(A^T u) . x = u . (A x)]. *)
Lemma transpose_cons (d : nat) (r : list R) A (t : R) u :
  length r = d ->
  mulv (feature_columns d (r :: A)) (t :: u)
  = vadd (vscale t r) (mulv (feature_columns d A) u).
Proof.
  intros <-. unfold mulv, feature_columns. rewrite !map_map.
  transitivity (zip_with Rplus (map (fun j => t * nth j r 0) (seq 0 (length r)))
                  (map (fun j => dot (column j A) u) (seq 0 (length r)))).
  - rewrite zip_with_map_same. apply map_ext. intros j.
    unfold column. cbn [map]. rewrite dot_cons.
    change (@fzero R exactR) with 0. ring.
  - unfold vadd, vscale. f_equal.
    rewrite <- (map_map (fun j => nth j r 0) (Rmult t)), map_nth_seq.
    reflexivity.
Qed.

Lemma transpose_nil (d : nat) u : mulv (feature_columns d []) u = zeros d.
Proof.
  unfold mulv, feature_columns. rewrite map_map. unfold column. cbn [map].
  unfold zeros. induction d as [|d IH]; [reflexivity|].
  rewrite seq_S, map_app, IH. cbn [map].
  change (@dot R exactR [] u) with 0. clear IH.
  induction d as [|d IH]; [reflexivity|]. cbn [repeat app]. f_equal. exact IH.
Qed.

Lemma transpose_adjoint (d : nat) A u x :
  Forall (fun r => length r = d) A -> length u = length A -> length x = d ->
  dot (mulv (feature_columns d A) u) x = dot u (mulv A x).
Proof.
  intros HA. revert u. induction HA as [|r A Hr _ IH]; intros [|t u] Hu Hx;
    try discriminate.
  - rewrite transpose_nil, dot_zeros_l. reflexivity.
  - rewrite transpose_cons by exact Hr.
    rewrite dot_vadd_l.
    2:{ rewrite length_vscale, length_mulv. unfold feature_columns.
        rewrite length_map, length_seq. exact Hr. }
    rewrite dot_vscale_l, IH by (cbn in Hu; lia).
    cbn [mulv map]. rewrite dot_cons. reflexivity.
Qed.

Lemma transpose_shape (d : nat) A :
  length (feature_columns d A) = d
  /\ Forall (fun c => length c = length A) (feature_columns d A).
Proof.
  unfold feature_columns. split; [rewrite length_map, length_seq; reflexivity|].
  apply Forall_map, Forall_forall. intros j _. unfold column. apply length_map.
Qed.

(** Every least-squares problem of consistent shape has a solution of
    minimum norm. *)
Lemma min_norm_least_squares_exists (d : nat) A b :
  A <> [] -> Forall (fun r => length r = d) A -> length b = length A ->
  exists w, is_min_norm_least_squares A b w.
Proof.
  intros Hne HA Hb.
  assert (Hn : n_cols A = d).
  { destruct A as [|r A']; [contradiction|]. apply Forall_inv in HA. exact HA. }
  destruct (normal_equations_solvable d A b HA Hb) as (w0 & Hw0 & O0).
  destruct (transpose_shape d A) as (HlT & HT).
  set (T := feature_columns d A) in *.
  destruct (normal_equations_solvable (length A) T w0 HT ltac:(lia))
    as (u & Hu & Ou).
  set (h := mulv T u).
  assert (Hh : length h = d) by (unfold h; rewrite length_mulv; exact HlT).
  (* [A h = A w0] *)
  assert (HAh : mulv A h = mulv A w0).
  { apply vsub_zeros_eq; [rewrite !length_mulv; reflexivity|].
    rewrite <- (mulv_vsub d A h w0) by assumption.
    rewrite length_mulv. rewrite <- (length_mulv A (vsub h w0)).
    apply dot_self_zero.
    rewrite <- (transpose_adjoint d A (mulv A (vsub h w0)) (vsub h w0))
      by (rewrite ?length_mulv, ?length_vsub; try assumption; lia).
    apply Ou. apply length_mulv. }
  assert (Oh : forall v', length v' = d -> dot (mulv A v') (vsub (mulv A h) b) = 0).
  { intros v' Hv'. rewrite HAh. apply O0. exact Hv'. }
  exists h. split.
  - apply (normal_equations_least_squares d); assumption.
  - intros v [Hv Hvmin]. rewrite Hn in Hv.
    assert (Hker : mulv A (vsub v h) = zeros (length A)).
    { rewrite <- (length_mulv A (vsub v h)). apply dot_self_zero.
      pose proof (ssr_around_solution d A b h v HA Hb Hh Hv Oh) as Hpyth.
      pose proof (Hvmin h ltac:(lia)) as Hle.
      pose proof (dot_self_nonneg (mulv A (vsub v h))). lra. }
    assert (Horth : dot h (vsub v h) = 0).
    { change (dot (mulv (feature_columns d A) u) (vsub v h) = 0).
      rewrite (transpose_adjoint d A u (vsub v h))
        by (rewrite ?length_vsub; try assumption; lia).
      rewrite Hker. apply dot_zeros_r. }
    rewrite <- (vadd_vsub_back v h) at 1 2 by lia.
    rewrite dot_vadd_self by (rewrite length_vsub; lia).
    rewrite Horth. pose proof (dot_self_nonneg (vsub v h)). lra.
Qed.

End LinearAlgebra.

(** ** The fitted pipeline minimises the squared residuals *)

Section PipelineOLS.
Local Open Scope R_scope.

Lemma lstsq_min_norm (d : nat) (A : list (list R)) (b : list R) :
  A <> [] -> Forall (fun r => length r = d) A -> length b = length A ->
  is_min_norm_least_squares A b (lstsq A b).
Proof.
  intros Hne HA Hb.
  apply (epsilon_spec (inhabits []) (is_min_norm_least_squares A b)).
  eapply min_norm_least_squares_exists; eassumption.
Qed.

Lemma centred_problem_shape (X : list (list R)) (y : list R) (d : nat) :
  check_array X = Ok d -> length y = length X ->
  fst (centred_problem X y d) <> []
  /\ Forall (fun r => length r = d) (fst (centred_problem X y d))
  /\ length (snd (centred_problem X y d)) = length (fst (centred_problem X y d)).
Proof.
  intros Hd Hy. apply check_array_ok in Hd as (Hne & _ & Hall).
  unfold centred_problem, center_rows. cbn [fst snd].
  split; [destruct X; [contradiction|discriminate]|].
  split; [|rewrite !length_map; exact Hy].
  apply Forall_map. eapply Forall_impl; [exact Hall|].
  intros r Hr. cbn beta in Hr. unfold compose.
  rewrite length_zip_with, length_feature_stats. lia.
Qed.

(** On the training set, no linear model on the polynomial terms, with
    any intercept, has a smaller sum of squared residuals than the fitted
    pipeline. *)
Lemma pipeline_least_squares (degree : nat) (X : list (list R)) (y : list R)
    (d : nat) :
  check_array X = Ok d -> length y = length X ->
  exists p y_hat,
    pipeline_fit (Pipeline degree) X y = Ok p
    /\ pipeline_predict p X = Ok y_hat
    /\ forall (beta : list R) (c : R),
         length beta = length (combinations d degree) ->
         fsum (zip_with (fun p a => fsquare (p - a)) y_hat y)
         <= fsum (zip_with (fun x a => fsquare (dot (poly_row degree x) beta + c - a)) X y).
Proof.
  intros Hd Hy.
  destruct (pipeline_fit_total (Pipeline degree) X y d Hd Hy)
    as (sc & m & Hfit & Hsc & HXS & Hlin & Hcoef & Hint).
  cbn [poly_degree Pipeline] in *.
  assert (Hex : is_min_norm_least_squares
                  (fst (centred_problem (map (scale_row sc) (map (poly_row degree) X)) y
                          (length (combinations d degree))))
                  (snd (centred_problem (map (scale_row sc) (map (poly_row degree) X)) y
                          (length (combinations d degree))))
                  (coef_ m)).
  { rewrite Hcoef.
    destruct (centred_problem_shape _ y _ HXS) as (Hne & Hall & Hlen);
      [rewrite !length_map; exact Hy|].
    eapply lstsq_min_norm; eassumption. }
  set (P := map (poly_row degree) X) in *.
  set (S := map (scale_row sc) P) in *.
  set (d' := length (combinations d degree)) in *.
  set (o := map fmean (feature_columns d' S)) in *.
  destruct Hex as [[Hlenw Hls] _].
  pose proof (check_array_ok _ _ Hd) as (HXne & Hdpos & HXall).
  pose proof (check_array_ok _ _ HXS) as (HSne & Hd'pos & HSall).
  destruct (scaler_fit_ok _ _ Hsc) as (d'' & HdP & _ & _ & _ & Hlm & Hls').
  pose proof (check_array_poly degree X d Hd) as HXP. fold P d' in HXP.
  rewrite HXP in HdP. injection HdP as <-.
  assert (Hlo : length o = d') by apply length_feature_stats.
  assert (Hncols : n_cols (fst (centred_problem S y d')) = d').
  { unfold centred_problem, center_rows. cbn [fst]. fold o.
    destruct S as [|r S'] eqn:ES; [contradiction|]. cbn [map n_cols].
    apply Forall_inv in HSall. rewrite length_zip_with. lia. }
  rewrite Hncols in Hlenw, Hls.
  eexists _, _. split; [exact Hfit|]. split.
  { unfold pipeline_predict, poly_transform.
    cbn [poly_degree poly_n_features_in pipe_scaler pipe_model].
    rewrite Hd. cbn [bind]. rewrite Nat.eqb_refl. cbn [bind]. fold P.
    unfold scaler_transform. rewrite HXP. cbn [bind].
    rewrite Hlm, Nat.eqb_refl. cbn [bind]. fold S.
    unfold linreg_predict. rewrite HXS. cbn [bind].
    rewrite Hlenw, Nat.eqb_refl. reflexivity. }
  intros beta c Hbeta.
  set (ybar := fmean y) in *.
  set (v := zip_with Rmult beta (scale_ sc)).
  set (q := zip_with Rplus (zip_with Rmult (scale_ sc) o) (mean_ sc)).
  set (k := dot q beta + c - ybar).
  set (Srow := fun x : list R => scale_row sc (poly_row degree x)).
  set (Crow := fun x : list R => zip_with Rminus (Srow x) o).
  set (u := fun (x : list R) (a : R) => dot (Crow x) v - (a - ybar)).
  assert (HSrow : forall x, In x X -> length (Srow x) = d').
  { intros x Hin. unfold Srow. apply length_scale_row; try assumption.
    rewrite length_poly_row. rewrite Forall_forall in HXall.
    rewrite (HXall x) by (apply list_elem_of_In; exact Hin). reflexivity. }
  assert (Hssr : forall w,
             ssr (fst (centred_problem S y d')) (snd (centred_problem S y d')) w
             = fsum (zip_with (fun x a => fsquare (dot (Crow x) w - (a - ybar))) X y)).
  { intros w. unfold ssr, centred_problem, center_rows. cbn [fst snd].
    fold o ybar. unfold S, P. rewrite !map_map.
    rewrite zip_with_map_l, zip_with_map_r. reflexivity. }
  (* the pipeline's residuals are those of the centred problem *)
  assert (Hlhs : fsum (zip_with (fun p a => fsquare (p - a))
                         (map (fun r => dot r (coef_ m) + intercept_ m) S) y)
                 = ssr (fst (centred_problem S y d')) (snd (centred_problem S y d'))
                       (coef_ m)).
  { rewrite Hssr. unfold S, P. rewrite !map_map, zip_with_map_l. f_equal.
    apply zip_with_ext_in. intros x a Hin. f_equal.
    unfold Crow. rewrite dot_minus_l by (rewrite HSrow by exact Hin; lia).
    rewrite Hint. fold o ybar. unfold Srow. cbn [fsub exactR]. lra. }
  (* the competitor's residuals are shifted residuals of the centred problem *)
  assert (Hrhs : fsum (zip_with (fun x a => fsquare (dot (poly_row degree x) beta + c - a)) X y)
                 = fsum (map (fun t => fsquare (t + k)) (zip_with u X y))).
  { rewrite map_zip_with. f_equal. apply zip_with_ext_in. intros x a Hin.
    f_equal. unfold u, k, Crow, Srow, scale_row, v, q.
    assert (Hx : length (poly_row degree x) = d').
    { rewrite length_poly_row. rewrite Forall_forall in HXall.
      rewrite (HXall x) by (apply list_elem_of_In; exact Hin). reflexivity. }
    rewrite (row_decomposition (poly_row degree x) (mean_ sc) (scale_ sc) o beta)
      by (try lia; eapply scale_nonzero; exact Hsc).
    change (@fsub R exactR) with Rminus. change (@fdiv R exactR) with Rdiv.
    lra. }
  assert (Hv : length v = d').
  { unfold v. rewrite length_zip_with. lia. }
  assert (Hu0 : fsum (zip_with u X y) = 0).
  { unfold u. rewrite (fsum_zip_minus (fun x => dot (Crow x) v) (fun a => a - ybar))
      by (symmetry; exact Hy).
    assert (Hyne : y <> []).
    { destruct y; [|discriminate]. destruct X; [contradiction|discriminate]. }
    unfold ybar. rewrite fsum_centered by exact Hyne.
    assert (E : map (fun x => dot (Crow x) v) X
                = map (fun t => t - dot o v) (map (fun x => dot (Srow x) v) X)).
    { rewrite map_map. apply map_ext_in. intros x Hin. unfold Crow.
      apply dot_minus_l. rewrite HSrow by exact Hin. lia. }
    rewrite E, fsum_map_minus, length_map.
    unfold o. rewrite (dot_column_means d' S v HSall).
    unfold S, P. rewrite !map_map, !length_map. fold Srow.
    assert (0 < INR (length X)).
    { apply lt_0_INR. destruct X; [contradiction|cbn; lia]. }
    change (fun x : list R => dot (scale_row sc (poly_row degree x)) v)
      with (fun x : list R => dot (Srow x) v).
    generalize dependent (fsum (map (fun x : list R => dot (Srow x) v) X)).
    intros T. generalize dependent (INR (length X)). intros n Hn.
    field. lra. }
  eapply Rle_trans; [apply Req_le; exact Hlhs|].
  rewrite Hrhs.
  apply Rle_trans with (fsum (map fsquare (zip_with u X y))).
  - specialize (Hls v Hv). rewrite (Hssr v) in Hls.
    rewrite map_zip_with. exact Hls.
  - apply fsum_square_shift_le. exact Hu0.
Qed.
End PipelineOLS.

Lemma rank_deficient_single : rank_deficient (map (poly_row 2) X_single).
Proof.
  exists [1; -1; 0; 0; 0; 0; 0; 0; 0; 0]%R.
  split; [reflexivity|]. split.
  - apply Exists_cons_hd. lra.
  - repeat constructor. unfold dot, fsum, poly_row.
    cbn [combinations combinations_with_replacement seq map concat app length
         monomial nth zip_with fold_right fadd fmul fone fzero exactR].
    lra.
Qed.

(** C4, as stated, fails: the ten polynomial terms of the single sample
    of [X_single] are linearly dependent, and the fit returns a model all
    the same, with the minimum-norm coefficients (all zero) and the target
    as intercept. *)
Lemma rank_deficient_fit_succeeds :
  rank_deficient (map (poly_row 2) X_single)
  /\ exists p m,
       pipeline_fit (Pipeline 2) X_single y_single = Ok p
       /\ pipe_model p = Some m
       /\ coef_ m = zeros 10
       /\ intercept_ m = 5%R.
Proof.
  split; [exact rank_deficient_single|].
  destruct (pipeline_fit_total (Pipeline 2) X_single y_single 3 eq_refl eq_refl)
    as (sc & m & Hfit & Hsc & _ & _ & Hcoef & Hint).
  eexists _, m. split; [exact Hfit|]. split; [reflexivity|].
  cbn [poly_degree Pipeline] in *.
  change (map (poly_row 2) X_single) with [poly_row 2 [1; 2; 3]%R] in *.
  cbn [map] in Hcoef, Hint.
  rewrite (scale_single_row _ _ Hsc) in Hcoef, Hint.
  change (length (poly_row 2 [1; 2; 3]%R)) with 10%nat in *.
  change (length (combinations 3 2)) with (length (zeros 10)) in *.
  unfold y_single in Hcoef, Hint.
  rewrite (centred_single_row (zeros 10) 5) in Hcoef. cbn [fst snd] in Hcoef.
  rewrite length_zeros in Hcoef. rewrite lstsq_zero_row in Hcoef.
  split; [exact Hcoef|].
  rewrite Hint, Hcoef. rewrite feature_means_single.
  change (@dot R exactR) with (@dot R exactR). rewrite dot_zeros_l.
  unfold y_single. rewrite fmean_singleton. cbn. lra.
Qed.

(** ** The bias column *)

Section BiasColumn.
Local Open Scope R_scope.

Lemma poly_row_bias (degree : nat) (r : list R) :
  nth 0 (poly_row degree r) 0 = 1.
Proof. reflexivity. Qed.

Lemma fmean_constant (c : R) (l : list R) :
  l <> [] -> Forall (fun x => x = c) l -> fmean l = c.
Proof.
  intros Hne Hall. rewrite fmean_R.
  assert (E : fsum l = INR (length l) * c).
  { induction Hall as [|x l -> _ IH]; [cbn; lra|].
    rewrite fsum_cons. destruct l as [|y l].
    - cbn. lra.
    - rewrite IH by discriminate.
      change (length (c :: y :: l)) with (S (length (y :: l))).
      rewrite S_INR. lra. }
  rewrite E. pose proof (INR_length_pos l Hne). field. lra.
Qed.

(** The bias column of the expanded features is constant, so the
    pipeline's scaler maps it to zeros and the centred matrix that the
    solver receives has a zero first column: its columns are linearly
    dependent in every fit. *)
Lemma centred_design_rank_deficient (degree : nat) (X : list (list R))
    (y : list R) (d : nat) (sc : scaler_params R) :
  check_array X = Ok d ->
  scaler_fit (map (poly_row degree) X) = Ok sc ->
  rank_deficient
    (fst (centred_problem (map (scale_row sc) (map (poly_row degree) X)) y
            (length (combinations d degree)))).
Proof.
  intros Hd Hsc.
  set (P := map (poly_row degree) X) in *.
  set (d' := length (combinations d degree)).
  pose proof (check_array_poly degree X d Hd) as HP. fold P d' in HP.
  pose proof (length_combinations_pos d degree) as Hpos. fold d' in Hpos.
  destruct (scaler_fit_ok _ _ Hsc) as (d'' & HdP & _ & _ & _ & Hlm & Hls).
  rewrite HP in HdP. injection HdP as <-.
  assert (HS : check_array (map (scale_row sc) P) = Ok d').
  { eapply check_array_map; [exact HP|exact Hpos|].
    intros r Hr. apply length_scale_row; assumption. }
  set (S := map (scale_row sc) P) in *.
  pose proof (check_array_ok _ _ HP) as (HPne & _ & HPall).
  pose proof (check_array_ok _ _ HS) as (HSne & _ & HSall).
  (* the scaled bias column is zero *)
  assert (Hcol0 : Forall (fun x => x = 0) (column 0 S)).
  { unfold S. rewrite (column_scaled P sc d' 0 Hsc HP Hpos).
    assert (Hones : Forall (fun x => x = 1) (column 0 P)).
    { unfold column, P. rewrite map_map. apply Forall_map, Forall_forall.
      intros r _. apply poly_row_bias. }
    assert (Hcne : column 0 P <> []).
    { unfold column. destruct P; [contradiction|discriminate]. }
    rewrite (fmean_constant 1 (column 0 P) Hcne Hones).
    apply Forall_map. eapply Forall_impl; [exact Hones|].
    intros x ->. unfold compose. cbn [fsub fdiv exactR]. unfold Rdiv. lra. }
  assert (Ho0 : nth 0 (map fmean (feature_columns d' S)) 0 = 0).
  { unfold feature_columns. rewrite map_map.
    rewrite (nth_map_seq (fun j => fmean (column j S))) by exact Hpos.
    apply fmean_constant; [|exact Hcol0].
    unfold column. destruct S; [contradiction|discriminate]. }
  exists (1 :: zeros (d' - 1)). split; [|split].
  - unfold centred_problem, center_rows. cbn [fst].
    destruct S as [|r S'] eqn:ES; [contradiction|]. cbn [map n_cols length].
    apply Forall_inv in HSall.
    rewrite length_zip_with, length_feature_stats, length_zeros. lia.
  - apply Exists_cons_hd. lra.
  - unfold centred_problem, center_rows. cbn [fst].
    apply Forall_map. rewrite Forall_forall in HSall.
    apply Forall_forall. intros r Hin. unfold compose.
    pose proof (HSall r Hin) as Hr.
    assert (Hr0 : nth 0 r 0 = 0).
    { rewrite Forall_forall in Hcol0. apply Hcol0. unfold column.
      apply list_elem_of_In, in_map_iff. exists r. split; [reflexivity|].
      apply list_elem_of_In. exact Hin. }
    destruct r as [|x r]; [cbn in Hr; lia|].
    destruct (map fmean (feature_columns d' S)) as [|o0 o] eqn:Eo.
    { pose proof (length_feature_stats fmean d' S) as Hl. rewrite Eo in Hl.
      cbn in Hl. lia. }
    cbn [nth] in Hr0, Ho0. subst x o0.
    cbn [zip_with]. rewrite dot_cons, dot_zeros_r. cbn [fsub exactR]. lra.
Qed.

End BiasColumn.

(** [check_array] raises nothing but [ValueError]. *)
Lemma check_array_raise {F : Type} `{Num F} (X : list (list F)) (e : error) :
  check_array X = Raise e -> e = ValueError.
Proof.
  unfold check_array. destruct X as [|r X]; [intros [= <-]; reflexivity|].
  destruct ((0 <? length r) && forallb _ (r :: X)); [discriminate|].
  intros [= <-]. reflexivity.
Qed.

Lemma pipeline_fit_raise {F : Type} `{Num F} `{Solver F} (degree : nat)
    (X : list (list F)) (y : list F) (e : error) :
  pipeline_fit (Pipeline degree) X y = Raise e ->
  e = ValueError
  /\ (check_array X = Raise ValueError \/ length y <> length X).
Proof.
  intros Hfit. destruct (check_array X) as [d|e'] eqn:Hd.
  - destruct (Nat.eq_dec (length y) (length X)) as [Hy|Hy].
    + destruct (pipeline_fit_total (Pipeline degree) X y d Hd Hy)
        as (sc & m & Hok & _). rewrite Hok in Hfit. discriminate.
    + split; [|right; exact Hy].
      revert Hfit. unfold pipeline_fit, poly_fit, poly_transform.
      rewrite Hd. cbn [bind]. rewrite Nat.eqb_refl. cbn [bind].
      cbn [poly_degree Pipeline].
      set (XP := map (poly_row degree) X).
      pose proof (check_array_poly degree X d Hd) as HXP. fold XP in HXP.
      destruct (scaler_fit_checked XP _ HXP) as (sc & Hsc & Hlm & Hls).
      rewrite Hsc. cbn [bind]. unfold scaler_transform. rewrite HXP.
      cbn [bind]. rewrite Hlm, Nat.eqb_refl. cbn [bind].
      assert (HXS : check_array (map (scale_row sc) XP)
                    = Ok (length (combinations d degree))).
      { eapply check_array_map; [exact HXP|apply length_combinations_pos|].
        intros r Hr. apply length_scale_row; assumption. }
      unfold linreg_fit. rewrite HXS. cbn [bind].
      destruct (length y =? length (map (scale_row sc) XP)); [discriminate|].
      cbn [bind]. intros [= <-]. reflexivity.
  - pose proof (check_array_raise X e' Hd) as ->.
    split; [|left; reflexivity].
    revert Hfit. unfold pipeline_fit, poly_fit. rewrite Hd. cbn [bind].
    intros [= <-]. reflexivity.
Qed.

(** A training set of two samples with a constant feature: its ten
    polynomial terms are linearly dependent (two equations, ten
    unknowns; the bias is half the constant feature). *)
Lemma rank_deficient_const : rank_deficient (map (poly_row 2) X_const).
Proof.
  exists [2; 0; -1; 0; 0; 0; 0; 0; 0; 0]%R.
  split; [reflexivity|]. split.
  - apply Exists_cons_hd. lra.
  - repeat constructor; unfold dot, fsum, poly_row;
      cbn [combinations combinations_with_replacement seq map concat app length
           monomial nth zip_with fold_right fadd fmul fone fzero exactR];
      lra.
Qed.

(** C4 (amended). Over the reals, where the shape is all that [fit]
    validates: a rank-deficient matrix of polynomial terms does not make
    the fit fail.  On a training set of consistent shape (at least one
    sample and one feature, rectangular, as many targets as samples)
    whose polynomial terms are linearly dependent, [pipeline.fit] returns
    a fitted pipeline, and its coefficients are the minimum-norm
    minimiser of the centred sum of squared residuals. *)
Theorem rank_deficient_fit_is_min_norm :
  forall (degree : nat) (X : list (list R)) (y : list R) (d : nat),
    check_array X = Ok d -> length y = length X ->
    rank_deficient (map (poly_row degree) X) ->
    exists sc m,
      pipeline_fit (Pipeline degree) X y
      = Ok (PipelineObj degree (Some d) (Some sc) (Some m))
      /\ is_min_norm_least_squares
           (fst (centred_problem (map (scale_row sc) (map (poly_row degree) X)) y
                   (length (combinations d degree))))
           (snd (centred_problem (map (scale_row sc) (map (poly_row degree) X)) y
                   (length (combinations d degree))))
           (coef_ m).
Proof.
  intros degree X y d Hd Hy _.
  destruct (pipeline_fit_total (Pipeline degree) X y d Hd Hy)
    as (sc & m & Hfit & Hsc & HXS & Hlin & Hcoef & Hint).
  cbn [poly_degree Pipeline] in *.
  exists sc, m. split; [exact Hfit|].
  rewrite Hcoef.
  destruct (centred_problem_shape _ y _ HXS) as (Hne & Hall & Hlen);
    [rewrite !length_map; exact Hy|].
  eapply lstsq_min_norm; eassumption.
Qed.

Lemma rank_deficient_fit_is_min_norm_witness :
  exists sc m,
    pipeline_fit (Pipeline 2) X_const [1; 4]%R
    = Ok (PipelineObj 2 (Some 3) (Some sc) (Some m))
    /\ is_min_norm_least_squares
         (fst (centred_problem (map (scale_row sc) (map (poly_row 2) X_const))
                 [1; 4]%R (length (combinations 3 2))))
         (snd (centred_problem (map (scale_row sc) (map (poly_row 2) X_const))
                 [1; 4]%R (length (combinations 3 2))))
         (coef_ m).
Proof.
  apply (rank_deficient_fit_is_min_norm 2 X_const [1; 4]%R 3);
    [reflexivity|reflexivity|exact rank_deficient_const].
Defined.

(** The ten polynomial terms of degree at most 2 of three features. *)
Lemma poly_row_degree_2 {F : Type} `{Num F} (x y z : F) :
  poly_row 2 [x; y; z]
  = [fone; x; y; z; fmul x x; fmul x y; fmul x z; fmul y y; fmul y z; fmul z z].
Proof. reflexivity. Qed.

(** C6. The pipeline expands three features into the ten terms 1, x, y,
    z, x^2, xy, xz, y^2, yz, z^2, in this order, and is fitted against
    one target column at a time.  Over the reals the fit is an ordinary
    least-squares fit on these terms: on the training set its predictions
    have the smallest sum of squared residuals among all linear models
    with intercept on the ten terms. *)
Theorem polynomial_least_squares_fit :
  (forall (F : Type) (NF : Num F) (x y z : F),
      poly_row 2 [x; y; z]
      = [fone; x; y; z; fmul x x; fmul x y; fmul x z; fmul y y; fmul y z; fmul z z])
  /\ (forall (F : Type) (NF : Num F) (MF : Missing F) (SF : Solver F)
             (X_train Y_train Y_train' : frame F) (target : string),
        get_column Y_train target = get_column Y_train' target ->
        fitted_for 2 X_train Y_train target = fitted_for 2 X_train Y_train' target)
  /\ (forall (X : list (list R)) (y : list R),
        check_array X = Ok 3 -> length y = length X ->
        exists p y_hat,
          pipeline_fit (Pipeline 2) X y = Ok p
          /\ pipeline_predict p X = Ok y_hat
          /\ forall (beta : list R) (c : R),
               length beta = 10 ->
               (fsum (zip_with (fun p a => fsquare (p - a)%R) y_hat y)
                <= fsum (zip_with
                           (fun x a => fsquare (dot (poly_row 2 x) beta + c - a)%R)
                           X y))%R).
Proof.
  split; [|split].
  - intros F NF x y z. apply poly_row_degree_2.
  - intros F NF MF SF X_train Y_train Y_train' target Hcol.
    unfold fitted_for. rewrite Hcol. reflexivity.
  - intros X y Hd Hy. apply (pipeline_least_squares 2 X y 3 Hd Hy).
Qed.

Lemma polynomial_least_squares_fit_witness :
  (fitted_for 2 Demo.F_train
     (Frame target_labels [[Demo.f 1; Demo.f 2; Demo.f 3];
                           [Demo.f 4; Demo.f 5; Demo.f 6]]) "x_future"
   = fitted_for 2 Demo.F_train
       (Frame target_labels [[Demo.f 1; Demo.f 7; Demo.f 8];
                             [Demo.f 4; Demo.f 9; Demo.f 0]]) "x_future")
  /\ exists p y_hat,
       pipeline_fit (Pipeline 2) X_const [1; 4]%R = Ok p
       /\ pipeline_predict p X_const = Ok y_hat
       /\ forall (beta : list R) (c : R),
            length beta = 10 ->
            (fsum (zip_with (fun p a => fsquare (p - a)%R) y_hat [1; 4]%R)
             <= fsum (zip_with
                        (fun x a => fsquare (dot (poly_row 2 x) beta + c - a)%R)
                        X_const [1; 4]%R))%R.
Proof.
  destruct polynomial_least_squares_fit as (_ & Htarget & Hfit).
  split.
  - apply (Htarget B64.t binary64 binary64_missing example_solver Demo.F_train).
    reflexivity.
  - apply (Hfit X_const [1; 4]%R); reflexivity.
Defined.

(** ** Objects and cells *)

Section CellFacts.
Context {F : Type} `{Num F} `{Missing F} `{Solver F} `{Integrator F} `{Rng}.
Local Open Scope result_scope.

Lemma bindM_lift {A B : Type} (r : result A) (k : A -> M F B) (w : world F) :
  bindM (lift r) k w = match r with Ok a => k a w | Raise e => Raise e end.
Proof. unfold bindM, lift. destruct r; reflexivity. Qed.

Lemma fresh_not_in (h : gmap loc (obj F)) (l : loc) (o : obj F) :
  h !! l = Some o -> fresh (dom h) <> l.
Proof.
  intros Hl E. apply (is_fresh (dom h)). rewrite E.
  apply elem_of_dom. eauto.
Qed.

(** The scaling lines of cell 30, in one step. *)
Lemma scale_cell_run (X_train X_test : list (list F)) (w : world F) :
  scale_cell X_train X_test w
  = (let* p := scaler_fit X_train in
     let* a := scaler_transform (Some p) X_train in
     let* b := scaler_transform (Some p) X_test in
     let l := fresh (dom (heap w)) in
     Ok ((l, a, b), World (global_rng w) (<[l := OScaler (Some p)]> (heap w)))).
Proof.
  unfold scale_cell, StandardScaler, fit_transform_at, transform_at, bindM,
    alloc, load, store, lift, ret, raise.
  cbn [heap global_rng]. rewrite lookup_insert_eq.
  destruct (scaler_fit X_train) as [p|e]; [|reflexivity].
  cbn [bind heap global_rng]. rewrite insert_insert_eq.
  destruct (scaler_transform (Some p) X_train) as [a|e]; [|reflexivity].
  cbn [bind heap global_rng]. rewrite lookup_insert_eq.
  destruct (scaler_transform (Some p) X_test) as [b|e]; reflexivity.
Qed.

Lemma scale_cell_ok (X_train X_test a b : list (list F)) (w w' : world F)
    (sc : loc) :
  scale_cell X_train X_test w = Ok ((sc, a, b), w') ->
  exists p,
    scaler_fit X_train = Ok p
    /\ heap w' !! sc = Some (OScaler (Some p))
    /\ a = map (scale_row p) X_train
    /\ b = map (scale_row p) X_test.
Proof.
  rewrite scale_cell_run.
  destruct (scaler_fit X_train) as [p|e]; [|discriminate]. cbn [bind].
  destruct (scaler_transform (Some p) X_train) as [a'|e] eqn:Ea; [|discriminate].
  cbn [bind].
  destruct (scaler_transform (Some p) X_test) as [b'|e] eqn:Eb; [|discriminate].
  cbn [bind]. intros [= <- <- <- <-]. exists p.
  split; [reflexivity|]. split; [cbn [heap]; apply lookup_insert_eq|].
  split; eapply scaler_transform_rows; eassumption.
Qed.

Lemma rmse_at_run (y_true a : list F) (y_hat : loc) (w : world F) :
  heap w !! y_hat = Some (OArray a) ->
  rmse_at y_true y_hat w
  = match rmse y_true a with Ok e => Ok (e, w) | Raise e => Raise e end.
Proof.
  intros Hl. unfold rmse_at, load_array, bindM, load, lift, ret.
  rewrite Hl. reflexivity.
Qed.

Lemma zip_with_square_sym `{!SquareSym F} (a b : list F) :
  zip_with (fun x y => fsquare (fsub x y)) a b
  = zip_with (fun y x => fsquare (fsub y x)) b a.
Proof.
  revert b. induction a as [|x a IH]; intros [|y b]; try reflexivity.
  cbn [zip_with]. rewrite IH, (fsquare_sub_sym x y). reflexivity.
Qed.

Lemma pipeline_fit_resets (p : pipeline_obj F) (X : list (list F)) (y : list F) :
  pipeline_fit p X y = pipeline_fit (Pipeline (poly_degree p)) X y.
Proof. reflexivity. Qed.

Lemma pipeline_fit_degree (p p' : pipeline_obj F) (X : list (list F))
    (y : list F) :
  pipeline_fit p X y = Ok p' -> poly_degree p' = poly_degree p.
Proof.
  unfold pipeline_fit.
  destruct (poly_fit X) as [n|e]; [|discriminate]. cbn [bind].
  destruct (poly_transform _ _ X) as [XP|e]; [|discriminate]. cbn [bind].
  destruct (scaler_fit XP) as [sc|e]; [|discriminate]. cbn [bind].
  destruct (scaler_transform _ XP) as [XS|e]; [|discriminate]. cbn [bind].
  destruct (linreg_fit XS y) as [m|e]; [|discriminate]. cbn [bind].
  intros [= <-]. reflexivity.
Qed.

(** One regression cell, in one step. *)
Lemma regression_cell_run (pipeline : loc) (p : pipeline_obj F)
    (X_train X_test Y_train Y_test : frame F) (target : string) (w : world F) :
  heap w !! pipeline = Some (OPipeline p) ->
  regression_cell pipeline X_train X_test Y_train Y_test target w
  = (let* y_train := get_column Y_train target in
     let* p' := pipeline_fit p (rows X_train) y_train in
     let* y_hat := pipeline_predict p' (rows X_test) in
     let* y_test := get_column Y_test target in
     let* e := rmse y_test y_hat in
     Ok ((cell_loc w pipeline p', e), cell_world w pipeline p' y_hat)).
Proof.
  intros Hp.
  unfold regression_cell, pipeline_fit_at, pipeline_predict_at, rmse_at,
    load_array, bindM, alloc, load, store, lift, ret, raise.
  destruct (get_column Y_train target) as [y_train|e]; [|reflexivity].
  cbn [bind]. rewrite Hp.
  destruct (pipeline_fit p (rows X_train) y_train) as [p'|e]; [|reflexivity].
  cbn [bind heap global_rng]. rewrite lookup_insert_eq.
  destruct (pipeline_predict p' (rows X_test)) as [y_hat|e]; [|reflexivity].
  cbn [bind heap global_rng].
  destruct (get_column Y_test target) as [y_test|e]; [|reflexivity].
  cbn [bind heap global_rng]. rewrite lookup_insert_eq.
  destruct (rmse y_test y_hat) as [e|e]; reflexivity.
Qed.

Lemma cell_loc_fresh (w : world F) (pipeline : loc) (p' : pipeline_obj F)
    (l : loc) :
  l = pipeline \/ is_Some (heap w !! l) -> cell_loc w pipeline p' <> l.
Proof.
  intros Hl E. apply (is_fresh (dom (<[pipeline := OPipeline p']> (heap w)))).
  fold (cell_loc w pipeline p'). rewrite E.
  apply elem_of_dom. destruct Hl as [->|Hl].
  - rewrite lookup_insert_eq. eauto.
  - destruct (decide (pipeline = l)) as [->|Hne].
    + rewrite lookup_insert_eq. eauto.
    + rewrite lookup_insert_ne by exact Hne. exact Hl.
Qed.

Lemma cell_world_pipeline (w : world F) (pipeline : loc)
    (p' : pipeline_obj F) (y_hat : list F) :
  heap (cell_world w pipeline p' y_hat) !! pipeline = Some (OPipeline p').
Proof.
  cbn [cell_world heap].
  rewrite lookup_insert_ne by (apply cell_loc_fresh; left; reflexivity).
  apply lookup_insert_eq.
Qed.

Lemma cell_world_array (w : world F) (pipeline : loc)
    (p' : pipeline_obj F) (y_hat : list F) :
  heap (cell_world w pipeline p' y_hat) !! cell_loc w pipeline p'
  = Some (OArray y_hat).
Proof. cbn [cell_world heap]. apply lookup_insert_eq. Qed.

(** Whatever was in the heap, apart from the pipeline, is still there. *)
Lemma cell_world_frame (w : world F) (pipeline : loc)
    (p' : pipeline_obj F) (y_hat : list F) (l : loc) (o : obj F) :
  heap w !! l = Some o -> l <> pipeline ->
  heap (cell_world w pipeline p' y_hat) !! l = Some o.
Proof.
  intros Hl Hne. cbn [cell_world heap].
  rewrite lookup_insert_ne by (apply cell_loc_fresh; right; eauto).
  rewrite lookup_insert_ne by (intros E; apply Hne; symmetry; exact E).
  exact Hl.
Qed.

Lemma regression_cell_steps (pipeline : loc) (p : pipeline_obj F)
    (X_train X_test Y_train Y_test : frame F) (target : string) (w : world F) :
  heap w !! pipeline = Some (OPipeline p) ->
  match target_report (poly_degree p) X_train X_test Y_train Y_test target with
  | Ok (a, e) =>
      exists p', poly_degree p' = poly_degree p
        /\ regression_cell pipeline X_train X_test Y_train Y_test target w
            = Ok ((cell_loc w pipeline p', e), cell_world w pipeline p' a)
        /\ fitted_for (poly_degree p) X_train Y_train target = Ok p'
  | Raise err =>
      regression_cell pipeline X_train X_test Y_train Y_test target w = Raise err
  end.
Proof.
  intros Hp. erewrite regression_cell_run by exact Hp.
  unfold target_report, fit_predict, fitted_for.
  destruct (get_column Y_train target) as [y_train|e]; [|reflexivity].
  cbn [bind]. rewrite <- pipeline_fit_resets.
  destruct (pipeline_fit p (rows X_train) y_train) as [p'|e] eqn:Efit;
    [|reflexivity].
  cbn [bind].
  destruct (pipeline_predict p' (rows X_test)) as [y_hat|e]; [|reflexivity].
  cbn [bind].
  destruct (get_column Y_test target) as [y_test|e]; [|reflexivity].
  cbn [bind].
  destruct (rmse y_test y_hat) as [e|e]; [|reflexivity].
  cbn [bind]. exists p'. split; [|split; reflexivity].
  eapply pipeline_fit_degree. exact Efit.
Qed.

Lemma load_array_run (l : loc) (a : list F) (w : world F) :
  heap w !! l = Some (OArray a) -> load_array l w = Ok (a, w).
Proof.
  intros Hl. unfold load_array, bindM, load, ret. rewrite Hl. reflexivity.
Qed.

(** Cells 34 to 36 on one pipeline object compute what three freshly
    constructed pipelines would, leave the object fitted for [z], and
    touch nothing else that was in the heap. *)
Lemma regression_cells_on_run (pipeline : loc) (p : pipeline_obj F)
    (X_train X_test Y_train Y_test : frame F) (w : world F) :
  heap w !! pipeline = Some (OPipeline p) ->
  match regression_spec (poly_degree p) X_train X_test Y_train Y_test with
  | Ok rep =>
      exists w' p3,
        regression_cells_on pipeline X_train X_test Y_train Y_test w = Ok (rep, w')
        /\ fitted_for (poly_degree p) X_train Y_train "z_future"%string = Ok p3
        /\ heap w' !! pipeline = Some (OPipeline p3)
        /\ (forall l o, heap w !! l = Some o -> l <> pipeline ->
                        heap w' !! l = Some o)
  | Raise err =>
      regression_cells_on pipeline X_train X_test Y_train Y_test w = Raise err
  end.
Proof.
  intros Hp. unfold regression_cells_on, regression_spec, bindM.
  pose proof (regression_cell_steps pipeline p X_train X_test Y_train Y_test
                "x_future"%string w Hp) as Sx.
  destruct (target_report (poly_degree p) X_train X_test Y_train Y_test
              "x_future"%string) as [[ax ex]|err];
    [destruct Sx as (p1 & D1 & Rx & Fx)|];
    (cbn [bind]; rewrite ?Rx, ?Sx; cbv beta iota); [|reflexivity].
  set (w1 := cell_world w pipeline p1 ax).
  assert (Hp1 : heap w1 !! pipeline = Some (OPipeline p1))
    by apply cell_world_pipeline.
  pose proof (regression_cell_steps pipeline p1 X_train X_test Y_train Y_test
                "y_future"%string w1 Hp1) as Sy.
  rewrite D1 in Sy.
  destruct (target_report (poly_degree p) X_train X_test Y_train Y_test
              "y_future"%string) as [[ay ey]|err];
    [destruct Sy as (p2 & D2 & Ry & Fy)|];
    (cbn [bind]; rewrite ?Ry, ?Sy; cbv beta iota); [|reflexivity].
  set (w2 := cell_world w1 pipeline p2 ay).
  assert (Hp2 : heap w2 !! pipeline = Some (OPipeline p2))
    by apply cell_world_pipeline.
  pose proof (regression_cell_steps pipeline p2 X_train X_test Y_train Y_test
                "z_future"%string w2 Hp2) as Sz.
  rewrite D2 in Sz.
  destruct (target_report (poly_degree p) X_train X_test Y_train Y_test
              "z_future"%string) as [[az ez]|err];
    [destruct Sz as (p3 & D3 & Rz & Fz)|];
    (cbn [bind]; rewrite ?Rz, ?Sz; cbv beta iota); [|reflexivity].
  set (w3 := cell_world w2 pipeline p3 az).
  assert (Hx1 : heap w1 !! cell_loc w pipeline p1 = Some (OArray ax))
    by apply cell_world_array.
  assert (Hy2 : heap w2 !! cell_loc w1 pipeline p2 = Some (OArray ay))
    by apply cell_world_array.
  assert (Hz3 : heap w3 !! cell_loc w2 pipeline p3 = Some (OArray az))
    by apply cell_world_array.
  assert (Nx : cell_loc w pipeline p1 <> pipeline)
    by (apply cell_loc_fresh; left; reflexivity).
  assert (Ny : cell_loc w1 pipeline p2 <> pipeline)
    by (apply cell_loc_fresh; left; reflexivity).
  assert (Hx3 : heap w3 !! cell_loc w pipeline p1 = Some (OArray ax)).
  { apply cell_world_frame; [|exact Nx]. apply cell_world_frame; assumption. }
  assert (Hy3 : heap w3 !! cell_loc w1 pipeline p2 = Some (OArray ay)).
  { apply cell_world_frame; assumption. }
  exists w3, p3. split; [|split; [|split]].
  - unfold read_report, bindM.
    erewrite load_array_run by exact Hx3.
    erewrite load_array_run by exact Hy3.
    erewrite load_array_run by exact Hz3.
    reflexivity.
  - exact Fz.
  - apply cell_world_pipeline.
  - intros l o Hl Hne. repeat apply cell_world_frame; assumption.
Qed.

Lemma regression_cells_on_value (pipeline : loc) (p : pipeline_obj F)
    (X_train X_test Y_train Y_test : frame F) (w : world F) :
  heap w !! pipeline = Some (OPipeline p) ->
  value (regression_cells_on pipeline X_train X_test Y_train Y_test w)
  = regression_spec (poly_degree p) X_train X_test Y_train Y_test.
Proof.
  intros Hp.
  pose proof (regression_cells_on_run pipeline p X_train X_test Y_train
                Y_test w Hp) as Hrun.
  destruct (regression_spec (poly_degree p) X_train X_test Y_train Y_test)
    as [rep|err].
  - destruct Hrun as (w' & p3 & -> & _). reflexivity.
  - rewrite Hrun. reflexivity.
Qed.

Lemma new_pipeline_run (degree : nat) (w : world F) :
  new_pipeline degree w
  = Ok (fresh (dom (heap w)),
        World (global_rng w)
          (<[fresh (dom (heap w)) := OPipeline (Pipeline degree)]> (heap w))).
Proof. reflexivity. Qed.

Lemma regression_cells_value (degree : nat)
    (X_train X_test Y_train Y_test : frame F) (w : world F) :
  value (regression_cells degree X_train X_test Y_train Y_test w)
  = regression_spec degree X_train X_test Y_train Y_test.
Proof.
  unfold regression_cells. unfold bindM at 1. rewrite new_pipeline_run.
  apply (regression_cells_on_value _ (Pipeline degree)).
  cbn [heap]. apply lookup_insert_eq.
Qed.

Lemma alloc_frame (w : world F) (o' o : obj F) (l : loc) :
  heap w !! l = Some o ->
  <[fresh (dom (heap w)) := o']> (heap w) !! l = Some o.
Proof.
  intros Hl. rewrite lookup_insert_ne; [exact Hl|].
  eapply fresh_not_in. exact Hl.
Qed.

Lemma regression_cells_independent_value (degree : nat)
    (X_train X_test Y_train Y_test : frame F) (w : world F) :
  value (regression_cells_independent degree X_train X_test Y_train Y_test w)
  = regression_spec degree X_train X_test Y_train Y_test.
Proof.
  unfold regression_cells_independent, regression_spec.
  (* x *)
  unfold bindM at 1. rewrite new_pipeline_run.
  set (px := fresh (dom (heap w))).
  set (v0 := World (global_rng w) _).
  assert (Hpx : heap v0 !! px = Some (OPipeline (Pipeline degree)))
    by (cbn [heap]; apply lookup_insert_eq).
  pose proof (regression_cell_steps px (Pipeline degree) X_train X_test
                Y_train Y_test "x_future"%string v0 Hpx) as Sx.
  cbn [poly_degree Pipeline] in Sx.
  destruct (target_report degree X_train X_test Y_train Y_test
              "x_future"%string) as [[ax ex]|err];
    [destruct Sx as (p1 & D1 & Rx & Fx)|];
    (unfold bindM at 1; rewrite ?Rx, ?Sx); [|reflexivity].
  cbn [bind].
  set (w1 := cell_world v0 px p1 ax).
  assert (Hx1 : heap w1 !! cell_loc v0 px p1 = Some (OArray ax))
    by apply cell_world_array.
  (* y *)
  unfold bindM at 1. rewrite new_pipeline_run.
  set (py := fresh (dom (heap w1))).
  set (v1 := World (global_rng w1) _).
  assert (Hpy : heap v1 !! py = Some (OPipeline (Pipeline degree)))
    by (cbn [heap]; apply lookup_insert_eq).
  assert (Hxv1 : heap v1 !! cell_loc v0 px p1 = Some (OArray ax))
    by (cbn [heap]; apply alloc_frame; exact Hx1).
  pose proof (regression_cell_steps py (Pipeline degree) X_train X_test
                Y_train Y_test "y_future"%string v1 Hpy) as Sy.
  cbn [poly_degree Pipeline] in Sy.
  destruct (target_report degree X_train X_test Y_train Y_test
              "y_future"%string) as [[ay ey]|err];
    [destruct Sy as (p2 & D2 & Ry & Fy)|];
    (unfold bindM at 1; rewrite ?Ry, ?Sy); [|reflexivity].
  cbn [bind].
  set (w2 := cell_world v1 py p2 ay).
  assert (Hy2 : heap w2 !! cell_loc v1 py p2 = Some (OArray ay))
    by apply cell_world_array.
  assert (Hx2 : heap w2 !! cell_loc v0 px p1 = Some (OArray ax)).
  { apply cell_world_frame; [exact Hxv1|].
    intros E. rewrite E, Hpy in Hxv1. discriminate. }
  (* z *)
  unfold bindM at 1. rewrite new_pipeline_run.
  set (pz := fresh (dom (heap w2))).
  set (v2 := World (global_rng w2) _).
  assert (Hpz : heap v2 !! pz = Some (OPipeline (Pipeline degree)))
    by (cbn [heap]; apply lookup_insert_eq).
  assert (Hxv2 : heap v2 !! cell_loc v0 px p1 = Some (OArray ax))
    by (cbn [heap]; apply alloc_frame; exact Hx2).
  assert (Hyv2 : heap v2 !! cell_loc v1 py p2 = Some (OArray ay))
    by (cbn [heap]; apply alloc_frame; exact Hy2).
  pose proof (regression_cell_steps pz (Pipeline degree) X_train X_test
                Y_train Y_test "z_future"%string v2 Hpz) as Sz.
  cbn [poly_degree Pipeline] in Sz.
  destruct (target_report degree X_train X_test Y_train Y_test
              "z_future"%string) as [[az ez]|err];
    [destruct Sz as (p3 & D3 & Rz & Fz)|];
    (unfold bindM at 1; rewrite ?Rz, ?Sz); [|reflexivity].
  cbn [bind].
  set (w3 := cell_world v2 pz p3 az).
  assert (Hz3 : heap w3 !! cell_loc v2 pz p3 = Some (OArray az))
    by apply cell_world_array.
  assert (Hx3 : heap w3 !! cell_loc v0 px p1 = Some (OArray ax)).
  { apply cell_world_frame; [exact Hxv2|].
    intros E. rewrite E, Hpz in Hxv2. discriminate. }
  assert (Hy3 : heap w3 !! cell_loc v1 py p2 = Some (OArray ay)).
  { apply cell_world_frame; [exact Hyv2|].
    intros E. rewrite E, Hpz in Hyv2. discriminate. }
  unfold read_report.
  unfold bindM at 1. erewrite load_array_run by exact Hx3.
  unfold bindM at 1. erewrite load_array_run by exact Hy3.
  unfold bindM at 1. erewrite load_array_run by exact Hz3.
  reflexivity.
Qed.

(** A later regression cell leaves every array that is already in the
    heap as it is. *)
Lemma regression_cell_keeps_arrays (pipeline : loc) (p : pipeline_obj F)
    (X_train X_test Y_train Y_test : frame F) (target : string)
    (w w' : world F) (r : loc * F) (l : loc) (a : list F) :
  heap w !! pipeline = Some (OPipeline p) ->
  heap w !! l = Some (OArray a) ->
  regression_cell pipeline X_train X_test Y_train Y_test target w = Ok (r, w') ->
  heap w' !! l = Some (OArray a).
Proof.
  intros Hp Hl. erewrite regression_cell_run by exact Hp.
  destruct (get_column Y_train target) as [y_train|e]; [|discriminate].
  cbn [bind].
  destruct (pipeline_fit p (rows X_train) y_train) as [p'|e]; [|discriminate].
  cbn [bind].
  destruct (pipeline_predict p' (rows X_test)) as [y_hat|e]; [|discriminate].
  cbn [bind].
  destruct (get_column Y_test target) as [y_test|e]; [|discriminate].
  cbn [bind].
  destruct (rmse y_test y_hat) as [e|e]; [|discriminate].
  cbn [bind]. intros [= <- <-].
  apply cell_world_frame; [exact Hl|].
  intros E. rewrite E, Hp in Hl. discriminate.
Qed.

(** With an integer seed the split does not read the global generator
    and leaves the world as it is. *)
Lemma train_test_split_seeded {A B : Type} (X : list A) (Y : list B)
    (test_size : nat * nat) (seed : Z) (w : world F) :
  train_test_split X Y test_size (Some seed) w
  = match split_spec X Y test_size seed with
    | Ok r => Ok (r, w)
    | Raise e => Raise e
    end.
Proof.
  unfold train_test_split, split_spec.
  destruct (negb (length Y =? length X)); [reflexivity|].
  destruct (negb ((0 <? fst test_size) && (fst test_size <? snd test_size)));
    [reflexivity|].
  destruct (length X - n_test_of (length X) test_size =? 0); [reflexivity|].
  unfold bindM at 1. unfold draw_permutation at 1.
  rewrite !bindM_lift.
  destruct (safe_indexing X _) as [a|e]; [|reflexivity].
  cbn [bind]. rewrite !bindM_lift.
  destruct (safe_indexing X _) as [b|e]; [|reflexivity].
  cbn [bind]. rewrite !bindM_lift.
  destruct (safe_indexing Y _) as [c|e]; [|reflexivity].
  cbn [bind]. rewrite !bindM_lift.
  destruct (safe_indexing Y _) as [d|e]; reflexivity.
Qed.

(** The run computes [notebook_spec], whatever the world it starts in. *)
Lemma notebook_value (w : world F) : value (notebook w) = notebook_spec.
Proof.
  unfold notebook, notebook_spec.
  rewrite bindM_lift. destruct solve as [sol|e]; [|reflexivity]. cbn [bind].
  rewrite bindM_lift.
  destruct (build_dataset sol t_grid) as [df|e]; [|reflexivity]. cbn [bind].
  rewrite bindM_lift. destruct (features df) as [X|e]; [|reflexivity].
  cbn [bind].
  rewrite bindM_lift. destruct (targets df) as [Y|e]; [|reflexivity].
  cbn [bind].
  unfold bindM at 1. rewrite train_test_split_seeded.
  destruct (split_spec (rows X) (rows Y) (1, 5) 42)
    as [[[[Xtr Xte] Ytr] Yte]|e]; [|reflexivity].
  cbn [bind]. unfold bindM at 1. rewrite scale_cell_run.
  destruct (scaler_fit Xtr) as [sc|e]; [|reflexivity]. cbn [bind].
  destruct (scaler_transform (Some sc) Xtr) as [a|e]; [|reflexivity].
  cbn [bind].
  destruct (scaler_transform (Some sc) Xte) as [b|e]; [|reflexivity].
  cbn [bind]. cbv zeta.
  set (scaler := fresh (dom (heap w))).
  set (w1 := World (global_rng w) _).
  assert (Hsc : heap w1 !! scaler = Some (OScaler (Some sc)))
    by (cbn [heap]; apply lookup_insert_eq).
  rewrite bindM_lift.
  destruct (DataFrame a feature_labels) as [X_train|e]; [|reflexivity].
  cbn [bind]. rewrite bindM_lift.
  destruct (DataFrame b feature_labels) as [X_test|e]; [|reflexivity].
  cbn [bind]. rewrite bindM_lift.
  destruct (select (Frame (columns Y) Ytr) target_labels) as [Y_train|e];
    [|reflexivity].
  cbn [bind]. rewrite bindM_lift.
  destruct (select (Frame (columns Y) Yte) target_labels) as [Y_test|e];
    [|reflexivity].
  cbn [bind]. unfold bindM at 1. rewrite new_pipeline_run.
  set (pipeline := fresh (dom (heap w1))).
  set (w2 := World (global_rng w1) _).
  assert (Hpl : heap w2 !! pipeline = Some (OPipeline (Pipeline 2)))
    by (cbn [heap]; apply lookup_insert_eq).
  assert (Hsc2 : heap w2 !! scaler = Some (OScaler (Some sc)))
    by (cbn [heap]; apply alloc_frame; exact Hsc).
  assert (Hne : scaler <> pipeline).
  { intros E. rewrite E, Hpl in Hsc2. discriminate. }
  pose proof (regression_cells_on_run pipeline (Pipeline 2) X_train X_test
                Y_train Y_test w2 Hpl) as Hrun.
  cbn [poly_degree Pipeline] in Hrun.
  unfold bindM at 1.
  destruct (regression_spec 2 X_train X_test Y_train Y_test) as [rep|e].
  - destruct Hrun as (w3 & p3 & -> & -> & Hp3 & Hframe). cbn [bind].
    specialize (Hframe scaler _ Hsc2 Hne).
    unfold bindM, load, ret. rewrite Hframe, Hp3. reflexivity.
  - rewrite Hrun. reflexivity.
Qed.

End CellFacts.

(** C3. Two runs of the scaling lines of cell 30 on the same training
    partition and any two evaluation partitions (from any two worlds) leave
    the scaler with the same parameters, the ones [fit] computes from the
    training partition alone: its column means, variances and scales.  Both
    partitions are transformed with these parameters, row by row, as
    [(x - mean_) / scale_]. *)
Theorem scaler_fitted_on_training_only :
  forall (F : Type) (NF : Num F) (RG : Rng)
         (w1 w2 w1' w2' : world F)
         (X_train X_test1 X_test2 a1 b1 a2 b2 : list (list F)) (sc1 sc2 : loc),
    scale_cell X_train X_test1 w1 = Ok ((sc1, a1, b1), w1') ->
    scale_cell X_train X_test2 w2 = Ok ((sc2, a2, b2), w2') ->
    exists (p : scaler_params F) (d : nat),
      scaler_fit X_train = Ok p
      /\ heap w1' !! sc1 = Some (OScaler (Some p))
      /\ heap w2' !! sc2 = Some (OScaler (Some p))
      /\ check_array X_train = Ok d
      /\ mean_ p = map fmean (feature_columns d X_train)
      /\ var_ p = map fvar (feature_columns d X_train)
      /\ scale_ p = zip_with (scale_of (length X_train)) (var_ p) (mean_ p)
      /\ a1 = map (scale_row p) X_train /\ a2 = a1
      /\ b1 = map (scale_row p) X_test1
      /\ b2 = map (scale_row p) X_test2.
Proof.
  intros F NF RG w1 w2 w1' w2' X_train X_test1 X_test2 a1 b1 a2 b2 sc1 sc2 R1 R2.
  apply scale_cell_ok in R1 as (p & Hp & Hh1 & -> & ->).
  apply scale_cell_ok in R2 as (p' & Hp' & Hh2 & -> & ->).
  rewrite Hp in Hp'. injection Hp' as <-.
  pose proof Hp as Hfit. unfold scaler_fit in Hp.
  destruct (check_array X_train) as [d|e]; [|discriminate].
  cbn [bind] in Hp. exists p, d. injection Hp as <-.
  cbn [mean_ var_ scale_]. repeat split; try assumption; reflexivity.
Qed.

Lemma scaler_fitted_on_training_only_witness :
  exists (p : scaler_params B64.t) (d : nat),
    scaler_fit Demo.X_train = Ok p
    /\ heap Demo.w1 !! 0 = Some (OScaler (Some p))
    /\ heap Demo.w1 !! 0 = Some (OScaler (Some p))
    /\ check_array Demo.X_train = Ok d
    /\ mean_ p = map fmean (feature_columns d Demo.X_train)
    /\ var_ p = map fvar (feature_columns d Demo.X_train)
    /\ scale_ p = zip_with (scale_of (length Demo.X_train)) (var_ p) (mean_ p)
    /\ [[Demo.f (-1)]; [Demo.f 1]] = map (scale_row p) Demo.X_train
    /\ [[Demo.f (-1)]; [Demo.f 1]] = [[Demo.f (-1)]; [Demo.f 1]]
    /\ [[Demo.f 0]] = map (scale_row p) Demo.X_test1
    /\ [[Demo.f 3]] = map (scale_row p) Demo.X_test2.
Proof.
  apply (scaler_fitted_on_training_only B64.t binary64 example_rng
           Demo.w0 Demo.w0 Demo.w1 Demo.w1
           Demo.X_train Demo.X_test1 Demo.X_test2
           [[Demo.f (-1)]; [Demo.f 1]] [[Demo.f 0]]
           [[Demo.f (-1)]; [Demo.f 1]] [[Demo.f 3]] 0 0);
    vm_compute; reflexivity.
Defined.

(** The sum of the squared errors, written with the functions of the
    Standard Library. *)
Lemma squared_errors_sum (actual pred : list R) :
  fsum (zip_with (fun a p => fsquare (fsub a p)) actual pred)
  = fold_right Rplus 0%R
      (map (fun pa => ((fst pa - snd pa) ^ 2)%R) (combine pred actual)).
Proof.
  revert pred. induction actual as [|a actual IH]; intros [|p pred];
    try reflexivity.
  cbn [zip_with combine map fold_right fst snd]. rewrite fsum_cons, IH.
  unfold fsquare. cbn [fmul fsub exactR]. ring.
Qed.



(** In the example the two predictions 1 and 2 against the targets 1
    and 4 give the error [sqrt 2]. *)
Example rmse_of_the_example :
  rmse_at [1; 4]%R 0 w_pred_real = Ok (sqrt 2, w_pred_real).
Proof.
  erewrite rmse_at_run by reflexivity.
  unfold rmse, mean_squared_error. cbn [length Nat.eqb Nat.ltb Nat.leb andb bind].
  f_equal. f_equal. rewrite fmean_R, squared_errors_sum. cbn. f_equal. field.
Qed.

(** C10. Cells 34 to 36 refit one pipeline object for the three targets.
    From any world they report the same three prediction arrays and the
    same three errors as the cells run with one new pipeline per target,
    namely what a freshly constructed pipeline, fitted once, predicts for
    each target.  A fit ignores whatever an earlier fit left in the
    object, and a later cell leaves the arrays already predicted as they
    are. *)
Theorem refit_equals_independent_pipelines :
  forall (F : Type) (NF : Num F) (MF : Missing F) (SF : Solver F) (RG : Rng)
         (degree : nat) (X_train X_test Y_train Y_test : frame F),
    (forall w w' : world F,
        value (regression_cells degree X_train X_test Y_train Y_test w)
        = value (regression_cells_independent degree X_train X_test Y_train Y_test w'))
    /\ (forall w : world F,
          value (regression_cells degree X_train X_test Y_train Y_test w)
          = regression_spec degree X_train X_test Y_train Y_test)
    /\ (forall (p : pipeline_obj F) (X : list (list F)) (y : list F),
          pipeline_fit p X y = pipeline_fit (Pipeline (poly_degree p)) X y)
    /\ (forall (w w' : world F) (pipeline l : loc) (p : pipeline_obj F)
               (target : string) (r : loc * F) (a : list F),
          heap w !! pipeline = Some (OPipeline p) ->
          heap w !! l = Some (OArray a) ->
          regression_cell pipeline X_train X_test Y_train Y_test target w = Ok (r, w') ->
          heap w' !! l = Some (OArray a)).
Proof.
  intros F NF MF SF RG degree X_train X_test Y_train Y_test.
  split; [|split; [|split]].
  - intros w w'.
    rewrite regression_cells_value, regression_cells_independent_value.
    reflexivity.
  - intros w. apply regression_cells_value.
  - intros p X y. apply pipeline_fit_resets.
  - intros w w' pipeline l p target r a Hp Hl Hrun.
    eapply regression_cell_keeps_arrays; eassumption.
Qed.

Lemma refit_equals_independent_pipelines_witness :
  value (regression_cells 2 Demo.F_train Demo.F_test Demo.T_train
           Demo.T_test Demo.w0)
  = value (regression_cells_independent 2 Demo.F_train Demo.F_test
             Demo.T_train Demo.T_test Demo.w_pipe)
  /\ exists r w',
      regression_cell 0 Demo.F_train Demo.F_test Demo.T_train
        Demo.T_test "x_future" Demo.w_pipe = Ok (r, w')
      /\ heap w' !! 1 = Some (OArray [Demo.f 7]).
Proof.
  destruct (refit_equals_independent_pipelines B64.t binary64
              binary64_missing example_solver example_rng 2
              Demo.F_train Demo.F_test Demo.T_train Demo.T_test)
    as (Hsame & _ & _ & Hkeep).
  split; [apply Hsame|].
  destruct (regression_cell 0 Demo.F_train Demo.F_test Demo.T_train
              Demo.T_test "x_future" Demo.w_pipe) as [[r w']|e] eqn:Hrun;
    [|vm_compute in Hrun; discriminate Hrun].
  exists r, w'. split; [reflexivity|].
  apply (Hkeep Demo.w_pipe w' 0 1 (Pipeline 2) "x_future"%string r
           [Demo.f 7]); [vm_compute; reflexivity|vm_compute; reflexivity|exact Hrun].
Defined.

(** C5. A run of the notebook computes the same report from any two
    worlds, that is, whatever the state of NumPy's global random generator
    and whatever objects exist already: the same trajectory, the same
    training and evaluation rows, the same fitted scaler and pipeline, the
    same predictions and errors.  The split with [random_state=42] draws
    its permutation from a generator seeded with 42, never from the global
    one, and leaves the world unchanged. *)
Theorem notebook_is_deterministic :
  forall (F : Type) (NF : Num F) (MF : Missing F) (SF : Solver F)
         (IF : Integrator F) (RG : Rng),
    (forall w1 w2 : world F, value (notebook w1) = value (notebook w2))
    /\ (forall w : world F, value (notebook w) = notebook_spec)
    /\ (forall (A B : Type) (X : list A) (Y : list B) (w : world F),
          train_test_split X Y (1, 5) (Some 42%Z) w
          = match split_spec X Y (1, 5) 42%Z with
            | Ok r => Ok (r, w)
            | Raise e => Raise e
            end).
Proof.
  intros F NF MF SF IF RG. split; [|split].
  - intros w1 w2. rewrite !notebook_value. reflexivity.
  - apply notebook_value.
  - intros A B X Y w. apply train_test_split_seeded.
Qed.

(** * Further properties of the notebook's code *)

(** ** The vector field over the reals *)

Section LorenzReal.
Local Open Scope R_scope.

(** X1. The rest points of the vector field: for [sigma] and [beta]
    other than zero, [lorenz] returns the zero vector exactly at the
    origin and at the states with [y = x], [z = rho - 1] and
    [x^2 = beta (rho - 1)]. *)
Theorem lorenz_fixed_points :
  forall (x y z t sigma rho beta : R),
    sigma <> 0 -> beta <> 0 ->
    (lorenz [x; y; z] t sigma rho beta = Ok [0; 0; 0]
     <-> (x = 0 /\ y = 0 /\ z = 0)
         \/ (y = x /\ z = rho - 1 /\ x * x = beta * (rho - 1))).
Proof.
  intros x y z t sigma rho beta Hs Hb. unfold lorenz.
  cbn [fmul fsub exactR]. split.
  - intros [= E1 E2 E3].
    assert (Hy : y = x) by nra. subst y.
    assert (Hx : x * (rho - 1 - z) = 0) by lra.
    apply Rmult_integral in Hx as [Hx|Hz].
    + left. subst x. split; [reflexivity|split; [reflexivity|]].
      assert (E : beta * z = 0) by lra.
      apply Rmult_integral in E as [E|E]; [contradiction|exact E].
    + right. split; [reflexivity|]. assert (z = rho - 1) by lra. subst z.
      split; [reflexivity|lra].
  - intros [(-> & -> & ->)|(-> & -> & E)]; f_equal;
      repeat (apply (f_equal2 cons); [nra|]); reflexivity.
Qed.

Lemma lorenz_fixed_points_witness :
  lorenz [0; 0; 0] 0 10 28 (22 / 10) = Ok [0; 0; 0]
  <-> (0 = 0 /\ 0 = 0 /\ 0 = 0)
      \/ (0 = 0 /\ 0 = 28 - 1 /\ 0 * 0 = 22 / 10 * (28 - 1)).
Proof. apply (lorenz_fixed_points 0 0 0 0 10 28 (22 / 10)); lra. Defined.

(** X2. The symmetry of the vector field: reflecting a state through the
    z axis reflects its derivative through the z axis. *)
Theorem lorenz_symmetry :
  forall (x y z t sigma rho beta : R),
    exists dx dy dz,
      lorenz [x; y; z] t sigma rho beta = Ok [dx; dy; dz]
      /\ lorenz [- x; - y; z] t sigma rho beta = Ok [- dx; - dy; dz].
Proof.
  intros x y z t sigma rho beta. unfold lorenz. cbn [fmul fsub exactR].
  eexists _, _, _. split; [reflexivity|].
  f_equal. repeat (apply (f_equal2 cons); [ring|]). reflexivity.
Qed.

(** X3. Each component of the vector field is a linear combination of
    the ten polynomial terms of degree at most 2 that the regression
    pipeline of cell 34 builds from a state. *)
Theorem lorenz_linear_in_polynomial_features :
  forall (x y z t sigma rho beta : R),
    lorenz [x; y; z] t sigma rho beta
    = Ok [dot (poly_row 2 [x; y; z]) [0; - sigma; sigma; 0; 0; 0; 0; 0; 0; 0];
          dot (poly_row 2 [x; y; z]) [0; rho; -1; 0; 0; 0; -1; 0; 0; 0];
          dot (poly_row 2 [x; y; z]) [0; 0; 0; - beta; 0; 1; 0; 0; 0; 0]].
Proof.
  intros x y z t sigma rho beta. rewrite poly_row_degree_2.
  unfold lorenz, dot, fsum.
  cbn [zip_with fold_right fadd fmul fsub fone fzero exactR].
  f_equal. repeat (apply (f_equal2 cons); [ring|]). reflexivity.
Qed.

End LorenzReal.

(** ** The time grid *)

Section LinspaceFacts.
Local Open Scope R_scope.

Lemma length_linspace {F : Type} `{Num F} (start stop : F) (num : nat) :
  length (linspace start stop num) = num.
Proof.
  destruct num as [|[|div]]; [reflexivity|reflexivity|].
  unfold linspace. cbv zeta. rewrite length_app, length_map, length_seq. cbn. lia.
Qed.

Lemma nth_linspace (start stop : R) (num i : nat) :
  (2 <= num)%nat -> (i < num)%nat ->
  nth i (linspace start stop num) 0
  = start + INR i * ((stop - start) / INR (num - 1)).
Proof.
  intros Hnum Hi. destruct num as [|[|div]]; [lia|lia|].
  unfold linspace. cbv zeta. replace (S (S div) - 1)%nat with (S div) by lia.
  assert (Hd : INR (S div) <> 0) by (apply not_0_INR; lia).
  destruct (Nat.eq_dec i (S div)) as [->|Hne].
  - rewrite app_nth2 by (rewrite length_map, length_seq; lia).
    rewrite length_map, length_seq, Nat.sub_diag. cbn [nth].
    generalize dependent (INR (S div)). intros d Hd. field. exact Hd.
  - rewrite app_nth1 by (rewrite length_map, length_seq; lia).
    rewrite nth_map_seq by lia.
    destruct (feqb _ _);
      cbn [fof_nat fmul fadd fsub fdiv exactR Nat.add];
      generalize dependent (INR (S div)); intros d Hd; field; exact Hd.
Qed.

(** X4. [np.linspace(start, stop, num)] has [num] samples; over the
    reals they are evenly spaced and run from [start] to [stop], both
    included. *)
Theorem linspace_evenly_spaced :
  forall (start stop : R) (num : nat),
    (2 <= num)%nat ->
    length (linspace start stop num) = num
    /\ nth 0 (linspace start stop num) 0 = start
    /\ nth (num - 1) (linspace start stop num) 0 = stop
    /\ (forall i, (i < num)%nat ->
          nth i (linspace start stop num) 0
          = start + INR i * ((stop - start) / INR (num - 1)))
    /\ (forall i, (S i < num)%nat ->
          nth (S i) (linspace start stop num) 0 - nth i (linspace start stop num) 0
          = (stop - start) / INR (num - 1)).
Proof.
  intros start stop num Hnum.
  assert (Hd : INR (num - 1) <> 0) by (apply not_0_INR; lia).
  split; [apply length_linspace|].
  split; [rewrite nth_linspace by lia; cbn [INR]; ring|].
  split.
  { rewrite nth_linspace by lia.
    generalize dependent (INR (num - 1)). intros d Hd. field. exact Hd. }
  split; [intros i Hi; apply nth_linspace; assumption|].
  intros i Hi. rewrite !nth_linspace by lia. rewrite S_INR. ring.
Qed.

Lemma linspace_evenly_spaced_witness :
  length (linspace 0 1 3) = 3%nat
  /\ nth 0 (linspace 0 1 3) 0 = 0
  /\ nth (3 - 1) (linspace 0 1 3) 0 = 1
  /\ (forall i, (i < 3)%nat ->
        nth i (linspace 0 1 3) 0 = 0 + INR i * ((1 - 0) / INR (3 - 1)))
  /\ (forall i, (S i < 3)%nat ->
        nth (S i) (linspace 0 1 3) 0 - nth i (linspace 0 1 3) 0
        = (1 - 0) / INR (3 - 1)).
Proof. apply (linspace_evenly_spaced 0 1 3). lia. Defined.

(** The grid of cell 5: 3001 samples, sample [i] at time [i / 100]. *)
Lemma t_grid_samples :
  length (@t_grid R _) = 3001%nat
  /\ forall i, (i <= 3000)%nat -> nth i (@t_grid R _) 0 = INR i / 100.
Proof.
  unfold t_grid. split; [apply length_linspace|].
  intros i Hi. rewrite nth_linspace by lia.
  change (3001 - 1)%nat with 3000%nat.
  replace (INR 3000) with 3000 by (rewrite INR_IZR_INZ; reflexivity).
  change (@fzero R exactR) with 0.
  replace (@fof_nat R exactR 30) with 30
    by (cbn [fof_nat exactR]; rewrite INR_IZR_INZ; reflexivity).
  field.
Qed.

End LinspaceFacts.

(** ** The data frame *)

Section FrameFacts.
Context {F : Type} `{Missing F}.

Lemma index_of_lt (l : string) (ls : list string) (j : nat) :
  index_of l ls = Some j -> j < length ls.
Proof.
  revert j. induction ls as [|l' ls IH]; intros j; [discriminate|].
  cbn [index_of]. destruct (String.eqb l l').
  - intros [= <-]. cbn. lia.
  - destruct (index_of l ls) as [j'|]; [|discriminate].
    intros [= <-]. specialize (IH j' eq_refl). cbn. lia.
Qed.

Lemma index_of_nth (l : string) (ls : list string) (j : nat) (d : string) :
  index_of l ls = Some j -> nth j ls d = l.
Proof.
  revert j. induction ls as [|l' ls IH]; intros j; [discriminate|].
  cbn [index_of]. destruct (String.eqb l l') eqn:E.
  - intros [= <-]. apply String.eqb_eq in E. symmetry. exact E.
  - destruct (index_of l ls) as [j'|]; [|discriminate].
    intros [= <-]. cbn [nth]. apply IH. reflexivity.
Qed.

Lemma index_of_None (l : string) (ls : list string) :
  index_of l ls = None <-> ~ In l ls.
Proof.
  induction ls as [|l' ls IH]; [cbn; tauto|].
  cbn [index_of In]. destruct (String.eqb l l') eqn:E.
  - apply String.eqb_eq in E. split; [discriminate|]. intros Hn. exfalso.
    apply Hn. left. symmetry. exact E.
  - apply String.eqb_neq in E.
    destruct (index_of l ls) as [j|]; cbn [option_map].
    + split; [discriminate|]. intros Hn. exfalso.
      assert (Hs : Some j = None) by (apply IH; tauto). discriminate Hs.
    + split; [|reflexivity]. intros _ [Hl|Hl]; [congruence|].
      revert Hl. apply IH. reflexivity.
Qed.

Lemma index_of_inj (l l' : string) (ls : list string) (j : nat) :
  index_of l ls = Some j -> index_of l' ls = Some j -> l = l'.
Proof.
  intros H1 H2. rewrite <- (index_of_nth l ls j EmptyString H1).
  apply (index_of_nth l' ls j EmptyString H2).
Qed.

Lemma index_of_app_l (l : string) (ls ls' : list string) (j : nat) :
  index_of l ls = Some j -> index_of l (ls ++ ls') = Some j.
Proof.
  revert j. induction ls as [|l0 ls IH]; intros j; [discriminate|].
  cbn [index_of app]. destruct (String.eqb l l0); [tauto|].
  destruct (index_of l ls) as [j'|]; [|discriminate].
  intros [= <-]. rewrite (IH j' eq_refl). reflexivity.
Qed.

Lemma index_of_app_r (l : string) (ls ls' : list string) :
  index_of l ls = None ->
  index_of l (ls ++ ls') = option_map (Nat.add (length ls)) (index_of l ls').
Proof.
  induction ls as [|l0 ls IH]; intros Hn.
  - cbn. destruct (index_of l ls'); reflexivity.
  - revert Hn. cbn [index_of app]. destruct (String.eqb l l0); [discriminate|].
    destruct (index_of l ls) as [j'|]; [discriminate|]. intros _.
    rewrite IH by reflexivity. destruct (index_of l ls'); reflexivity.
Qed.

Lemma map_zip_with_snd {A B C : Type} (g : C -> B) (f : A -> B -> C)
    (X : list A) (Y : list B) :
  length Y = length X ->
  (forall x y, In x X -> g (f x y) = y) ->
  map g (zip_with f X Y) = Y.
Proof.
  revert Y. induction X as [|x X IH]; intros [|y Y] Hl Hg; try discriminate;
    [reflexivity|].
  cbn [zip_with map]. f_equal; [apply Hg; left; reflexivity|].
  apply IH; [cbn in Hl; lia|]. intros x' y' Hin. apply Hg. right. exact Hin.
Qed.

Lemma map_zip_with_fst {A B C D : Type} (g : C -> D) (h : A -> D) (f : A -> B -> C)
    (X : list A) (Y : list B) :
  length Y = length X ->
  (forall x y, In x X -> g (f x y) = h x) ->
  map g (zip_with f X Y) = map h X.
Proof.
  revert Y. induction X as [|x X IH]; intros [|y Y] Hl Hg; try discriminate;
    [reflexivity|].
  cbn [zip_with map]. f_equal; [apply Hg; left; reflexivity|].
  apply IH; [cbn in Hl; lia|]. intros x' y' Hin. apply Hg. right. exact Hin.
Qed.

Lemma set_column_ok (df df' : frame F) (label : string) (values : list F) :
  set_column df label values = Ok df' ->
  length values = length (rows df)
  /\ match index_of label (columns df) with
     | Some j => df' = Frame (columns df)
                         (zip_with (fun r v => <[j := v]> r) (rows df) values)
     | None => df' = Frame (columns df ++ [label])
                       (zip_with (fun r v => r ++ [v]) (rows df) values)
     end.
Proof.
  unfold set_column. destruct (length values =? length (rows df)) eqn:E;
    [|discriminate].
  apply Nat.eqb_eq in E. intros Hset. split; [exact E|].
  destruct (index_of label (columns df)); injection Hset as <-; reflexivity.
Qed.

Lemma indices_of_ok (labels all : list string) :
  Forall (fun l => In l all) labels ->
  exists js, indices_of labels all = Ok js
             /\ length js = length labels
             /\ forall k l, nth_error labels k = Some l ->
                  exists j, nth_error js k = Some j /\ index_of l all = Some j.
Proof.
  induction 1 as [|l labels Hl _ (js & E & Hlen & Hk)].
  - exists []. split; [reflexivity|]. split; [reflexivity|].
    intros [|k] l; discriminate.
  - cbn [indices_of]. destruct (index_of l all) as [j|] eqn:Hj.
    2:{ apply index_of_None in Hj. contradiction. }
    rewrite E. cbn [bind]. exists (j :: js). split; [reflexivity|].
    split; [cbn; lia|]. intros [|k] l'; cbn [nth_error].
    + intros [= <-]. exists j. split; [reflexivity|exact Hj].
    + apply Hk.
Qed.

Lemma indices_of_raise (labels all : list string) :
  ~ Forall (fun l => In l all) labels ->
  indices_of labels all = Raise KeyError.
Proof.
  induction labels as [|l labels IH]; intros Hn.
  - exfalso. apply Hn. constructor.
  - cbn [indices_of]. destruct (index_of l all) as [j|] eqn:Hj; [|reflexivity].
    rewrite IH; [reflexivity|]. intros Hall. apply Hn. constructor; [|exact Hall].
    destruct (in_dec string_dec l all) as [Hin|Hnin]; [exact Hin|].
    apply index_of_None in Hnin. congruence.
Qed.

Lemma filter_shifted_rows (traj : list (F * F * F)) (t : list F) :
  List.filter (fun r => forallb (fun c => negb (fisnan c)) r) (shifted_rows traj t)
  = List.filter (fun r => forallb (fun c => negb (fisnan c)) r) (sample_rows traj t).
Proof.
  revert t. induction traj as [|[[x y] z] traj IH]; intros [|ti t];
    try reflexivity.
  cbn [shifted_rows sample_rows]. cbn [List.filter]. rewrite IH.
  destruct traj as [|[[x' y'] z'] traj].
  - rewrite forallb_app. cbn [forallb]. rewrite fisnan_nan. cbn [negb andb].
    rewrite andb_false_r. destruct t; reflexivity.
  - reflexivity.
Qed.

Lemma length_sample_rows (traj : list (F * F * F)) (t : list F) :
  length (sample_rows traj t) <= length traj - 1.
Proof.
  revert t. induction traj as [|s traj IH]; intros [|ti t]; cbn [sample_rows length];
    try lia.
  destruct traj as [|s' traj]; [cbn; lia|].
  cbn [length]. specialize (IH t). cbn [length] in IH. lia.
Qed.

Lemma sample_rows_width (traj : list (F * F * F)) (t : list F) :
  Forall (fun r => length r = 7) (sample_rows traj t).
Proof.
  revert t. induction traj as [|[[x y] z] traj IH]; intros [|ti t];
    cbn [sample_rows]; try constructor.
  destruct traj as [|[[x' y'] z'] traj]; constructor; [reflexivity|apply IH].
Qed.

End FrameFacts.

(** X5. Cell 26 fails exactly on a shape error: when the array is not
    made of rows of three entries, or when the time grid has another
    length than the trajectory.  The error is a [ValueError]; no label
    is ever missing. *)
Theorem build_dataset_shape_errors :
  forall (F : Type) (MF : Missing F) (sol : list (list F)) (t : list F),
    ((Forall (fun r => length r = 3) sol /\ length t = length sol)
     <-> exists df, build_dataset sol t = Ok df)
    /\ (forall e, build_dataset sol t = Raise e -> e = ValueError).
Proof.
  intros F MF sol t.
  destruct (forallb (fun r => length r =? 3) sol) eqn:E.
  - assert (Hshape : Forall (fun r => length r = 3) sol).
    { apply Forall_forall. intros r Hr. rewrite forallb_forall in E.
      apply Nat.eqb_eq. apply E, list_elem_of_In, Hr. }
    destruct (triples_of_rows sol Hshape) as [traj ->].
    destruct (Nat.eq_dec (length t) (length traj)) as [Hlen|Hlen].
    + rewrite build_dataset_shifted by exact Hlen. split; [|discriminate].
      split; [intros _; eexists; reflexivity|].
      intros _. split; [exact Hshape|]. rewrite length_map. exact Hlen.
    + assert (Hr : build_dataset (map state_row traj) t = Raise ValueError).
      { unfold build_dataset, DataFrame.
        change (length ["x"; "y"; "z"]%string) with 3. rewrite E. cbn [bind].
        unfold set_column. cbn [rows columns]. rewrite length_map.
        destruct (length t =? length traj) eqn:El; [|reflexivity].
        apply Nat.eqb_eq in El. contradiction. }
      rewrite Hr. split; [|intros e [= <-]; reflexivity].
      split; [|intros (df & Hdf); discriminate].
      intros [_ Hl]. rewrite length_map in Hl. contradiction.
  - assert (Hr : build_dataset sol t = Raise ValueError).
    { unfold build_dataset, DataFrame.
      change (length ["x"; "y"; "z"]%string) with 3. rewrite E. reflexivity. }
    rewrite Hr. split; [|intros e [= <-]; reflexivity].
    split; [|intros (df & Hdf); discriminate].
    intros [Hshape _]. exfalso.
    assert (Et : forallb (fun r => length r =? 3) sol = true).
    { apply forallb_forall. intros r Hr'. apply Nat.eqb_eq.
      rewrite Forall_forall in Hshape. apply Hshape, list_elem_of_In, Hr'. }
    congruence.
Qed.

(** X6. Whatever the integrator returned, cell 26 keeps exactly the
    samples [(t_i, state_i, state_(i+1))] without a NaN, in their order:
    a NaN in one state removes the sample of that state and the sample
    of the state before it, and nothing else.  Every row that is kept
    has seven cells, none of them NaN. *)
Theorem dataset_keeps_complete_samples :
  forall (F : Type) (MF : Missing F) (traj : list (F * F * F)) (t : list F),
    length t = length traj ->
    exists df,
      build_dataset (map state_row traj) t = Ok df
      /\ columns df = dataset_labels
      /\ rows df
         = List.filter (fun r => forallb (fun c => negb (fisnan c)) r)
             (sample_rows traj t)
      /\ Forall (fun r => length r = 7 /\ no_nan r) (rows df)
      /\ length (rows df) <= length traj - 1.
Proof.
  intros F MF traj t Hlen. rewrite build_dataset_shifted by exact Hlen.
  eexists. split; [reflexivity|]. unfold dropna. cbn [rows columns].
  split; [reflexivity|]. rewrite filter_shifted_rows.
  split; [reflexivity|]. split.
  - apply Forall_forall. intros r Hr.
    apply list_elem_of_In, filter_In in Hr as [Hin Hc]. split.
    + pose proof (sample_rows_width traj t) as Hw.
      rewrite Forall_forall in Hw. apply Hw, list_elem_of_In, Hin.
    + unfold no_nan. apply Forall_forall. intros c Hc'.
      rewrite forallb_forall in Hc. apply list_elem_of_In in Hc'.
      specialize (Hc c Hc'). destruct (fisnan c); [discriminate|reflexivity].
  - etransitivity; [apply filter_length_le|apply length_sample_rows].
Qed.

Lemma dataset_keeps_complete_samples_witness :
  exists df,
    build_dataset
      (map state_row [(Demo.f 1, Demo.f 2, Demo.f 3); (Demo.f 4, B64.nan, Demo.f 6);
                      (Demo.f 7, Demo.f 8, Demo.f 9); (Demo.f 1, Demo.f 1, Demo.f 1)])
      [Demo.f 0; Demo.f 1; Demo.f 2; Demo.f 3] = Ok df
    /\ columns df = dataset_labels
    /\ rows df
       = List.filter (fun r => forallb (fun c => negb (fisnan c)) r)
           (sample_rows
              [(Demo.f 1, Demo.f 2, Demo.f 3); (Demo.f 4, B64.nan, Demo.f 6);
               (Demo.f 7, Demo.f 8, Demo.f 9); (Demo.f 1, Demo.f 1, Demo.f 1)]
              [Demo.f 0; Demo.f 1; Demo.f 2; Demo.f 3])
    /\ Forall (fun r => length r = 7 /\ no_nan r) (rows df)
    /\ length (rows df)
       <= length [(Demo.f 1, Demo.f 2, Demo.f 3); (Demo.f 4, B64.nan, Demo.f 6);
                  (Demo.f 7, Demo.f 8, Demo.f 9); (Demo.f 1, Demo.f 1, Demo.f 1)] - 1.
Proof.
  apply (dataset_keeps_complete_samples B64.t binary64_missing
           [(Demo.f 1, Demo.f 2, Demo.f 3); (Demo.f 4, B64.nan, Demo.f 6);
            (Demo.f 7, Demo.f 8, Demo.f 9); (Demo.f 1, Demo.f 1, Demo.f 1)]
           [Demo.f 0; Demo.f 1; Demo.f 2; Demo.f 3]).
  reflexivity.
Defined.

(** With a NaN in the second of four states only the third sample is
    left. *)
Example dataset_with_a_missing_state :
  option_map (@rows B64.t)
    (match build_dataset
             (map state_row [(Demo.f 1, Demo.f 2, Demo.f 3); (Demo.f 4, B64.nan, Demo.f 6);
                             (Demo.f 7, Demo.f 8, Demo.f 9); (Demo.f 1, Demo.f 1, Demo.f 1)])
             [Demo.f 0; Demo.f 1; Demo.f 2; Demo.f 3] with
     | Ok df => Some df
     | Raise _ => None
     end)
  = Some [[Demo.f 2; Demo.f 7; Demo.f 8; Demo.f 9; Demo.f 1; Demo.f 1; Demo.f 1]].
Proof. vm_compute. reflexivity. Qed.

(** X7. [df[label] = values] followed by [df[label]] gives the values
    back; every other column is as it was, the number of rows is kept
    and the frame stays well formed. *)
Theorem set_column_get_column :
  forall (F : Type) (MF : Missing F) (df df' : frame F) (label : string)
         (values : list F),
    well_formed df ->
    set_column df label values = Ok df' ->
    well_formed df'
    /\ get_column df' label = Ok values
    /\ (forall l, l <> label -> get_column df' l = get_column df l)
    /\ length (rows df') = length (rows df).
Proof.
  intros F MF [cs R] df' label values Hwf Hset.
  apply set_column_ok in Hset as [Hlen Hdf']. unfold well_formed in *.
  cbn [rows columns] in *. rewrite Forall_forall in Hwf.
  assert (HwfIn : forall r, In r R -> length r = length cs).
  { intros r Hr. apply Hwf, list_elem_of_In, Hr. }
  destruct (index_of label cs) as [j|] eqn:Hj; subst df'; cbn [rows columns].
  - pose proof (index_of_lt _ _ _ Hj) as Hjlt.
    split; [|split; [|split]].
    + apply Forall_forall. intros r Hr.
      apply elem_of_zip_with in Hr as (r0 & v & -> & Hr0 & _).
      rewrite length_insert. apply HwfIn, list_elem_of_In, Hr0.
    + unfold get_column. cbn [columns rows]. rewrite Hj. f_equal.
      apply map_zip_with_snd; [exact Hlen|]. intros r v Hr.
      apply nth_lookup_Some, list_lookup_insert_eq.
      rewrite (HwfIn r Hr). exact Hjlt.
    + intros l Hl. unfold get_column. cbn [columns rows].
      destruct (index_of l cs) as [j'|] eqn:Hj'; [|reflexivity]. f_equal.
      apply map_zip_with_fst; [exact Hlen|]. intros r v Hr.
      rewrite !nth_lookup, list_lookup_insert_ne; [reflexivity|].
      intros ->. apply Hl. eapply index_of_inj; eassumption.
    + rewrite length_zip_with. lia.
  - split; [|split; [|split]].
    + apply Forall_forall. intros r Hr.
      apply elem_of_zip_with in Hr as (r0 & v & -> & Hr0 & _).
      apply list_elem_of_In in Hr0.
      rewrite !length_app, (HwfIn r0 Hr0). reflexivity.
    + unfold get_column. cbn [columns rows].
      rewrite index_of_app_r by exact Hj. cbn [index_of].
      rewrite String.eqb_refl. cbn [option_map]. f_equal.
      apply map_zip_with_snd; [exact Hlen|]. intros r v Hr.
      rewrite Nat.add_0_r, <- (HwfIn r Hr). apply nth_middle.
    + intros l Hl. unfold get_column. cbn [columns rows].
      destruct (index_of l cs) as [j'|] eqn:Hj'.
      * rewrite (index_of_app_l _ _ _ _ Hj'). f_equal.
        apply map_zip_with_fst; [exact Hlen|]. intros r v Hr.
        apply app_nth1. rewrite (HwfIn r Hr). eapply index_of_lt, Hj'.
      * rewrite index_of_app_r by exact Hj'. cbn [index_of].
        destruct (String.eqb l label) eqn:E; [|reflexivity].
        apply String.eqb_eq in E. contradiction.
    + rewrite length_zip_with. lia.
Qed.

Lemma set_column_get_column_witness :
  let df := Frame ["x"; "y"; "z"]%string Demo.sol in
  let df' := Frame ["x"; "y"; "z"; "t"]%string
               [[Demo.f 1; Demo.f 2; Demo.f 3; Demo.f 0];
                [Demo.f 4; Demo.f 5; Demo.f 6; Demo.f 1];
                [Demo.f 7; Demo.f 8; Demo.f 9; Demo.f 2]] in
  well_formed df'
  /\ get_column df' "t" = Ok Demo.t
  /\ (forall l, l <> "t"%string -> get_column df' l = get_column df l)
  /\ length (rows df') = length (rows df).
Proof.
  intros df df'.
  apply (set_column_get_column B64.t binary64_missing df df' "t" Demo.t).
  - repeat constructor.
  - reflexivity.
Defined.

(** X8. [df[[l1, ..., lk]]] succeeds exactly when every listed label is
    a column of the frame, and raises [KeyError] otherwise.  The new
    frame has the listed labels, as many rows, is well formed, and each
    of its columns is the column of that label in the old frame. *)
Theorem select_listed_columns :
  forall (F : Type) (MF : Missing F) (df : frame F) (labels : list string),
    (Forall (fun l => In l (columns df)) labels ->
     exists df',
       select df labels = Ok df'
       /\ columns df' = labels
       /\ length (rows df') = length (rows df)
       /\ well_formed df'
       /\ forall l, In l labels -> get_column df' l = get_column df l)
    /\ (~ Forall (fun l => In l (columns df)) labels ->
        select df labels = Raise KeyError).
Proof.
  intros F MF [cs R] labels. cbn [columns]. split.
  - intros Hall. destruct (indices_of_ok labels cs Hall) as (js & E & Hlen & Hk).
    unfold select. cbn [columns rows]. rewrite E. cbn [bind].
    eexists. split; [reflexivity|]. cbn [columns rows].
    split; [reflexivity|]. split; [apply length_map|]. split.
    + unfold well_formed. cbn [rows columns]. apply Forall_map, Forall_forall.
      intros r _. cbn. rewrite length_map. exact Hlen.
    + intros l Hl. unfold get_column. cbn [columns rows].
      destruct (index_of l labels) as [k|] eqn:Hkl.
      2:{ apply index_of_None in Hkl. contradiction. }
      pose proof (index_of_lt _ _ _ Hkl) as Hklt.
      pose proof (index_of_nth _ _ _ EmptyString Hkl) as Hnth.
      destruct (nth_error labels k) as [l'|] eqn:Hne.
      2:{ apply nth_error_None in Hne. lia. }
      pose proof (nth_error_nth _ _ EmptyString Hne) as Hl'.
      rewrite Hnth in Hl'. subst l'.
      destruct (Hk k l Hne) as (j & Hjs & Hj). rewrite Hj. f_equal.
      rewrite map_map. apply map_ext. intros r.
      rewrite (nth_indep _ fnan (nth 0 r fnan)) by (rewrite length_map; lia).
      rewrite (map_nth (fun j => nth j r fnan) js 0 k).
      rewrite (nth_error_nth _ _ 0 Hjs). reflexivity.
  - intros Hn. unfold select. cbn [columns rows].
    rewrite indices_of_raise by exact Hn. reflexivity.
Qed.

(** A label that the frame does not have. *)
Example select_missing_label :
  select (Frame ["x"; "y"; "z"]%string Demo.sol) ["x"; "t"]%string
  = Raise KeyError.
Proof. reflexivity. Qed.

(** ** The split *)

Section IndexingFacts.

Lemma safe_indexing_ok {A : Type} (a : list A) (idx : list nat) :
  Forall (fun i => i < length a) idx ->
  exists xs, safe_indexing a idx = Ok xs
             /\ length xs = length idx
             /\ xs = omap (fun i => a !! i) idx.
Proof.
  induction 1 as [|i idx Hi _ (xs & E & Hl & Hx)].
  - exists []. repeat split.
  - destruct (lookup_lt_is_Some_2 a i Hi) as [x Hxi].
    exists (x :: xs). cbn [safe_indexing omap list_omap]. rewrite Hxi, E. cbn [bind].
    split; [reflexivity|]. split; [cbn; lia|]. rewrite Hx. reflexivity.
Qed.

Lemma safe_indexing_zip {A B : Type} (a : list A) (b : list B) (idx : list nat)
    (xs : list A) (ys : list B) :
  safe_indexing a idx = Ok xs -> safe_indexing b idx = Ok ys ->
  safe_indexing (zip a b) idx = Ok (zip xs ys).
Proof.
  revert xs ys. induction idx as [|i idx IH]; intros xs ys.
  - intros [= <-] [= <-]. reflexivity.
  - cbn [safe_indexing]. destruct (a !! i) as [x|] eqn:Hx; [|discriminate].
    destruct (b !! i) as [y|] eqn:Hy; [|discriminate].
    destruct (safe_indexing a idx) as [xs'|]; [|discriminate].
    destruct (safe_indexing b idx) as [ys'|]; [|discriminate].
    cbn [bind]. intros [= <-] [= <-].
    assert (Hz : zip a b !! i = Some (x, y)).
    { apply lookup_zip_Some. split; assumption. }
    rewrite Hz, (IH xs' ys' eq_refl eq_refl). reflexivity.
Qed.

Lemma omap_lookup_seq {A : Type} (a pre : list A) :
  omap (fun i => (pre ++ a) !! i) (seq (length pre) (length a)) = a.
Proof.
  revert pre. induction a as [|x a IH]; intros pre; [reflexivity|].
  cbn [length seq omap list_omap]. rewrite list_lookup_middle by reflexivity.
  f_equal. specialize (IH (pre ++ [x])).
  rewrite <- app_assoc, length_app, Nat.add_1_r in IH. exact IH.
Qed.

Lemma omap_lookup_all {A : Type} (a : list A) :
  omap (fun i => a !! i) (seq 0 (length a)) = a.
Proof. apply (omap_lookup_seq a []). Qed.

Lemma split_indices (perm : list nat) (n n_test : nat) :
  Permutation perm (seq 0 n) -> n_test <= n ->
  Permutation (take (n - n_test) (drop n_test perm) ++ take n_test perm) (seq 0 n)
  /\ Forall (fun i => i < n) (take (n - n_test) (drop n_test perm))
  /\ Forall (fun i => i < n) (take n_test perm)
  /\ length (take (n - n_test) (drop n_test perm)) = n - n_test
  /\ length (take n_test perm) = n_test.
Proof.
  intros Hp Hle.
  assert (Hlen : length perm = n).
  { rewrite (Permutation_length Hp). apply length_seq. }
  assert (Hall : Forall (fun i => i < n) perm).
  { apply Forall_forall. intros i Hi. rewrite Hp in Hi.
    apply elem_of_seq in Hi. lia. }
  assert (Htk : take (n - n_test) (drop n_test perm) = drop n_test perm).
  { apply take_ge. rewrite length_drop. lia. }
  rewrite Htk. split.
  { rewrite Permutation_app_comm, take_drop. exact Hp. }
  split; [apply Forall_drop; exact Hall|].
  split; [apply Forall_take; exact Hall|].
  split; [rewrite length_drop; lia|rewrite length_take; lia].
Qed.

End IndexingFacts.

Section SplitFacts.
Context {F : Type} `{Rng}.

(** The split on a well-shaped input, with a generator that permutes. *)
Lemma train_test_split_ok {A B : Type} (X : list A) (Y : list B)
    (p q : nat) (seed : Z) (w : world F) :
  length Y = length X ->
  0 < p -> p < q ->
  n_test_of (length X) (p, q) < length X ->
  Permutation (fst (permutation (RandomState seed) (length X)))
              (seq 0 (length X)) ->
  exists X_train X_test Y_train Y_test,
    train_test_split X Y (p, q) (Some seed) w
    = Ok ((X_train, X_test, Y_train, Y_test), w)
    /\ length X_test = n_test_of (length X) (p, q)
    /\ length X_train = length X - n_test_of (length X) (p, q)
    /\ length Y_test = length X_test
    /\ length Y_train = length X_train
    /\ Permutation (X_train ++ X_test) X
    /\ Permutation (Y_train ++ Y_test) Y
    /\ Permutation (zip X_train Y_train ++ zip X_test Y_test) (zip X Y).
Proof.
  intros HY Hp Hq Hn Hperm.
  set (n := length X) in *. set (n_test := n_test_of n (p, q)) in *.
  set (perm := fst (permutation (RandomState seed) n)) in *.
  destruct (split_indices perm n n_test Hperm ltac:(lia))
    as (Hpart & Htr & Hte & Hltr & Hlte).
  assert (HtrY : Forall (fun i => i < length Y) (take (n - n_test) (drop n_test perm)))
    by (rewrite HY; exact Htr).
  assert (HteY : Forall (fun i => i < length Y) (take n_test perm))
    by (rewrite HY; exact Hte).
  destruct (safe_indexing_ok X _ Htr) as (X_train & EXtr & LXtr & OXtr).
  destruct (safe_indexing_ok X _ Hte) as (X_test & EXte & LXte & OXte).
  destruct (safe_indexing_ok Y _ HtrY) as (Y_train & EYtr & LYtr & OYtr).
  destruct (safe_indexing_ok Y _ HteY) as (Y_test & EYte & LYte & OYte).
  exists X_train, X_test, Y_train, Y_test.
  split.
  { rewrite train_test_split_seeded. unfold split_spec. fold n.
    rewrite HY, Nat.eqb_refl. cbn [negb fst snd].
    destruct (0 <? p) eqn:E1; [|apply Nat.ltb_ge in E1; lia].
    destruct (p <? q) eqn:E2; [|apply Nat.ltb_ge in E2; lia].
    cbn [andb negb]. fold n_test.
    destruct (n - n_test =? 0) eqn:E3; [apply Nat.eqb_eq in E3; lia|].
    fold perm. rewrite EXtr. cbn [bind]. rewrite EXte. cbn [bind].
    rewrite EYtr. cbn [bind]. rewrite EYte. reflexivity. }
  split; [lia|]. split; [lia|]. split; [lia|]. split; [lia|].
  assert (Hgen : forall (C : Type) (Z : list C) (tr te : list C),
             length Z = n ->
             tr = omap (fun i => Z !! i) (take (n - n_test) (drop n_test perm)) ->
             te = omap (fun i => Z !! i) (take n_test perm) ->
             Permutation (tr ++ te) Z).
  { intros C Z tr te HZ -> ->. rewrite <- omap_app.
    transitivity (omap (fun i => Z !! i) (seq 0 n));
      [apply omap_Permutation; exact Hpart|].
    rewrite <- HZ, omap_lookup_all. reflexivity. }
  split; [apply Hgen; [reflexivity|assumption..]|].
  split; [apply Hgen; assumption|].
  pose proof (safe_indexing_zip X Y _ _ _ EXtr EYtr) as EZtr.
  pose proof (safe_indexing_zip X Y _ _ _ EXte EYte) as EZte.
  assert (HZ : length (zip X Y) = n).
  { rewrite length_zip_with. lia. }
  assert (HtrZ : Forall (fun i => i < length (zip X Y)) (take (n - n_test) (drop n_test perm)))
    by (rewrite HZ; exact Htr).
  assert (HteZ : Forall (fun i => i < length (zip X Y)) (take n_test perm))
    by (rewrite HZ; exact Hte).
  destruct (safe_indexing_ok (zip X Y) _ HtrZ) as (ztr & E1 & _ & O1).
  destruct (safe_indexing_ok (zip X Y) _ HteZ) as (zte & E2 & _ & O2).
  rewrite EZtr in E1. injection E1 as <-. rewrite EZte in E2. injection E2 as <-.
  apply Hgen; assumption.
Qed.

(** The three checks of the split, each a [ValueError]. *)
Lemma train_test_split_raise {A B : Type} (X : list A) (Y : list B)
    (p q : nat) (random_state : option Z) (w : world F) :
  length Y <> length X \/ ~ (0 < p /\ p < q)
  \/ length X <= n_test_of (length X) (p, q) ->
  train_test_split X Y (p, q) random_state w = Raise ValueError.
Proof.
  intros Hbad. unfold train_test_split.
  destruct (length Y =? length X) eqn:E1; [|reflexivity].
  cbn [negb fst snd].
  destruct ((0 <? p) && (p <? q)) eqn:E2; [|reflexivity]. cbn [negb].
  destruct (length X - n_test_of (length X) (p, q) =? 0) eqn:E3; [reflexivity|].
  exfalso. apply Nat.eqb_eq in E1. apply andb_true_iff in E2 as [E2 E2'].
  apply Nat.ltb_lt in E2, E2'. apply Nat.eqb_neq in E3. lia.
Qed.

End SplitFacts.

(** X9. [train_test_split] with an integer seed, on [n] paired rows and
    with a generator whose [permutation(n)] is a permutation of
    [0 .. n-1]: the test partition has [ceil(n * test_size)] rows and
    the training partition the rest; together they hold every row
    exactly once; row [i] of [X_train] still faces its own targets in
    [Y_train], and the same for the test partition.  The world is left
    as it was. *)
Theorem train_test_split_partition :
  forall (F : Type) (RG : Rng) (A B : Type) (X : list A) (Y : list B)
         (p q : nat) (seed : Z) (w : world F),
    length Y = length X ->
    0 < p -> p < q ->
    n_test_of (length X) (p, q) < length X ->
    Permutation (fst (permutation (RandomState seed) (length X)))
                (seq 0 (length X)) ->
    exists X_train X_test Y_train Y_test,
      train_test_split X Y (p, q) (Some seed) w
      = Ok ((X_train, X_test, Y_train, Y_test), w)
      /\ length X_test = n_test_of (length X) (p, q)
      /\ length X_train = length X - n_test_of (length X) (p, q)
      /\ length Y_test = length X_test
      /\ length Y_train = length X_train
      /\ Permutation (X_train ++ X_test) X
      /\ Permutation (Y_train ++ Y_test) Y
      /\ Permutation (zip X_train Y_train ++ zip X_test Y_test) (zip X Y).
Proof. intros F RG A B X Y p q seed w. apply train_test_split_ok. Qed.

Lemma train_test_split_partition_witness :
  exists X_train X_test Y_train Y_test,
    train_test_split [10; 11; 12; 13; 14] [20; 21; 22; 23; 24] (1, 5)
      (Some 42%Z) Demo.w0
    = Ok ((X_train, X_test, Y_train, Y_test), Demo.w0)
    /\ length X_test = n_test_of (length [10; 11; 12; 13; 14]) (1, 5)
    /\ length X_train
       = length [10; 11; 12; 13; 14] - n_test_of (length [10; 11; 12; 13; 14]) (1, 5)
    /\ length Y_test = length X_test
    /\ length Y_train = length X_train
    /\ Permutation (X_train ++ X_test) [10; 11; 12; 13; 14]
    /\ Permutation (Y_train ++ Y_test) [20; 21; 22; 23; 24]
    /\ Permutation (zip X_train Y_train ++ zip X_test Y_test)
         (zip [10; 11; 12; 13; 14] [20; 21; 22; 23; 24]).
Proof.
  apply (train_test_split_partition B64.t example_rng nat nat
           [10; 11; 12; 13; 14] [20; 21; 22; 23; 24] 1 5 42%Z Demo.w0).
  - reflexivity.
  - lia.
  - lia.
  - vm_compute. lia.
  - vm_compute. apply (Permutation_app_comm [2; 3; 4] [0; 1]).
Defined.

(** X10. With such a generator the seeded split fails exactly when the
    two arrays differ in length, when [test_size] is not strictly
    between 0 and 1, or when no row would be left for training; the
    error is a [ValueError].  For the notebook's [test_size = 0.2] the
    last case means fewer than two rows. *)
Theorem train_test_split_errors :
  forall (F : Type) (RG : Rng) (A B : Type) (X : list A) (Y : list B)
         (p q : nat) (seed : Z) (w : world F),
    Permutation (fst (permutation (RandomState seed) (length X)))
                (seq 0 (length X)) ->
    ((length Y = length X /\ 0 < p /\ p < q
      /\ n_test_of (length X) (p, q) < length X)
     <-> exists r, train_test_split X Y (p, q) (Some seed) w = Ok (r, w))
    /\ (forall e, train_test_split X Y (p, q) (Some seed) w = Raise e ->
                  e = ValueError)
    /\ (n_test_of (length X) (1, 5) < length X <-> 2 <= length X).
Proof.
  intros F RG A B X Y p q seed w Hperm.
  assert (Hdec : (length Y = length X /\ 0 < p /\ p < q
                  /\ n_test_of (length X) (p, q) < length X)
                 \/ (length Y <> length X \/ ~ (0 < p /\ p < q)
                     \/ length X <= n_test_of (length X) (p, q))) by lia.
  split; [|split].
  - destruct Hdec as [Hok|Hbad].
    + split; [|intros _; exact Hok]. intros _.
      destruct Hok as (HY & Hp & Hq & Hn).
      destruct (train_test_split_ok X Y p q seed w HY Hp Hq Hn Hperm)
        as (a & b & c & d & E & _).
      eexists. exact E.
    + rewrite (train_test_split_raise X Y p q (Some seed) w Hbad).
      split; [lia|]. intros (r & E). discriminate.
  - intros e. destruct Hdec as [Hok|Hbad].
    + destruct Hok as (HY & Hp & Hq & Hn).
      destruct (train_test_split_ok X Y p q seed w HY Hp Hq Hn Hperm)
        as (a & b & c & d & E & _).
      rewrite E. discriminate.
    + rewrite (train_test_split_raise X Y p q (Some seed) w Hbad).
      intros [= <-]. reflexivity.
  - unfold n_test_of. generalize (length X). intros n.
    replace (n * 1 + 5 - 1) with (n + 4) by lia.
    pose proof (Nat.div_mod_eq (n + 4) 5) as Hdm.
    pose proof (Nat.mod_upper_bound (n + 4) 5 ltac:(lia)) as Hub. lia.
Qed.

Lemma train_test_split_errors_witness :
  ((length [20] = length [10] /\ 0 < 1 /\ 1 < 5
    /\ n_test_of (length [10]) (1, 5) < length [10])
   <-> exists r, train_test_split [10] [20] (1, 5) (Some 42%Z) Demo.w0
                 = Ok (r, Demo.w0))
  /\ (forall e, train_test_split [10] [20] (1, 5) (Some 42%Z) Demo.w0 = Raise e ->
                e = ValueError)
  /\ (n_test_of (length [10]) (1, 5) < length [10] <-> 2 <= length [10]).
Proof.
  apply (train_test_split_errors B64.t example_rng nat nat [10] [20] 1 5 42%Z
           Demo.w0).
  vm_compute. reflexivity.
Defined.

(** A data set of one row cannot be split. *)
Example split_of_one_row :
  train_test_split [10] [20] (1, 5) (Some 42%Z) Demo.w0 = Raise ValueError.
Proof. reflexivity. Qed.

(** ** The scaler *)

Section ScalerMoreFacts.
Local Open Scope R_scope.

Lemma scale_of_pos (n : nat) (l : list R) :
  0 < scale_of n (fvar l) (fmean l).
Proof.
  unfold scale_of. destruct (is_constant_feature _ _ n) eqn:E.
  - cbn. lra.
  - apply is_constant_feature_false in E. apply sqrt_lt_R0. exact E.
Qed.

Lemma scale_unscale (r mu s : list R) :
  length mu = length r -> length s = length r ->
  Forall (fun c => c <> 0) s ->
  zip_with Rdiv (zip_with Rminus (zip_with Rplus (zip_with Rmult r s) mu) mu) s = r.
Proof.
  revert mu s. induction r as [|x r IH]; intros [|m mu] [|c s] Hm Hs Hnz;
    try discriminate; [reflexivity|].
  apply Forall_cons in Hnz as [Hc Hnz].
  cbn [zip_with]. f_equal.
  - field. exact Hc.
  - apply IH; [cbn in Hm; lia|cbn in Hs; lia|exact Hnz].
Qed.

Lemma length_unscale_row (p : scaler_params R) (r : list R) (d : nat) :
  length (mean_ p) = d -> length (scale_ p) = d -> length r = d ->
  length (unscale_row p r) = d.
Proof.
  intros Hm Hs Hr. unfold unscale_row. rewrite !length_zip_with. lia.
Qed.

End ScalerMoreFacts.

(** X11. The scaler never divides by zero: over the reals every entry
    of [scale_] is strictly positive, every entry of [var_] is
    non-negative, there is one of each per feature, and
    [n_samples_seen_] is the number of training rows. *)
Theorem scaler_scale_positive :
  forall (X : list (list R)) (p : scaler_params R) (d : nat),
    scaler_fit X = Ok p -> check_array X = Ok d ->
    Forall (fun s => (0 < s)%R) (scale_ p)
    /\ Forall (fun v => (0 <= v)%R) (var_ p)
    /\ length (mean_ p) = d /\ length (var_ p) = d /\ length (scale_ p) = d
    /\ n_samples_seen_ p = length X.
Proof.
  intros X p d Hfit Hd.
  destruct (scaler_fit_ok _ _ Hfit) as (d' & Hd' & Hmean & Hvar & Hscale & Hlm & Hls).
  rewrite Hd in Hd'. injection Hd' as <-.
  split.
  { rewrite Hscale, Hvar, Hmean, zip_with_map_same.
    apply Forall_map, Forall_forall. intros c _. apply scale_of_pos. }
  split.
  { rewrite Hvar. apply Forall_map, Forall_forall. intros c _. apply fvar_nonneg. }
  split; [exact Hlm|]. split; [rewrite Hvar; apply length_feature_stats|].
  split; [exact Hls|].
  revert Hfit. unfold scaler_fit. rewrite Hd. cbn [bind]. intros [= <-]. reflexivity.
Qed.

Lemma scaler_scale_positive_witness :
  let p := {| mean_ := map fmean (feature_columns 3 X_const);
              var_ := map fvar (feature_columns 3 X_const);
              scale_ := zip_with (scale_of 2)
                          (map fvar (feature_columns 3 X_const))
                          (map fmean (feature_columns 3 X_const));
              n_samples_seen_ := 2 |} in
  Forall (fun s => (0 < s)%R) (scale_ p)
  /\ Forall (fun v => (0 <= v)%R) (var_ p)
  /\ length (mean_ p) = 3 /\ length (var_ p) = 3 /\ length (scale_ p) = 3
  /\ n_samples_seen_ p = length X_const.
Proof.
  intros p. apply (scaler_scale_positive X_const p 3); reflexivity.
Defined.

(** X12. Over the reals, on any array with as many features as the
    training partition (the evaluation partition for one),
    [inverse_transform] undoes [transform] and [transform] undoes
    [inverse_transform]. *)
Theorem scaler_round_trip_any_data :
  forall (X Z : list (list R)) (p : scaler_params R) (d : nat),
    scaler_fit X = Ok p -> check_array X = Ok d -> check_array Z = Ok d ->
    exists Zs Zu,
      scaler_transform (Some p) Z = Ok Zs
      /\ scaler_inverse_transform (Some p) Zs = Ok Z
      /\ scaler_inverse_transform (Some p) Z = Ok Zu
      /\ scaler_transform (Some p) Zu = Ok Z.
Proof.
  intros X Z p d Hfit Hd HZ.
  destruct (scaler_fit_ok _ _ Hfit) as (d' & Hd' & _ & _ & _ & Hlm & Hls).
  rewrite Hd in Hd'. injection Hd' as <-.
  pose proof (scale_nonzero X p Hfit) as Hnz.
  pose proof (check_array_ok _ _ HZ) as (HZne & Hdpos & HZall).
  rewrite Forall_forall in HZall.
  assert (Hs : check_array (map (scale_row p) Z) = Ok d).
  { eapply check_array_map; [exact HZ|exact Hdpos|].
    intros r Hr. apply length_scale_row; assumption. }
  assert (Hu : check_array (map (unscale_row p) Z) = Ok d).
  { eapply check_array_map; [exact HZ|exact Hdpos|].
    intros r Hr. apply length_unscale_row; assumption. }
  exists (map (scale_row p) Z), (map (unscale_row p) Z).
  unfold scaler_transform, scaler_inverse_transform.
  rewrite HZ, Hs, Hu. cbn [bind]. rewrite Hlm, Nat.eqb_refl.
  split; [reflexivity|]. split; [|split; [reflexivity|]].
  - f_equal. rewrite map_map. rewrite <- (map_id Z) at 2.
    apply map_ext_in. intros r Hin.
    pose proof (HZall r ltac:(apply list_elem_of_In; exact Hin)) as Hr.
    unfold unscale_row, scale_row. apply unscale_scale; try lia. exact Hnz.
  - f_equal. rewrite map_map. rewrite <- (map_id Z) at 2.
    apply map_ext_in. intros r Hin.
    pose proof (HZall r ltac:(apply list_elem_of_In; exact Hin)) as Hr.
    unfold unscale_row, scale_row. apply scale_unscale; try lia. exact Hnz.
Qed.

Lemma scaler_round_trip_any_data_witness :
  let p := {| mean_ := map fmean (feature_columns 3 X_const);
              var_ := map fvar (feature_columns 3 X_const);
              scale_ := zip_with (scale_of 2)
                          (map fvar (feature_columns 3 X_const))
                          (map fmean (feature_columns 3 X_const));
              n_samples_seen_ := 2 |} in
  exists Zs Zu,
    scaler_transform (Some p) X_single = Ok Zs
    /\ scaler_inverse_transform (Some p) Zs = Ok X_single
    /\ scaler_inverse_transform (Some p) X_single = Ok Zu
    /\ scaler_transform (Some p) Zu = Ok X_single.
Proof.
  intros p. apply (scaler_round_trip_any_data X_const X_single p 3); reflexivity.
Defined.

(** X13. The scaling lines of cell 30 succeed exactly when both
    partitions are rectangular, not empty, and have the same number of
    features; otherwise they raise a [ValueError]. *)
Theorem scale_cell_shape_errors :
  forall (RG : Rng) (X_train X_test : list (list R)) (w : world R),
    ((exists d, check_array X_train = Ok d /\ check_array X_test = Ok d)
     <-> exists r w', scale_cell X_train X_test w = Ok (r, w'))
    /\ (forall e, scale_cell X_train X_test w = Raise e -> e = ValueError).
Proof.
  intros RG X_train X_test w. rewrite scale_cell_run.
  unfold scaler_fit, scaler_transform.
  destruct (check_array X_train) as [d|e] eqn:Hd.
  2:{ cbn [bind]. pose proof (check_array_raise _ _ Hd). subst e. split.
      - split; [intros (d0 & Hd0 & _); discriminate|intros (r & w' & E); discriminate].
      - intros e [= <-]. reflexivity. }
  cbn [bind mean_]. rewrite !length_feature_stats, Nat.eqb_refl. cbn [bind].
  destruct (check_array X_test) as [d'|e] eqn:Hd'.
  2:{ cbn [bind]. pose proof (check_array_raise _ _ Hd'). subst e. split.
      - split; [intros (d0 & _ & Hd0); discriminate|intros (r & w' & E0); discriminate].
      - intros e [= <-]. reflexivity. }
  cbn [bind].
  destruct (d' =? d) eqn:E; cbn [bind].
  - apply Nat.eqb_eq in E. subst d'. split; [|discriminate].
    split; [intros _; eexists _, _; reflexivity|].
    intros _. exists d. split; reflexivity.
  - apply Nat.eqb_neq in E. split.
    + split; [intros (d0 & [= <-] & [= Hd0]); contradiction|].
      intros (r & w' & E'). discriminate.
    + intros e [= <-]. reflexivity.
Qed.

(** ** Polynomial features *)

Section PolynomialFacts.
Context {F : Type} `{Num F}.

Lemma cwr_cons (k i : nat) (rest : list nat) :
  combinations_with_replacement (S k) (i :: rest)
  = map (cons i) (combinations_with_replacement k (i :: rest))
    ++ combinations_with_replacement (S k) rest.
Proof. reflexivity. Qed.

Lemma cwr_1 (l : list nat) :
  combinations_with_replacement 1 l = map (fun i => [i]) l.
Proof.
  induction l as [|i l IH]; [reflexivity|].
  rewrite cwr_cons, IH. reflexivity.
Qed.

Lemma cwr_2_seq (a n : nat) :
  combinations_with_replacement 2 (seq a n)
  = concat (map (fun i => map (fun j => [i; j]) (seq i (a + n - i))) (seq a n)).
Proof.
  revert a. induction n as [|n IH]; intros a; [reflexivity|].
  cbn [seq]. rewrite cwr_cons, cwr_1.
  change (a :: seq (S a) n) with (seq a (S n)).
  rewrite map_map. cbn [seq map concat].
  replace (a + S n - a) with (S n) by lia. cbn [seq map]. f_equal.
  rewrite IH. apply (f_equal (@concat (list nat))). apply map_ext_in. intros i Hi.
  replace (S a + n - i) with (a + S n - i) by lia. reflexivity.
Qed.

Lemma length_cwr_2 (l : list nat) :
  2 * length (combinations_with_replacement 2 l) = length l * (length l + 1).
Proof.
  induction l as [|i l IH]; [reflexivity|].
  rewrite cwr_cons, cwr_1, length_app, !length_map. cbn [length]. lia.
Qed.

Lemma map_nth_seq_any (r : list F) :
  map (fun j => nth j r fzero) (seq 0 (length r)) = r.
Proof.
  apply (nth_ext _ _ fzero fzero).
  - rewrite length_map, length_seq. reflexivity.
  - intros j Hj. rewrite length_map, length_seq in Hj.
    apply (nth_map_seq (fun j => nth j r fzero)). exact Hj.
Qed.

Lemma combinations_2 (d : nat) :
  combinations d 2
  = [] :: map (fun i => [i]) (seq 0 d)
       ++ concat (map (fun i => map (fun j => [i; j]) (seq i (d - i))) (seq 0 d)).
Proof.
  unfold combinations. cbn [seq map concat].
  rewrite cwr_1, cwr_2_seq, app_nil_r. reflexivity.
Qed.

End PolynomialFacts.

(** X14. [PolynomialFeatures(degree=2)] on a row of [d] features gives
    [(d+1)(d+2)/2] terms: the bias 1, then the [d] features themselves,
    then the products [x_i * x_j] for [i <= j], in lexicographic
    order. *)
Theorem polynomial_features_degree_2 :
  forall (F : Type) (NF : Num F) (r : list F),
    2 * length (poly_row 2 r) = (length r + 1) * (length r + 2)
    /\ poly_row 2 r
       = fone :: r
         ++ concat (map (fun i => map (fun j => fmul (nth i r fzero) (nth j r fzero))
                                    (seq i (length r - i)))
                        (seq 0 (length r))).
Proof.
  intros F NF r. split.
  - rewrite length_poly_row. unfold combinations. cbn [seq map concat].
    rewrite app_nil_r, !length_app, cwr_1, length_map.
    pose proof (length_cwr_2 (seq 0 (length r))) as H2.
    rewrite length_seq in H2 |- *.
    change (length (combinations_with_replacement 0 (seq 0 (length r)))) with 1.
    lia.
  - unfold poly_row. rewrite combinations_2. cbn [map monomial]. f_equal.
    rewrite map_app, map_map. cbn [monomial]. rewrite map_nth_seq_any. f_equal.
    rewrite concat_map, map_map. f_equal. apply map_ext. intros i.
    rewrite map_map. reflexivity.
Qed.

(** ** The regression pipeline over the reals *)

Section PredictFacts.
Context {F : Type} `{Num F} `{Solver F}.

(** Prediction with a fitted pipeline, on an array with the number of
    features seen by [fit]. *)
Lemma pipeline_predict_fitted (degree d : nat) (sc : scaler_params F)
    (m : linreg_params F) (X' : list (list F)) :
  length (mean_ sc) = length (combinations d degree) ->
  length (scale_ sc) = length (combinations d degree) ->
  length (coef_ m) = length (combinations d degree) ->
  check_array X' = Ok d ->
  pipeline_predict (PipelineObj degree (Some d) (Some sc) (Some m)) X'
  = Ok (map (fun x => fadd (dot (scale_row sc (poly_row degree x)) (coef_ m))
                        (intercept_ m)) X').
Proof.
  intros Hlm Hls Hlc Hd.
  pose proof (check_array_poly degree X' d Hd) as HXP.
  assert (HXS : check_array (map (scale_row sc) (map (poly_row degree) X'))
                = Ok (length (combinations d degree))).
  { eapply check_array_map; [exact HXP|apply length_combinations_pos|].
    intros r Hr. apply length_scale_row; assumption. }
  unfold pipeline_predict, poly_transform.
  cbn [poly_degree poly_n_features_in pipe_scaler pipe_model].
  rewrite Hd. cbn [bind]. rewrite Nat.eqb_refl. cbn [bind].
  unfold scaler_transform. rewrite HXP. cbn [bind].
  rewrite Hlm, Nat.eqb_refl. cbn [bind].
  unfold linreg_predict. rewrite HXS. cbn [bind].
  rewrite Hlc, Nat.eqb_refl. rewrite !map_map. reflexivity.
Qed.

(** Prediction on an array of another shape. *)
Lemma pipeline_predict_shape (degree d : nat) (sc : option (scaler_params F))
    (m : option (linreg_params F)) (X' : list (list F)) :
  check_array X' <> Ok d ->
  pipeline_predict (PipelineObj degree (Some d) sc m) X' = Raise ValueError.
Proof.
  intros Hd. unfold pipeline_predict, poly_transform.
  cbn [poly_degree poly_n_features_in pipe_scaler pipe_model].
  destruct (check_array X') as [d'|e] eqn:E.
  - cbn [bind]. destruct (d' =? d) eqn:E'; [|reflexivity].
    apply Nat.eqb_eq in E'. congruence.
  - pose proof (check_array_raise _ _ E). subst e. reflexivity.
Qed.

End PredictFacts.

Section RegressionFacts.
Local Open Scope R_scope.

(** The fitted pipeline over the reals. *)
Lemma pipeline_fitted (degree : nat) (X : list (list R)) (y : list R) (d : nat) :
  check_array X = Ok d -> length y = length X ->
  exists sc m,
    pipeline_fit (Pipeline degree) X y
    = Ok (PipelineObj degree (Some d) (Some sc) (Some m))
    /\ scaler_fit (map (poly_row degree) X) = Ok sc
    /\ length (mean_ sc) = length (combinations d degree)
    /\ length (scale_ sc) = length (combinations d degree)
    /\ length (coef_ m) = length (combinations d degree)
    /\ (let XS := map (scale_row sc) (map (poly_row degree) X) in
        let d' := length (combinations d degree) in
        check_array XS = Ok d'
        /\ coef_ m = lstsq (fst (centred_problem XS y d')) (snd (centred_problem XS y d'))
        /\ is_min_norm_least_squares (fst (centred_problem XS y d'))
             (snd (centred_problem XS y d')) (coef_ m)
        /\ intercept_ m = fmean y - dot (map fmean (feature_columns d' XS)) (coef_ m)).
Proof.
  intros Hd Hy.
  destruct (pipeline_fit_total (Pipeline degree) X y d Hd Hy)
    as (sc & m & Hfit & Hsc & HXS & Hlin & Hcoef & Hint).
  cbn [poly_degree Pipeline] in *.
  exists sc, m. split; [exact Hfit|]. split; [exact Hsc|].
  pose proof (check_array_poly degree X d Hd) as HXP.
  destruct (scaler_fit_ok _ _ Hsc) as (d'' & HdP & _ & _ & _ & Hlm & Hls).
  rewrite HXP in HdP. injection HdP as <-.
  split; [exact Hlm|]. split; [exact Hls|].
  assert (Hex : is_min_norm_least_squares
                  (fst (centred_problem (map (scale_row sc) (map (poly_row degree) X)) y
                          (length (combinations d degree))))
                  (snd (centred_problem (map (scale_row sc) (map (poly_row degree) X)) y
                          (length (combinations d degree))))
                  (coef_ m)).
  { rewrite Hcoef.
    destruct (centred_problem_shape _ y _ HXS) as (Hne & Hall & Hlen);
      [rewrite !length_map; exact Hy|].
    eapply lstsq_min_norm; eassumption. }
  assert (Hlenw : length (coef_ m) = length (combinations d degree)).
  { destruct Hex as [[Hlenw _] _]. rewrite Hlenw.
    pose proof (check_array_ok _ _ HXS) as (HSne & _ & HSall).
    unfold centred_problem, center_rows. cbn [fst].
    destruct (map (scale_row sc) (map (poly_row degree) X)) as [|r S'] eqn:ES;
      [contradiction|]. cbn [map n_cols].
    apply Forall_inv in HSall. rewrite length_zip_with, length_feature_stats. lia. }
  split; [exact Hlenw|]. cbv zeta.
  split; [exact HXS|]. split; [exact Hcoef|]. split; [exact Hex|exact Hint].
Qed.

End RegressionFacts.

Section RegressionMoreFacts.
Local Open Scope R_scope.

Lemma fsum_squares_zip_nonneg {A B : Type} (f : A -> B -> R) (X : list A) (Y : list B) :
  0 <= fsum (zip_with (fun x y => fsquare (f x y)) X Y).
Proof.
  revert Y. induction X as [|x X IH]; intros [|y Y]; try (cbn; lra).
  cbn [zip_with]. rewrite fsum_cons. specialize (IH Y).
  unfold fsquare at 1. cbn [fmul exactR]. nra.
Qed.

Lemma fsum_squares_zero (u v : list R) :
  length u = length v ->
  fsum (zip_with (fun p a => fsquare (p - a)) u v) <= 0 -> u = v.
Proof.
  revert v. induction u as [|p u IH]; intros [|a v] Hl Hs; try discriminate;
    [reflexivity|].
  cbn [zip_with] in Hs. rewrite fsum_cons in Hs.
  pose proof (fsum_squares_zip_nonneg (fun p a => p - a) u v) as Hn.
  unfold fsquare at 1 in Hs. cbn [fmul exactR] in Hs.
  assert (p - a = 0) by nra.
  f_equal; [lra|]. apply IH; [cbn in Hl; lia|]. nra.
Qed.

Lemma ssr_nonneg A b w : 0 <= ssr A b w.
Proof. unfold ssr. apply (fsum_squares_zip_nonneg (fun r bi => dot r w - bi)). Qed.

Lemma ssr_zero_rhs A (b : list R) (d : nat) :
  Forall (fun v => v = 0) b -> ssr A b (zeros d) = 0.
Proof.
  intros Hb. unfold ssr. revert A. induction Hb as [|bi b -> _ IH]; intros [|r A];
    try reflexivity.
  cbn [zip_with]. rewrite fsum_cons, IH, dot_zeros_r.
  unfold fsquare. cbn [fmul exactR]. lra.
Qed.

(** With a zero right-hand side the minimum-norm solution is zero. *)
Lemma min_norm_zero_rhs A (b w : list R) :
  Forall (fun v => v = 0) b ->
  is_min_norm_least_squares A b w -> w = zeros (length w).
Proof.
  intros Hb [[Hlen Hls] Hmin]. apply dot_self_zero.
  assert (H0 : is_least_squares A b (zeros (n_cols A))).
  { split; [apply length_zeros|]. intros v _.
    rewrite ssr_zero_rhs by exact Hb. apply ssr_nonneg. }
  specialize (Hmin _ H0). rewrite dot_zeros_l in Hmin.
  pose proof (dot_self_nonneg w). lra.
Qed.

Lemma fmean_shift (y : list R) (c : R) :
  y <> [] -> fmean (map (fun v => v + c) y) = fmean y + c.
Proof.
  intros Hy. rewrite !fmean_R, length_map.
  pose proof (INR_length_pos y Hy) as Hn.
  assert (E : fsum (map (fun v => v + c) y) = fsum y + INR (length y) * c).
  { clear. induction y as [|v y IH]; [cbn; lra|].
    cbn [map]. rewrite !fsum_cons, IH.
    change (length (v :: y)) with (S (length y)). rewrite S_INR. lra. }
  rewrite E. field. lra.
Qed.

End RegressionMoreFacts.

(** X15. A fitted pipeline predicts on every array with the number of
    features it was fitted on, one value per row; on an array of any
    other shape it raises [ValueError], and before any fit it raises
    [NotFittedError]. *)
Theorem predict_after_fit :
  forall (degree : nat) (X : list (list R)) (y : list R) (d : nat),
    check_array X = Ok d -> length y = length X ->
    exists p,
      pipeline_fit (Pipeline degree) X y = Ok p
      /\ (forall X', check_array X' = Ok d ->
            exists y_hat, pipeline_predict p X' = Ok y_hat
                          /\ length y_hat = length X')
      /\ (forall X', check_array X' <> Ok d ->
            pipeline_predict p X' = Raise ValueError)
      /\ (forall X', pipeline_predict (Pipeline degree) X' = Raise NotFittedError).
Proof.
  intros degree X y d Hd Hy.
  destruct (pipeline_fitted degree X y d Hd Hy)
    as (sc & m & Hfit & _ & Hlm & Hls & Hlc & _).
  eexists. split; [exact Hfit|]. split; [|split].
  - intros X' HX'. eexists. split.
    + apply pipeline_predict_fitted; assumption.
    + apply length_map.
  - intros X' HX'. apply pipeline_predict_shape. exact HX'.
  - intros X'. reflexivity.
Qed.

Lemma predict_after_fit_witness :
  exists p,
    pipeline_fit (Pipeline 2) X_single y_single = Ok p
    /\ (forall X', check_array X' = Ok 3 ->
          exists y_hat, pipeline_predict p X' = Ok y_hat
                        /\ length y_hat = length X')
    /\ (forall X', check_array X' <> Ok 3 ->
          pipeline_predict p X' = Raise ValueError)
    /\ (forall X', pipeline_predict (Pipeline 2) X' = Raise NotFittedError).
Proof. apply (predict_after_fit 2 X_single y_single 3); reflexivity. Defined.

(** X16. With an intercept the residuals on the training set sum to zero:
    the mean of the training predictions is the mean of the training
    targets. *)
Theorem training_residuals_sum_to_zero :
  forall (degree : nat) (X : list (list R)) (y : list R) (d : nat),
    check_array X = Ok d -> length y = length X ->
    exists p y_hat,
      pipeline_fit (Pipeline degree) X y = Ok p
      /\ pipeline_predict p X = Ok y_hat
      /\ fsum (zip_with Rminus y_hat y) = 0%R
      /\ fmean y_hat = fmean y.
Proof.
  intros degree X y d Hd Hy.
  destruct (pipeline_fitted degree X y d Hd Hy)
    as (sc & m & Hfit & _ & Hlm & Hls & Hlc & HXS & _ & _ & Hint).
  eexists _, _. split; [exact Hfit|]. split.
  { apply pipeline_predict_fitted; assumption. }
  pose proof (check_array_ok _ _ HXS) as (_ & _ & HSall).
  pose proof (check_array_ok _ _ Hd) as (HXne & _ & _).
  assert (Hn : (0 < INR (length X))%R).
  { apply lt_0_INR. destruct X; [contradiction|cbn; lia]. }
  set (g := fun x => (dot (scale_row sc (poly_row degree x)) (coef_ m) + intercept_ m)%R).
  assert (Hsum : fsum (map g X) = fsum y).
  { unfold g. rewrite Hint.
    rewrite (dot_column_means _ _ (coef_ m) HSall), !map_map, !length_map.
    rewrite fmean_R, Hy.
    set (h := fun x => dot (scale_row sc (poly_row degree x)) (coef_ m)).
    assert (E : forall k, fsum (map (fun x => (h x + k)%R) X)
                          = (fsum (map h X) + INR (length X) * k)%R).
    { intros k. clear. induction X as [|x X IH]; [cbn; lra|].
      cbn [map]. rewrite !fsum_cons, IH.
      change (length (x :: X)) with (S (length X)). rewrite S_INR. lra. }
    cbn [fsub exactR]. rewrite E. fold h.
    clear E. set (T := fsum (map h X)). set (n := INR (length X)) in *.
    set (s := fsum y). clearbody T n s. field. lra. }
  split.
  - change (@fadd R exactR) with Rplus. fold g.
    rewrite zip_with_map_l.
    rewrite (fsum_zip_minus g (fun a => a) X y) by (symmetry; exact Hy).
    rewrite map_id, Hsum. lra.
  - change (@fadd R exactR) with Rplus. fold g.
    rewrite !fmean_R, length_map, Hsum, Hy. reflexivity.
Qed.

Lemma training_residuals_sum_to_zero_witness :
  exists p y_hat,
    pipeline_fit (Pipeline 2) X_const [1; 4]%R = Ok p
    /\ pipeline_predict p X_const = Ok y_hat
    /\ fsum (zip_with Rminus y_hat [1; 4]%R) = 0%R
    /\ fmean y_hat = fmean [1; 4]%R.
Proof.
  apply (training_residuals_sum_to_zero 2 X_const [1; 4]%R 3); reflexivity.
Defined.

(** X17. A pipeline fitted to a constant target predicts that constant on
    every input: the coefficients are all zero and the intercept is the
    constant. *)
Theorem constant_target_constant_prediction :
  forall (degree : nat) (X : list (list R)) (y : list R) (d : nat) (c : R),
    check_array X = Ok d -> length y = length X ->
    Forall (fun v => v = c) y ->
    exists p,
      pipeline_fit (Pipeline degree) X y = Ok p
      /\ forall X', check_array X' = Ok d ->
           pipeline_predict p X' = Ok (map (fun _ => c) X').
Proof.
  intros degree X y d c Hd Hy Hc.
  destruct (pipeline_fitted degree X y d Hd Hy)
    as (sc & m & Hfit & _ & Hlm & Hls & Hlc & HXS & _ & Hmin & Hint).
  pose proof (check_array_ok _ _ Hd) as (HXne & _ & _).
  assert (Hyne : y <> []).
  { destruct y; [|discriminate]. destruct X; [contradiction|discriminate]. }
  pose proof (fmean_constant c y Hyne Hc) as Hmean.
  assert (Hb : Forall (fun v => v = 0%R)
                 (snd (centred_problem (map (scale_row sc) (map (poly_row degree) X)) y
                         (length (combinations d degree))))).
  { unfold centred_problem. cbn [snd]. apply Forall_map.
    eapply Forall_impl; [exact Hc|]. intros v ->. unfold compose.
    rewrite Hmean. cbn [fsub exactR]. lra. }
  pose proof (min_norm_zero_rhs _ _ _ Hb Hmin) as Hw.
  eexists. split; [exact Hfit|]. intros X' HX'.
  rewrite (pipeline_predict_fitted degree d sc m X') by assumption.
  f_equal. apply map_ext. intros x.
  rewrite Hint, Hmean, Hw, !dot_zeros_r. cbn [fadd exactR]. lra.
Qed.

Lemma constant_target_constant_prediction_witness :
  exists p,
    pipeline_fit (Pipeline 2) X_const [5; 5]%R = Ok p
    /\ forall X', check_array X' = Ok 3 ->
         pipeline_predict p X' = Ok (map (fun _ => 5%R) X').
Proof.
  apply (constant_target_constant_prediction 2 X_const [5; 5]%R 3 5%R);
    [reflexivity|reflexivity|repeat constructor].
Defined.

(** X18. A target that is exactly a polynomial of the requested degree in
    the features is reproduced exactly on the training set: the
    predictions are the targets and the training error is zero. *)
Theorem polynomial_target_recovered :
  forall (degree : nat) (X : list (list R)) (d : nat) (beta : list R) (c : R),
    check_array X = Ok d ->
    length beta = length (combinations d degree) ->
    let y := map (fun x => (dot (poly_row degree x) beta + c)%R) X in
    exists p,
      pipeline_fit (Pipeline degree) X y = Ok p
      /\ pipeline_predict p X = Ok y
      /\ rmse y y = Ok 0%R.
Proof.
  intros degree X d beta c Hd Hbeta y.
  assert (Hy : length y = length X) by apply length_map.
  destruct (pipeline_least_squares degree X y d Hd Hy)
    as (p & y_hat & Hfit & Hpred & Hls).
  destruct (pipeline_fitted degree X y d Hd Hy)
    as (sc & m & Hfit' & _ & Hlm & Hls' & Hlc & _).
  rewrite Hfit in Hfit'. injection Hfit' as ->.
  pose proof (pipeline_predict_fitted degree d sc m X Hlm Hls' Hlc Hd) as Hpred'.
  rewrite Hpred in Hpred'. injection Hpred' as Hyh.
  assert (Hlen : length y_hat = length y).
  { rewrite Hyh, Hy. apply length_map. }
  specialize (Hls beta c Hbeta).
  assert (H0 : fsum (zip_with (fun x a => fsquare (dot (poly_row degree x) beta + c - a)%R) X y)
               = 0%R).
  { unfold y. rewrite zip_with_map_r. clear.
    induction X as [|x X IH]; [reflexivity|].
    cbn [zip_with]. rewrite fsum_cons, IH. unfold fsquare. cbn [fmul exactR]. lra. }
  rewrite H0 in Hls. apply fsum_squares_zero in Hls; [|exact Hlen].
  exists (PipelineObj degree (Some d) (Some sc) (Some m)).
  split; [exact Hfit|]. split; [rewrite Hpred, Hls; reflexivity|].
  pose proof (check_array_ok _ _ Hd) as (HXne & _ & _).
  unfold rmse, mean_squared_error. rewrite Nat.eqb_refl.
  destruct (0 <? length y) eqn:E.
  2:{ apply Nat.ltb_ge in E. rewrite Hy in E. destruct X; [contradiction|cbn in E; lia]. }
  cbn [andb bind]. f_equal.
  assert (Hz : fsum (zip_with (fun a p => fsquare (fsub a p)) y y) = 0%R).
  { clear. induction y as [|v y IH]; [reflexivity|].
    cbn [zip_with]. rewrite fsum_cons, IH. unfold fsquare.
    cbn [fmul fsub exactR]. lra. }
  rewrite fmean_R, Hz. unfold Rdiv. rewrite Rmult_0_l. apply sqrt_0.
Qed.

Lemma polynomial_target_recovered_witness :
  let y := map (fun x => (dot (poly_row 2 x) [0; 1; 0; 0; 0; 0; 0; 0; 0; 2] + 3)%R)
             X_const in
  exists p,
    pipeline_fit (Pipeline 2) X_const y = Ok p
    /\ pipeline_predict p X_const = Ok y
    /\ rmse y y = Ok 0%R.
Proof.
  apply (polynomial_target_recovered 2 X_const 3
           [0; 1; 0; 0; 0; 0; 0; 0; 0; 2]%R 3%R); reflexivity.
Defined.

(** X19. Adding a constant to every training target adds the same constant
    to every prediction, and changes nothing else in the fitted model. *)
Theorem target_shift_shifts_predictions :
  forall (degree : nat) (X : list (list R)) (y : list R) (d : nat) (c : R),
    check_array X = Ok d -> length y = length X ->
    exists sc m m',
      pipeline_fit (Pipeline degree) X y
      = Ok (PipelineObj degree (Some d) (Some sc) (Some m))
      /\ pipeline_fit (Pipeline degree) X (map (fun v => (v + c)%R) y)
         = Ok (PipelineObj degree (Some d) (Some sc) (Some m'))
      /\ coef_ m' = coef_ m
      /\ intercept_ m' = (intercept_ m + c)%R
      /\ forall X', check_array X' = Ok d ->
           exists y_hat,
             pipeline_predict (PipelineObj degree (Some d) (Some sc) (Some m)) X'
             = Ok y_hat
             /\ pipeline_predict (PipelineObj degree (Some d) (Some sc) (Some m')) X'
                = Ok (map (fun v => (v + c)%R) y_hat).
Proof.
  intros degree X y d c Hd Hy.
  assert (Hy' : length (map (fun v => (v + c)%R) y) = length X)
    by (rewrite length_map; exact Hy).
  destruct (pipeline_fitted degree X y d Hd Hy)
    as (sc & m & Hfit & Hsc & Hlm & Hls & Hlc & HXS & Hcoef & _ & Hint).
  destruct (pipeline_fitted degree X _ d Hd Hy')
    as (sc' & m' & Hfit' & Hsc' & _ & _ & Hlc' & _ & Hcoef' & _ & Hint').
  rewrite Hsc in Hsc'. injection Hsc' as <-.
  pose proof (check_array_ok _ _ Hd) as (HXne & _ & _).
  assert (Hyne : y <> []).
  { destruct y; [|discriminate]. destruct X; [contradiction|discriminate]. }
  assert (Hb : snd (centred_problem (map (scale_row sc) (map (poly_row degree) X))
                      (map (fun v => (v + c)%R) y) (length (combinations d degree)))
               = snd (centred_problem (map (scale_row sc) (map (poly_row degree) X))
                        y (length (combinations d degree)))).
  { unfold centred_problem. cbn [snd]. rewrite map_map, fmean_shift by exact Hyne.
    apply map_ext. intros v. cbn [fsub exactR]. lra. }
  assert (Hc : coef_ m' = coef_ m).
  { rewrite Hcoef', Hcoef, Hb. reflexivity. }
  assert (Hi : intercept_ m' = (intercept_ m + c)%R).
  { rewrite Hint', Hint, Hc, fmean_shift by exact Hyne. lra. }
  exists sc, m, m'. split; [exact Hfit|]. split; [exact Hfit'|].
  split; [exact Hc|]. split; [exact Hi|].
  intros X' HX'. eexists. split.
  - apply pipeline_predict_fitted; assumption.
  - rewrite (pipeline_predict_fitted degree d sc m' X') by assumption.
    f_equal. rewrite map_map. apply map_ext. intros x.
    rewrite Hc, Hi. cbn [fadd exactR]. lra.
Qed.

Lemma target_shift_shifts_predictions_witness :
  exists sc m m',
    pipeline_fit (Pipeline 2) X_const [1; 4]%R
    = Ok (PipelineObj 2 (Some 3) (Some sc) (Some m))
    /\ pipeline_fit (Pipeline 2) X_const (map (fun v => (v + 10)%R) [1; 4]%R)
       = Ok (PipelineObj 2 (Some 3) (Some sc) (Some m'))
    /\ coef_ m' = coef_ m
    /\ intercept_ m' = (intercept_ m + 10)%R
    /\ forall X', check_array X' = Ok 3 ->
         exists y_hat,
           pipeline_predict (PipelineObj 2 (Some 3) (Some sc) (Some m)) X'
           = Ok y_hat
           /\ pipeline_predict (PipelineObj 2 (Some 3) (Some sc) (Some m')) X'
              = Ok (map (fun v => (v + 10)%R) y_hat).
Proof.
  apply (target_shift_shifts_predictions 2 X_const [1; 4]%R 3 10%R); reflexivity.
Defined.

(** X20. The reported error is never negative, and it is zero exactly when
    every prediction equals its target; it is defined exactly for two
    arrays of the same, non-zero length. *)
Theorem rmse_zero_iff_exact :
  forall (y_true y_pred : list R),
    (length y_true = length y_pred /\ 0 < length y_true ->
     exists e, rmse y_true y_pred = Ok e
               /\ (0 <= e)%R /\ (e = 0%R <-> y_pred = y_true))
    /\ (~ (length y_true = length y_pred /\ 0 < length y_true) ->
        rmse y_true y_pred = Raise ValueError).
Proof.
  intros y_true y_pred. unfold rmse, mean_squared_error. split.
  - intros [Hl Hp]. rewrite Hl, Nat.eqb_refl.
    destruct (0 <? length y_pred) eqn:E; [|apply Nat.ltb_ge in E; lia].
    cbn [andb bind]. eexists. split; [reflexivity|].
    set (s := fsum (zip_with (fun a p => fsquare (fsub a p)) y_true y_pred)).
    assert (Hs : (0 <= s)%R) by apply (fsum_squares_zip_nonneg (fun a p => fsub a p)).
    assert (Hn : (0 < INR (length y_pred))%R) by (apply lt_0_INR; lia).
    rewrite fmean_R. fold s. rewrite length_zip_with, Hl, Nat.min_id.
    assert (Hq : (0 <= s / INR (length y_pred))%R).
    { apply Rmult_le_pos; [exact Hs|]. left. apply Rinv_0_lt_compat. exact Hn. }
    split; [apply sqrt_pos|]. split.
    + intros H0. apply sqrt_eq_0 in H0; [|exact Hq].
      assert (Hs0 : (s <= 0)%R).
      { apply (Rmult_eq_compat_r (INR (length y_pred))) in H0.
        unfold Rdiv in H0. rewrite Rmult_assoc, Rinv_l, Rmult_0_l in H0 by lra. lra. }
      symmetry. apply fsum_squares_zero; [exact Hl|exact Hs0].
    + intros ->. unfold s.
      assert (Hz : fsum (zip_with (fun a p => fsquare (fsub a p)) y_true y_true) = 0%R).
      { clear. induction y_true as [|v y IH]; [reflexivity|].
        cbn [zip_with]. rewrite fsum_cons, IH. unfold fsquare.
        cbn [fmul fsub exactR]. lra. }
      rewrite Hz. unfold Rdiv. rewrite Rmult_0_l. apply sqrt_0.
  - intros Hn. destruct (length y_true =? length y_pred) eqn:E1; [|reflexivity].
    destruct (0 <? length y_true) eqn:E2; [|reflexivity].
    exfalso. apply Hn. split; [apply Nat.eqb_eq, E1|apply Nat.ltb_lt, E2].
Qed.

(** ** The objects after the regression cells *)

Section FinalStateFacts.
Context {F : Type} `{Num F} `{Missing F} `{Solver F} `{Integrator F} `{Rng}.
Local Open Scope result_scope.

Lemma regression_cell_rng (pipeline : loc) (p : pipeline_obj F)
    (X_train X_test Y_train Y_test : frame F) (target : string)
    (w w' : world F) (r : loc * F) :
  heap w !! pipeline = Some (OPipeline p) ->
  regression_cell pipeline X_train X_test Y_train Y_test target w = Ok (r, w') ->
  global_rng w' = global_rng w
  /\ exists p', heap w' !! pipeline = Some (OPipeline p').
Proof.
  intros Hp. rewrite (regression_cell_run pipeline p) by exact Hp.
  destruct (get_column Y_train target) as [y_train|e]; [|discriminate].
  cbn [bind].
  destruct (pipeline_fit p (rows X_train) y_train) as [p'|e]; [|discriminate].
  cbn [bind].
  destruct (pipeline_predict p' (rows X_test)) as [y_hat|e]; [|discriminate].
  cbn [bind].
  destruct (get_column Y_test target) as [y_test|e]; [|discriminate].
  cbn [bind].
  destruct (rmse y_test y_hat) as [e|e]; [|discriminate].
  cbn [bind]. intros [= <- <-]. split; [reflexivity|].
  exists p'. apply cell_world_pipeline.
Qed.

Lemma read_report_world (yx yy yz : loc) (ex ey ez : F) (w w' : world F)
    (rep : regression_report) :
  read_report yx yy yz ex ey ez w = Ok (rep, w') -> w' = w.
Proof.
  unfold read_report, load_array, bindM, load, ret, raise.
  destruct (heap w !! yx) as [[a| |]|]; try discriminate.
  destruct (heap w !! yy) as [[b| |]|]; try discriminate.
  destruct (heap w !! yz) as [[c| |]|]; try discriminate.
  intros [= _ <-]. reflexivity.
Qed.

Lemma regression_cells_on_rng (pipeline : loc) (p : pipeline_obj F)
    (X_train X_test Y_train Y_test : frame F) (w w' : world F)
    (rep : regression_report) :
  heap w !! pipeline = Some (OPipeline p) ->
  regression_cells_on pipeline X_train X_test Y_train Y_test w = Ok (rep, w') ->
  global_rng w' = global_rng w.
Proof.
  intros Hp. unfold regression_cells_on, bindM.
  destruct (regression_cell pipeline X_train X_test Y_train Y_test
              "x_future"%string w) as [[[yx ex] w1]|e] eqn:E1; [|discriminate].
  destruct (regression_cell_rng _ _ _ _ _ _ _ _ _ _ Hp E1) as (G1 & p1 & Hp1).
  destruct (regression_cell pipeline X_train X_test Y_train Y_test
              "y_future"%string w1) as [[[yy ey] w2]|e] eqn:E2; [|discriminate].
  destruct (regression_cell_rng _ _ _ _ _ _ _ _ _ _ Hp1 E2) as (G2 & p2 & Hp2).
  destruct (regression_cell pipeline X_train X_test Y_train Y_test
              "z_future"%string w2) as [[[yz ez] w3]|e] eqn:E3; [|discriminate].
  destruct (regression_cell_rng _ _ _ _ _ _ _ _ _ _ Hp2 E3) as (G3 & p3 & Hp3).
  intros Hr. apply read_report_world in Hr. subst w'. congruence.
Qed.

Lemma regression_spec_z (degree : nat) (X_train X_test Y_train Y_test : frame F)
    (rep : regression_report) (p3 : pipeline_obj F) :
  regression_spec degree X_train X_test Y_train Y_test = Ok rep ->
  fitted_for degree X_train Y_train "z_future"%string = Ok p3 ->
  pipeline_predict p3 (rows X_test) = Ok (y_hat_for_z rep).
Proof.
  unfold regression_spec.
  destruct (target_report degree X_train X_test Y_train Y_test "x_future"%string)
    as [[ax ex]|e]; [|discriminate]. cbn [bind].
  destruct (target_report degree X_train X_test Y_train Y_test "y_future"%string)
    as [[ay ey]|e]; [|discriminate]. cbn [bind].
  unfold target_report, fit_predict, fitted_for.
  destruct (get_column Y_train "z_future"%string) as [y_train|e]; [|discriminate].
  cbn [bind].
  destruct (pipeline_fit (Pipeline degree) (rows X_train) y_train) as [p|e];
    [|discriminate]. cbn [bind].
  destruct (pipeline_predict p (rows X_test)) as [az|e] eqn:Ep; [|discriminate].
  cbn [bind].
  destruct (get_column Y_test "z_future"%string) as [y_test|e]; [|discriminate].
  cbn [bind]. destruct (rmse y_test az) as [ez|e]; [|discriminate]. cbn [bind].
  intros [= <-] [= <-]. exact Ep.
Qed.

End FinalStateFacts.

(** X21. After cells 34 to 36 the one pipeline object holds the model that
    was fitted last, for [z_future]: what it predicts on the test
    features is [y_hat_for_z], and the models for x and y are gone.
    Every other object of the heap (the scaler of cell 30 for one) is as
    it was, and so is the global random generator. *)
Theorem pipeline_left_fitted_for_z :
  forall (F : Type) (NF : Num F) (MF : Missing F) (SF : Solver F) (RG : Rng)
         (pipeline : loc) (p : pipeline_obj F)
         (X_train X_test Y_train Y_test : frame F)
         (w w' : world F) (rep : regression_report),
    heap w !! pipeline = Some (OPipeline p) ->
    regression_cells_on pipeline X_train X_test Y_train Y_test w = Ok (rep, w') ->
    exists p3,
      heap w' !! pipeline = Some (OPipeline p3)
      /\ fitted_for (poly_degree p) X_train Y_train "z_future"%string = Ok p3
      /\ pipeline_predict p3 (rows X_test) = Ok (y_hat_for_z rep)
      /\ (forall l o, heap w !! l = Some o -> l <> pipeline ->
                      heap w' !! l = Some o)
      /\ global_rng w' = global_rng w.
Proof.
  intros F NF MF SF RG pipeline p X_train X_test Y_train Y_test w w' rep Hp Hrun.
  pose proof (regression_cells_on_run pipeline p X_train X_test Y_train Y_test
                w Hp) as Hspec.
  destruct (regression_spec (poly_degree p) X_train X_test Y_train Y_test)
    as [rep'|e] eqn:Es.
  - destruct Hspec as (w'' & p3 & Hrun' & Hfit & Hpl & Hframe).
    rewrite Hrun in Hrun'. injection Hrun' as <- <-.
    exists p3. split; [exact Hpl|]. split; [exact Hfit|].
    split; [eapply regression_spec_z; eassumption|].
    split; [exact Hframe|].
    eapply regression_cells_on_rng; eassumption.
  - rewrite Hrun in Hspec. discriminate.
Qed.

Lemma pipeline_left_fitted_for_z_witness :
  exists rep w' p3,
    regression_cells_on 0 Demo.F_train Demo.F_test Demo.T_train Demo.T_test
      Demo.w_pipe = Ok (rep, w')
    /\ heap w' !! 0 = Some (OPipeline p3)
    /\ fitted_for 2 Demo.F_train Demo.T_train "z_future"%string = Ok p3
    /\ pipeline_predict p3 (rows Demo.F_test) = Ok (y_hat_for_z rep)
    /\ (forall l o, heap Demo.w_pipe !! l = Some o -> l <> 0 ->
                    heap w' !! l = Some o)
    /\ global_rng w' = global_rng Demo.w_pipe.
Proof.
  destruct (regression_cells_on 0 Demo.F_train Demo.F_test Demo.T_train
              Demo.T_test Demo.w_pipe) as [[rep w']|e] eqn:Hrun;
    [|vm_compute in Hrun; discriminate Hrun].
  exists rep, w'.
  destruct (pipeline_left_fitted_for_z B64.t binary64 binary64_missing
              example_solver example_rng 0 (Pipeline 2)
              Demo.F_train Demo.F_test Demo.T_train Demo.T_test
              Demo.w_pipe w' rep) as (p3 & Hp3);
    [vm_compute; reflexivity|exact Hrun|].
  exists p3. split; [reflexivity|exact Hp3].
Defined.

(** ** Plots and animations *)

Section AnimationFacts.
Context {F : Type}.

Lemma play_stateless {S : Type} (g : nat -> S) (update : nat -> S -> S)
    (frames : list nat) (s : S) :
  (forall frame s', update frame s' = g frame) ->
  play update frames s = map g frames.
Proof.
  intros Hg. revert s. induction frames as [|f frames IH]; intros s; [reflexivity|].
  cbn [play map]. rewrite Hg, IH. reflexivity.
Qed.

Lemma cell18_ani (x z t : list F) (line : line2d F) :
  Cell18.ani x z t line
  = Line2D [] [] :: map (fun k => Line2D (take k x) (take k z)) (seq 0 (length t)).
Proof.
  unfold Cell18.ani, FuncAnimation. f_equal.
  apply play_stateless. reflexivity.
Qed.

Lemma cell38_ani (x z t yx yz : list F) (lines : line2d F * line2d F) :
  Cell38.ani x z t yx yz lines
  = (Line2D [] [], Line2D [] [])
    :: map (fun k => (Line2D (take k (Cell38.x_sliced x)) (take k (Cell38.z_sliced z)),
                      Line2D (take k yx) (take k yz)))
         (seq 0 (length t)).
Proof.
  unfold Cell38.ani, FuncAnimation. destruct lines as [l1 l2]. f_equal.
  apply play_stateless. intros frame [l1' l2']. reflexivity.
Qed.

Lemma lookup_map_seq {B : Type} (g : nat -> B) (a n k : nat) :
  k < n -> map g (seq a n) !! k = Some (g (a + k)).
Proof.
  revert a k. induction n as [|n IH]; intros a k Hk; [lia|].
  destruct k as [|k]; cbn [seq map lookup list_lookup].
  - rewrite Nat.add_0_r. reflexivity.
  - rewrite IH by lia. f_equal. f_equal. lia.
Qed.

Lemma length_last_entries {A : Type} (k : nat) (a : list A) :
  0 < k -> length (last_entries k a) = Nat.min k (length a).
Proof.
  intros Hk. unfold last_entries. destruct k as [|k]; [lia|].
  rewrite length_drop. lia.
Qed.

End AnimationFacts.

Section ReductionFacts.
Local Open Scope R_scope.

Lemma minimum_R (a b : R) : minimum a b = Rmin a b.
Proof.
  unfold minimum, fisnan_self, fltb. cbn [fleb exactR]. unfold Rleb, Rmin.
  destruct (Rle_dec a a) as [_|Hn]; [|exfalso; apply Hn; lra]. cbn [negb].
  destruct (Rle_dec a b) as [Hab|Hab]; destruct (Rle_dec b a) as [Hba|Hba];
    cbn [andb negb]; try reflexivity. lra.
Qed.

Lemma maximum_R (a b : R) : maximum a b = Rmax a b.
Proof.
  unfold maximum, fisnan_self, fltb. cbn [fleb exactR]. unfold Rleb, Rmax.
  destruct (Rle_dec a a) as [_|Hn]; [|exfalso; apply Hn; lra]. cbn [negb].
  destruct (Rle_dec a b) as [Hab|Hab]; destruct (Rle_dec b a) as [Hba|Hba];
    cbn [andb negb]; try reflexivity; lra.
Qed.

Lemma fold_minimum_R (l : list R) (a : R) :
  In (fold_left minimum l a) (a :: l)
  /\ forall p, In p (a :: l) -> fold_left minimum l a <= p.
Proof.
  revert a. induction l as [|b l IH]; intros a.
  - cbn. split; [left; reflexivity|]. intros p [<-|[]]. lra.
  - cbn [fold_left]. destruct (IH (minimum a b)) as [Hin Hle]. split.
    + destruct Hin as [E|Hin].
      * rewrite <- E, minimum_R. unfold Rmin.
        destruct (Rle_dec a b); [left; reflexivity|right; left; reflexivity].
      * right; right; exact Hin.
    + intros p Hp. pose proof (Hle (minimum a b) (or_introl eq_refl)) as H0.
      rewrite minimum_R in H0 at 2.
      destruct Hp as [<-|[<-|Hp]].
      * pose proof (Rmin_l a b). lra.
      * pose proof (Rmin_r a b). lra.
      * apply Hle. right. exact Hp.
Qed.

Lemma fold_maximum_R (l : list R) (a : R) :
  In (fold_left maximum l a) (a :: l)
  /\ forall p, In p (a :: l) -> p <= fold_left maximum l a.
Proof.
  revert a. induction l as [|b l IH]; intros a.
  - cbn. split; [left; reflexivity|]. intros p [<-|[]]. lra.
  - cbn [fold_left]. destruct (IH (maximum a b)) as [Hin Hle]. split.
    + destruct Hin as [E|Hin].
      * rewrite <- E, maximum_R. unfold Rmax.
        destruct (Rle_dec a b); [right; left; reflexivity|left; reflexivity].
      * right; right; exact Hin.
    + intros p Hp. pose proof (Hle (maximum a b) (or_introl eq_refl)) as H0.
      rewrite maximum_R in H0 at 1.
      destruct Hp as [<-|[<-|Hp]].
      * pose proof (Rmax_l a b). lra.
      * pose proof (Rmax_r a b). lra.
      * apply Hle. right. exact Hp.
Qed.

(** There is no NaN and no infinity among the reals. *)
Lemma fisfinite_R (a : R) : fisfinite a = true.
Proof.
  unfold fisfinite, fisnan_self. cbn [fleb fsub exactR]. unfold Rleb.
  destruct (Rle_dec (a - a) (a - a)) as [_|Hn]; [reflexivity|].
  exfalso. apply Hn. lra.
Qed.

End ReductionFacts.

Module B64Order.

Lemma leb_refl (a : B64.t) : B64.is_nan a = false -> B64.leb a a = true.
Proof.
  unfold B64.leb, SFleb. destruct a as [s|s| |s m e]; try discriminate; intros _.
  - reflexivity.
  - destruct s; reflexivity.
  - cbn [SFcompare]. destruct s; rewrite Z.compare_refl;
      rewrite ?Pos.compare_refl, ?Pos.compare_cont_refl; reflexivity.
Qed.

Lemma leb_nan_l (a : B64.t) : B64.leb B64.nan a = false.
Proof. reflexivity. Qed.

Lemma leb_nan_r (a : B64.t) : B64.leb a B64.nan = false.
Proof. destruct a; reflexivity. Qed.

Lemma is_nan_eq (a : B64.t) : B64.is_nan a = true -> a = B64.nan.
Proof. destruct a; try discriminate. reflexivity. Qed.

Lemma fisnan_self_is_nan (a : B64.t) : fisnan_self a = B64.is_nan a.
Proof.
  unfold fisnan_self. cbn [fleb binary64].
  destruct (B64.is_nan a) eqn:E.
  - apply is_nan_eq in E. subst a. reflexivity.
  - rewrite leb_refl by exact E. reflexivity.
Qed.

Lemma minimum_nan (a b : B64.t) :
  B64.is_nan a = true \/ B64.is_nan b = true -> B64.is_nan (minimum a b) = true.
Proof.
  intros Hab. unfold minimum. rewrite fisnan_self_is_nan.
  destruct (B64.is_nan a) eqn:Ea; [exact Ea|].
  destruct Hab as [Ha|Hb]; [discriminate|].
  apply is_nan_eq in Hb. subst b. unfold fltb. cbn [fleb binary64].
  rewrite leb_nan_r. reflexivity.
Qed.

Lemma maximum_nan (a b : B64.t) :
  B64.is_nan a = true \/ B64.is_nan b = true -> B64.is_nan (maximum a b) = true.
Proof.
  intros Hab. unfold maximum. rewrite fisnan_self_is_nan.
  destruct (B64.is_nan a) eqn:Ea; [exact Ea|].
  destruct Hab as [Ha|Hb]; [discriminate|].
  apply is_nan_eq in Hb. subst b. unfold fltb. cbn [fleb binary64].
  rewrite leb_nan_l. reflexivity.
Qed.

Lemma fold_nan (op : B64.t -> B64.t -> B64.t) (l : list B64.t) (a : B64.t) :
  (forall a b, B64.is_nan a = true \/ B64.is_nan b = true ->
               B64.is_nan (op a b) = true) ->
  Exists (fun v => B64.is_nan v = true) (a :: l) ->
  B64.is_nan (fold_left op l a) = true.
Proof.
  intros Hop. revert a. induction l as [|b l IH]; intros a Hex.
  - apply Exists_cons in Hex as [Ha|Hex]; [exact Ha|]. inversion Hex.
  - cbn [fold_left]. apply IH.
    apply Exists_cons in Hex as [Ha|Hex];
      [apply Exists_cons_hd, Hop; left; exact Ha|].
    apply Exists_cons in Hex as [Hb|Hex];
      [apply Exists_cons_hd, Hop; right; exact Hb|].
    apply Exists_cons_tl. exact Hex.
Qed.

End B64Order.

(** X22. The animation of cell 18 draws, after the empty line of [init],
    one frame per sample of the time grid; frame [k] shows the first [k]
    points of the trajectory, with as many x as z coordinates, and the
    next frame adds the next point.  As the frames are [0 .. len(t)-1],
    no frame shows the whole trajectory: the last point is never
    drawn. *)
Theorem trajectory_animation_frames :
  forall (F : Type) (x z t : list F) (line : line2d F),
    length x = length t -> length z = length t ->
    length (Cell18.ani x z t line) = S (length t)
    /\ Cell18.ani x z t line !! 0 = Some (Line2D [] [])
    /\ (forall k, k < length t ->
          exists l, Cell18.ani x z t line !! (S k) = Some l
                    /\ xdata l = take k x /\ ydata l = take k z
                    /\ length (xdata l) = k /\ length (ydata l) = k)
    /\ (forall k xk zk, x !! k = Some xk -> z !! k = Some zk ->
          S k < length t ->
          Cell18.ani x z t line !! (S (S k))
          = Some (Line2D (take k x ++ [xk]) (take k z ++ [zk])))
    /\ Forall (fun l => length (xdata l) < length x \/ x = [])
         (Cell18.ani x z t line).
Proof.
  intros F x z t line Hx Hz. rewrite cell18_ani.
  split; [cbn; rewrite length_map, length_seq; reflexivity|].
  split; [reflexivity|]. split; [|split].
  - intros k Hk. eexists. split.
    + rewrite (lookup_map_seq _ 0 _ _ Hk : (_ :: _) !! S _ = _).
      reflexivity.
    + cbn [xdata ydata]. rewrite !length_take. repeat split; lia.
  - intros k xk zk Hxk Hzk Hk.
    rewrite (lookup_map_seq _ 0 _ _ Hk : (_ :: _) !! S _ = _).
    cbn [Nat.add].
    rewrite (take_S_r x k xk Hxk), (take_S_r z k zk Hzk). reflexivity.
  - constructor; [cbn [xdata]; destruct x; [right; reflexivity|left; cbn; lia]|].
    apply Forall_map, Forall_forall. intros k Hk. apply elem_of_seq in Hk.
    left. cbn [xdata]. rewrite length_take. lia.
Qed.

Lemma trajectory_animation_frames_witness :
  let x := [1; 2; 3] in
  let z := [4; 5; 6] in
  let t := [0; 1; 2] in
  let line := Line2D [] [] in
  length (Cell18.ani x z t line) = S (length t)
  /\ Cell18.ani x z t line !! 0 = Some (Line2D [] [])
  /\ (forall k, k < length t ->
        exists l, Cell18.ani x z t line !! (S k) = Some l
                  /\ xdata l = take k x /\ ydata l = take k z
                  /\ length (xdata l) = k /\ length (ydata l) = k)
  /\ (forall k xk zk, x !! k = Some xk -> z !! k = Some zk ->
        S k < length t ->
        Cell18.ani x z t line !! (S (S k))
        = Some (Line2D (take k x ++ [xk]) (take k z ++ [zk])))
  /\ Forall (fun l => length (xdata l) < length x \/ x = [])
       (Cell18.ani x z t line).
Proof.
  intros x z t line.
  apply (trajectory_animation_frames nat x z t line); reflexivity.
Defined.

(** X23. Over the reals the axis limits of cell 18 are attained values of
    the trajectory and every point that any frame of the animation draws
    lies within them; for an empty trajectory [np.min] raises
    [ValueError]. *)
Theorem axis_limits_contain_trajectory :
  forall (x z t : list R) (line : line2d R),
    (x <> [] ->
     exists lo hi,
       Cell18.xlim x = Ok (lo, hi)
       /\ In lo x /\ In hi x
       /\ Forall (fun l => Forall (fun p => (lo <= p <= hi)%R) (xdata l))
            (Cell18.ani x z t line))
    /\ (x = [] -> Cell18.xlim x = Raise ValueError).
Proof.
  intros x z t line. split; [|intros ->; reflexivity].
  intros Hne. destruct x as [|a x]; [contradiction|].
  destruct (fold_minimum_R x a) as [Hlo Hmin].
  destruct (fold_maximum_R x a) as [Hhi Hmax].
  eexists _, _. split.
  { unfold Cell18.xlim, np_min, np_max. cbn [bind]. unfold set_lim.
    rewrite !fisfinite_R. reflexivity. }
  split; [exact Hlo|]. split; [exact Hhi|].
  rewrite cell18_ani. constructor; [constructor|].
  apply Forall_map, Forall_forall. intros k _. cbn [xdata].
  apply Forall_forall. intros p Hp. apply elem_of_take in Hp as (i & Hp & _).
  apply list_elem_of_lookup_2, list_elem_of_In in Hp.
  split; [apply Hmin|apply Hmax]; exact Hp.
Qed.

(** X24. In binary64 a NaN anywhere in the trajectory makes [np.min(x)]
    and [np.max(x)] NaN, and [ax.set_xlim] then raises [ValueError]:
    cell 18 stops at its second line. *)
Theorem axis_limits_propagate_nan :
  forall (x : list B64.t),
    Exists (fun v => B64.is_nan v = true) x ->
    exists lo hi,
      np_min x = Ok lo /\ np_max x = Ok hi
      /\ B64.is_nan lo = true /\ B64.is_nan hi = true
      /\ Cell18.xlim x = Raise ValueError.
Proof.
  intros x Hex. destruct x as [|a x]; [inversion Hex|].
  assert (Hlo : B64.is_nan (fold_left minimum x a) = true)
    by (apply B64Order.fold_nan; [exact B64Order.minimum_nan|exact Hex]).
  assert (Hhi : B64.is_nan (fold_left maximum x a) = true)
    by (apply B64Order.fold_nan; [exact B64Order.maximum_nan|exact Hex]).
  eexists _, _. split; [reflexivity|]. split; [reflexivity|].
  split; [exact Hlo|]. split; [exact Hhi|].
  unfold Cell18.xlim, np_min, np_max. cbn [bind]. unfold set_lim.
  apply B64Order.is_nan_eq in Hlo. rewrite Hlo. reflexivity.
Qed.

Lemma axis_limits_propagate_nan_witness :
  exists lo hi,
    np_min [Demo.f 1; B64.nan; Demo.f 2] = Ok lo
    /\ np_max [Demo.f 1; B64.nan; Demo.f 2] = Ok hi
    /\ B64.is_nan lo = true /\ B64.is_nan hi = true
    /\ Cell18.xlim [Demo.f 1; B64.nan; Demo.f 2] = Raise ValueError.
Proof.
  apply (axis_limits_propagate_nan [Demo.f 1; B64.nan; Demo.f 2]).
  apply Exists_cons_tl, Exists_cons_hd. reflexivity.
Defined.

(** The same line on finite data, and on data with an infinity. *)
Example axis_limits_of_finite_data :
  Cell18.xlim [Demo.f 3; Demo.f 1; Demo.f 2] = Ok (Demo.f 1, Demo.f 3).
Proof. vm_compute. reflexivity. Qed.

Example axis_limits_of_infinite_data :
  Cell18.xlim [Demo.f 3; S754_infinity false; Demo.f 2] = Raise ValueError.
Proof. vm_compute. reflexivity. Qed.

(** X25. The animation of cells 37 and 38 compares the last 600 points of
    the trajectory with the predictions.  In frame [k] the first line
    has [min(k, 600)] points and the second as many as there are
    predictions, up to [k]; from the frame on at which both are complete
    every frame draws the same picture. *)
Theorem prediction_animation_frames :
  forall (F : Type) (x z t y_hat_for_x y_hat_for_z : list F)
         (lines : line2d F * line2d F),
    length x = length t -> length z = length t -> 600 <= length t ->
    length y_hat_for_z = length y_hat_for_x ->
    length (Cell38.x_sliced x) = 600
    /\ length (Cell38.z_sliced z) = 600
    /\ Cell38.x_sliced x = drop (length x - 600) x
    /\ (forall k, k < length t ->
          exists line1 line2,
            Cell38.ani x z t y_hat_for_x y_hat_for_z lines !! (S k)
            = Some (line1, line2)
            /\ length (xdata line1) = Nat.min k 600
            /\ length (ydata line1) = Nat.min k 600
            /\ length (xdata line2) = Nat.min k (length y_hat_for_x)
            /\ length (ydata line2) = Nat.min k (length y_hat_for_x)
            /\ (600 <= k -> length y_hat_for_x <= k ->
                line1 = Line2D (Cell38.x_sliced x) (Cell38.z_sliced z)
                /\ line2 = Line2D y_hat_for_x y_hat_for_z)).
Proof.
  intros F x z t yx yz lines Hx Hz Ht Hy.
  assert (Hxs : length (Cell38.x_sliced x) = 600).
  { unfold Cell38.x_sliced. rewrite length_last_entries by lia. lia. }
  assert (Hzs : length (Cell38.z_sliced z) = 600).
  { unfold Cell38.z_sliced. rewrite length_last_entries by lia. lia. }
  split; [exact Hxs|]. split; [exact Hzs|]. split; [reflexivity|].
  intros k Hk. rewrite cell38_ani. eexists _, _. split.
  { rewrite (lookup_map_seq _ 0 _ _ Hk : (_ :: _) !! S _ = _).
    reflexivity. }
  cbn [xdata ydata]. rewrite !length_take, Hxs, Hzs, Hy.
  repeat split; try lia.
  - rewrite !take_ge by lia. reflexivity.
  - rewrite !take_ge by lia. reflexivity.
Qed.

Lemma prediction_animation_frames_witness :
  let x := seq 0 700 in
  let z := seq 1000 700 in
  let t := seq 0 700 in
  let y_hat_for_x := [1; 2; 3] in
  let y_hat_for_z := [4; 5; 6] in
  let lines := (Line2D [] [], Line2D [] []) in
  Cell38.x_sliced x = seq 100 600
  /\ Cell38.z_sliced z = seq 1100 600
  /\ (exists line1 line2,
        Cell38.ani x z t y_hat_for_x y_hat_for_z lines !! 3 = Some (line1, line2)
        /\ length (xdata line1) = 2 /\ length (ydata line1) = 2
        /\ length (xdata line2) = 2 /\ length (ydata line2) = 2)
  /\ Cell38.ani x z t y_hat_for_x y_hat_for_z lines !! 601
     = Some (Line2D (seq 100 600) (seq 1100 600), Line2D [1; 2; 3] [4; 5; 6])
  /\ Cell38.ani x z t y_hat_for_x y_hat_for_z lines !! 700
     = Some (Line2D (seq 100 600) (seq 1100 600), Line2D [1; 2; 3] [4; 5; 6]).
Proof.
  intros x z t y_hat_for_x y_hat_for_z lines.
  destruct (prediction_animation_frames nat x z t y_hat_for_x y_hat_for_z lines)
    as (_ & _ & Hx & Hframe); [reflexivity|reflexivity|vm_compute; lia|reflexivity|].
  split; [exact Hx|]. split; [reflexivity|]. split; [|split].
  - destruct (Hframe 2) as (line1 & line2 & E & L1 & L2 & L3 & L4 & _);
      [vm_compute; lia|].
    exists line1, line2. repeat split; assumption.
  - destruct (Hframe 600) as (line1 & line2 & E & _ & _ & _ & _ & Hfull);
      [vm_compute; lia|].
    destruct Hfull as [-> ->]; [lia|cbn; lia|]. exact E.
  - destruct (Hframe 699) as (line1 & line2 & E & _ & _ & _ & _ & Hfull);
      [vm_compute; lia|].
    destruct Hfull as [-> ->]; [lia|cbn; lia|]. exact E.
Defined.
